(** * Boundary harmonisation pipeline (src/boundaries.py, src/run.py)

    A shallow embedding of the [Boundaries] class: resource and shapefile
    resolution, field harmonisation, the simplification tolerance, the
    merge into the global boundary set and the per-country driver. *)

From Stdlib Require Import ZArith Lia Bool List Ascii String.
From Stdlib Require Import PrimFloat Uint63.
From Stdlib Require Import QArith Permutation Sorted DecimalString DecimalZ.
From stdpp Require Import base option list gmap strings sorting.
Import ListNotations.

Local Open Scope string_scope.
Local Open Scope list_scope.

(** ** Characters and strings *)

(** Python strings are modelled as [string] (8-bit characters); case
    mapping is the ASCII one. *)
Module Chars.

Definition newline : ascii := "010"%char.

(** Letter case on the code points up to 255, as [str.lower] and
    [str.upper] have it there: the letters of ASCII and those of
    Latin-1, but for the multiplication and division signs. *)
Definition is_upper (c : ascii) : bool :=
  let n := nat_of_ascii c in
  (65 <=? n)%nat && (n <=? 90)%nat ||
  (192 <=? n)%nat && (n <=? 222)%nat && negb (n =? 215)%nat.

Definition is_lower (c : ascii) : bool :=
  let n := nat_of_ascii c in
  (97 <=? n)%nat && (n <=? 122)%nat ||
  (224 <=? n)%nat && (n <=? 254)%nat && negb (n =? 247)%nat.

Definition lower (c : ascii) : ascii :=
  if is_upper c then ascii_of_nat (nat_of_ascii c + 32) else c.

Definition upper (c : ascii) : ascii :=
  if is_lower c then ascii_of_nat (nat_of_ascii c - 32) else c.

Definition is_digit (c : ascii) : bool :=
  let n := nat_of_ascii c in (48 <=? n)%nat && (n <=? 57)%nat.

(** The code points up to 255 that [\s] accepts in a [str] pattern *)
Definition whitespace : list ascii :=
  [" "%char; "009"%char; "010"%char; "011"%char; "012"%char; "013"%char;
   "028"%char; "029"%char; "030"%char; "031"%char; "133"%char; "160"%char].

Definition is_space (c : ascii) : bool :=
  existsb (Ascii.eqb c) whitespace.

(** [a == b] under [re.IGNORECASE]. *)
Definition eq_ci (a b : ascii) : bool := Ascii.eqb (lower a) (lower b).

Definition chars (s : string) : list ascii := list_ascii_of_string s.

(** [s.lower()] and [s.upper()] *)
Definition str_lower (s : string) : string :=
  string_of_list_ascii (map lower (chars s)).

(** The sharp s is written SS in upper case. The capitals of the micro
    sign and of the y with diaeresis lie beyond code point 255: the two
    are kept, and a text that holds one of them is not covered. *)
Definition upper_chars (c : ascii) : list ascii :=
  if Ascii.eqb c "223"%char then ["S"%char; "S"%char] else [upper c].

Definition str_upper (s : string) : string :=
  string_of_list_ascii (flat_map upper_chars (chars s)).

(** [s[-1]]: [None] stands for the IndexError on an empty string. *)
Definition last_char (s : string) : option ascii := last (chars s).

(** [int(c)] for a one-character string: [None] stands for ValueError. *)
Definition digit_value (c : ascii) : option nat :=
  if is_digit c then Some (nat_of_ascii c - 48)%nat else None.

(** [str(l)] for a non-negative integer *)
Definition str_of_nat (n : nat) : string :=
  NilZero.string_of_uint (Nat.to_uint n).

(** [str(z)] for an integer *)
Definition str_of_Z (z : Z) : string :=
  NilZero.string_of_int (Z.to_int z).

(** [s.replace(old, new)] for a one-character [old] *)
Fixpoint replace_char (old : ascii) (new : string) (s : string) : string :=
  match s with
  | EmptyString => EmptyString
  | String c s' =>
      if Ascii.eqb c old then new ++ replace_char old new s'
      else String c (replace_char old new s')
  end.

End Chars.
Import Chars.

(** ** Regular expressions

    The fragment of Python's [re] syntax that the patterns of
    [boundaries.py] use, matched as [re.match(p, s, re.IGNORECASE)] does:
    anchored at the start of [s], free at its end. *)
Module Re.

Inductive regex : Type :=
| Void                       (* matches nothing; arises in derivatives *)
| Eps                        (* the empty pattern *)
| Chr (c : ascii)            (* a literal character, case-insensitive *)
| Dot                        (* [.]: any character but a newline *)
| Space                      (* [\s] *)
| Cat (r1 r2 : regex)
| Alt (r1 r2 : regex)
| Star (r : regex).

(** [(r)?] *)
Definition Opt (r : regex) : regex := Alt r Eps.

(** A run of literal characters *)
Fixpoint lit (w : list ascii) : regex :=
  match w with
  | [] => Eps
  | c :: w' => Cat (Chr c) (lit w')
  end.

Definition text (s : string) : regex := lit (chars s).

Fixpoint nullable (r : regex) : bool :=
  match r with
  | Void => false
  | Eps => true
  | Chr _ => false
  | Dot => false
  | Space => false
  | Cat r1 r2 => nullable r1 && nullable r2
  | Alt r1 r2 => nullable r1 || nullable r2
  | Star _ => true
  end.

Fixpoint deriv (a : ascii) (r : regex) : regex :=
  match r with
  | Void => Void
  | Eps => Void
  | Chr c => if eq_ci c a then Eps else Void
  | Dot => if Ascii.eqb a newline then Void else Eps
  | Space => if is_space a then Eps else Void
  | Cat r1 r2 =>
      if nullable r1 then Alt (Cat (deriv a r1) r2) (deriv a r2)
      else Cat (deriv a r1) r2
  | Alt r1 r2 => Alt (deriv a r1) (deriv a r2)
  | Star r1 => Cat (deriv a r1) (Star r1)
  end.

(** Some prefix of [w] is matched by [r]. *)
Fixpoint match_prefix (r : regex) (w : list ascii) : bool :=
  nullable r ||
  match w with
  | [] => false
  | a :: w' => match_prefix (deriv a r) w'
  end.

(** [bool(re.match(r, s, re.IGNORECASE))] *)
Definition re_match (r : regex) (s : string) : bool :=
  match_prefix r (chars s).

(** The words of a pattern *)
Inductive lang : regex -> list ascii -> Prop :=
| lang_eps : lang Eps []
| lang_chr c a : eq_ci c a = true -> lang (Chr c) [a]
| lang_dot a : a <> newline -> lang Dot [a]
| lang_space a : is_space a = true -> lang Space [a]
| lang_cat r1 r2 u v : lang r1 u -> lang r2 v -> lang (Cat r1 r2) (u ++ v)
| lang_alt_l r1 r2 u : lang r1 u -> lang (Alt r1 r2) u
| lang_alt_r r1 r2 u : lang r2 u -> lang (Alt r1 r2) u
| lang_star_nil r : lang (Star r) []
| lang_star_cons r u v :
    lang r u -> lang (Star r) v -> lang (Star r) (u ++ v).

End Re.
Import Re.

(** ** Exceptions

    A Python call either returns or raises; the driver catches nothing
    but [DownloadError] and [BadZipFile], both inside [find_shapefile]. *)
Inductive exn : Type :=
| IndexError | KeyError | ValueError | TypeError | OtherError.

Inductive result (A : Type) : Type :=
| Ok (a : A)
| Raise (e : exn).
Arguments Ok {A} a.
Arguments Raise {A} e.

#[export] Instance result_bind : MBind result :=
  fun A B (k : A -> result B) (x : result A) =>
    match x with
    | Ok a => k a
    | Raise e => Raise e
    end.

#[export] Instance result_ret : MRet result := fun A a => Ok a.

Definition of_option {A : Type} (e : exn) (o : option A) : result A :=
  match o with
  | Some a => Ok a
  | None => Raise e
  end.

(** [int(level[-1])] *)
Definition level_depth (level : string) : result nat :=
  c ← of_option IndexError (last_char level);
  of_option ValueError (digit_value c).

(** ** Resource Resolver and Shapefile Selector *)

(** What [resource.download], [ZipFile.extractall] and the recursive
    [glob] for [*.shp] yield for a resource. *)
Inductive payload : Type :=
| DownloadFails                      (* download raises DownloadError *)
| NotAZip                            (* ZipFile raises BadZipFile *)
| Archive (shp_paths : list string). (* the paths [glob] returns *)

Record resource : Type := {
  res_name : string;                 (* r["name"] *)
  res_file_type : option string;     (* r.get_file_type() *)
  res_payload : payload
}.

(** The characters that a pattern reads as themselves, whatever their
    place in it: those of ASCII but the special ones. *)
Definition plain_char (c : ascii) : bool :=
  (nat_of_ascii c <? 128)%nat &&
  negb (existsb (Ascii.eqb c) (chars ".^$*+?{}[]\|()")).


(** A token of such characters and of dots, and the pattern that its
    text is: a dot stands for any character but a newline. *)
Definition simple_char (c : ascii) : bool :=
  plain_char c || Ascii.eqb c ".".

Definition simple (token : string) : bool :=
  forallb simple_char (chars token).

Definition spliced_char (c : ascii) : regex :=
  if Ascii.eqb c "." then Dot else Chr c.

Fixpoint spliced (w : list ascii) : regex :=
  match w with
  | [] => Eps
  | c :: w' => Cat (spliced_char c) (spliced w')
  end.

(** [.*{resource_name}.*] for a simple token (see [Patterns] below) *)
Definition token_pattern (resource_name : string) : regex :=
  Cat (Star Dot) (Cat (spliced (chars resource_name)) (Star Dot)).

(** [adm(in)?(\s)?(0)?{n}] and [adm(in)?(0)?{n}] without their frame *)
Definition level_core (sep : bool) (n : ascii) : regex :=
  Cat (text "adm")
    (Cat (Opt (text "in"))
       (Cat (if sep then Opt Space else Eps)
          (Cat (Opt (Chr "0")) (Chr n)))).

(** [.*adm(in)?(\s)?(0)?{level[-1]}.*] *)
Definition resource_level_pattern (n : ascii) : regex :=
  Cat (Star Dot) (Cat (level_core true n) (Star Dot)).

(** [.*admbnda.*adm(in)?(0)?{level[-1]}.*] *)
Definition shapefile_level_pattern (n : ascii) : regex :=
  Cat (Star Dot)
    (Cat (text "admbnda")
       (Cat (Star Dot) (Cat (level_core false n) (Star Dot)))).

(** [.*simplified.*] *)
Definition simplified_pattern : regex :=
  Cat (Star Dot) (Cat (text "simplified") (Star Dot)).

Definition is_shp (r : resource) : bool :=
  match res_file_type r with
  | Some t => String.eqb t "shp"
  | None => false
  end.

(** [self.exceptions["resource"].get(iso, "adm")] *)
Definition resource_token (resource_exceptions : gmap string string)
    (iso : string) : string :=
  default "adm" (resource_exceptions !! iso).

(** Line 78 splices the token of the configuration into the pattern as
    it stands, special characters and all. What [re] makes of the
    spliced text is left to the library: [token_matcher token] is
    [re.compile(f".*{token}.*", re.IGNORECASE).match] as a test on
    names, or [re.error]. Of the library it is relied upon that in a
    simple token a dot stands for any character but a newline and
    every other character for itself. *)
Class Patterns : Type := {
  token_matcher : string -> result (string -> bool);
  token_matcher_simple :
    forall token, simple token = true ->
      exists test,
        token_matcher token = Ok test /\
        forall name, test name = re_match (token_pattern token) name
}.

Fixpoint filterM {A : Type} (f : A -> result bool) (l : list A)
  : result (list A) :=
  match l with
  | [] => Ok []
  | a :: l' =>
      keep ← f a;
      kept ← filterM f l';
      Ok (if (keep : bool) then a :: kept else kept)
  end.

(** [Boundaries.find_resource]. The pattern of the token is compiled
    when the first resource of type "shp" is tested, and [level[-1]]
    is only evaluated when more than one candidate is left; it is a
    digit wherever the driver calls: [int(level[-1])] has returned at
    line 237. *)
Definition find_resource `{Patterns} (resource_exceptions : gmap string string)
    (iso : string) (dataset : list resource) (level : string)
  : result (list resource) :=
  let resource_name := resource_token resource_exceptions iso in
  boundary_resource ←
    filterM
      (fun r =>
         if is_shp r
         then test ← token_matcher resource_name; Ok (test (res_name r))
         else Ok false)
      dataset;
  if (1 <? length boundary_resource)%nat then
    n ← of_option IndexError (last_char level);
    Ok (List.filter
          (fun r => re_match (resource_level_pattern n) (res_name r))
          boundary_resource)
  else Ok boundary_resource.

(** Why [find_shapefile] returned [None]; each case logs its own error. *)
Inductive no_shapefile : Type :=
| CouldNotDownload | CouldNotUnzip | DidNotFind | CouldNotDistinguish.

Inductive selection : Type :=
| Selected (path : string)
| NoFile (why : no_shapefile).

(** The value [find_shapefile] hands back *)
Definition returned (s : selection) : option string :=
  match s with
  | Selected p => Some p
  | NoFile _ => None
  end.

(** Lines 113-119: narrow by the naming convention unless nothing
    matches it. *)
Definition keep_level_named (n : ascii) (boundary_shp : list string)
  : list string :=
  let name_match := map (re_match (shapefile_level_pattern n)) boundary_shp in
  if existsb id name_match
  then List.filter (re_match (shapefile_level_pattern n)) boundary_shp
  else boundary_shp.

(** Lines 121-124: drop the simplified copies when there are any. *)
Definition drop_simplified (boundary_shp : list string) : list string :=
  let simp_match := map (re_match simplified_pattern) boundary_shp in
  if existsb id simp_match
  then List.filter (fun b => negb (re_match simplified_pattern b)) boundary_shp
  else boundary_shp.

(** Lines 108-130 of [find_shapefile], on the list [glob] returned *)
Definition choose_shapefile (boundary_shp : list string) (level : string)
  : result selection :=
  match boundary_shp with
  | [] => Ok (NoFile DidNotFind)
  | _ =>
      boundary_shp ←
        (if (1 <? length boundary_shp)%nat then
           n ← of_option IndexError (last_char level);
           Ok (keep_level_named n boundary_shp)
         else Ok boundary_shp);
      let boundary_shp :=
        if (1 <? length boundary_shp)%nat then drop_simplified boundary_shp
        else boundary_shp in
      match boundary_shp with
      | [b] => Ok (Selected b)
      | _ => Ok (NoFile CouldNotDistinguish)
      end
  end.

(** [Boundaries.find_shapefile] *)
Definition find_shapefile (iso : string) (r : resource) (level : string)
  : result selection :=
  match res_payload r with
  | DownloadFails => Ok (NoFile CouldNotDownload)
  | NotAZip => Ok (NoFile CouldNotUnzip)
  | Archive boundary_shp => choose_shapefile boundary_shp level
  end.

(** ** Tabular geometry layers

    A (Geo)DataFrame: an ordered list of typed columns and an ordered list
    of records. A record maps column labels to cells; a label it does not
    bind reads as NaN, as after an [append] of frames whose columns
    differ. The geometry column is the one labelled ["geometry"], as
    [read_file] names it. The index labels and the CRS are left out. *)

(** The dtypes of the columns that a vector file is read into: text
    and other objects, integers, floats, geometry. *)
Inductive dtype : Type := DObject | DInt64 | DFloat64 | DGeometry.

(** [pandas.api.types.is_numeric_dtype] *)
Definition is_numeric_dtype (t : dtype) : bool :=
  match t with
  | DInt64 | DFloat64 => true
  | DObject | DGeometry => false
  end.

(** A number is given by the rational it denotes; whether it is kept
    as an int64 or as a float64 is the dtype of its column. The only
    float that is not a number here is NaN: a column that holds an
    infinity is not among the layers described, and nothing below says
    when the cast of a numeric column returns. A record that does not
    have a column reads as NaN in it, which is how an append leaves the
    records of the side that lacks the column. *)
Inductive cell (G : Type) : Type :=
| CStr (s : string)
| CNum (q : Q)
| CNaN
| CNone
| CGeom (g : G).
Arguments CStr {G} s.
Arguments CNum {G} q.
Arguments CNaN {G}.
Arguments CNone {G}.
Arguments CGeom {G} g.

Abbreviation row G := (gmap string (cell G)).

Record layer (G : Type) : Type := {
  columns : list (string * dtype);
  rows : list (row G)
}.
Arguments columns {G} l.
Arguments rows {G} l.

Inductive sort_key : Type :=
| KNum (q : Q) | KStr (s : string) | KOther | KNull.

Section Frames.
Context {G : Type} `{EqDecision G}.

Definition get (r : row G) (c : string) : cell G := default CNaN (r !! c).

Definition column_names (lyr : layer G) : list string :=
  map fst (columns lyr).

Definition mem (c : string) (l : list string) : bool :=
  existsb (String.eqb c) l.

(** [c in lyr.columns] *)
Definition has_column (c : string) (lyr : layer G) : bool :=
  mem c (column_names lyr).

Fixpoint assoc {A : Type} (c : string) (l : list (string * A)) : option A :=
  match l with
  | [] => None
  | (k, v) :: l' => if String.eqb k c then Some v else assoc c l'
  end.

(** [lyr[c].dtype] *)
Definition column_dtype (c : string) (lyr : layer G) : option dtype :=
  assoc c (columns lyr).

(** pandas' [isna] on a cell *)
Definition is_null (c : cell G) : bool :=
  match c with
  | CNaN | CNone => true
  | _ => false
  end.

(** A new label goes last, a known one keeps its place. *)
Definition set_dtype (c : string) (t : dtype) (cols : list (string * dtype))
  : list (string * dtype) :=
  if mem c (map fst cols)
  then map (fun p => if String.eqb (fst p) c then (c, t) else p) cols
  else cols ++ [(c, t)].

(** [lyr[c] = ...], the new value of each record given by [f] *)
Definition setitem (c : string) (t : dtype) (f : row G -> cell G)
    (lyr : layer G) : layer G :=
  {| columns := set_dtype c t (columns lyr);
     rows := map (fun r => <[c := f r]> r) (rows lyr) |}.

(** [lyr[c] = "text"] *)
Definition setitem_scalar (c : string) (s : string) (lyr : layer G)
  : layer G :=
  setitem c DObject (fun _ => CStr s) lyr.

(** [lyr[c] = lyr[src]] *)
Definition setitem_column (c src : string) (lyr : layer G)
  : result (layer G) :=
  t ← of_option KeyError (column_dtype src lyr);
  Ok (setitem c t (fun r => get r src) lyr).

Fixpoint traverse {A B : Type} (f : A -> result B) (l : list A)
  : result (list B) :=
  match l with
  | [] => Ok []
  | a :: l' => b ← f a; bs ← traverse f l'; Ok (b :: bs)
  end.

(** Rounding towards zero *)
Definition truncate (q : Q) : Z := Z.quot (Qnum q) (Zpos (Qden q)).

Definition in_int64 (z : Z) : bool :=
  ((- 2 ^ 63 <=? z) && (z <? 2 ^ 63))%Z.

(** One value of a numeric column under [.astype(int)]. Non-finite
    values are refused; a float beyond the 64-bit range is cast to
    whatever the platform yields, [overflow]. *)
Definition to_int64 (overflow : Q -> Z) (c : cell G) : result Z :=
  match c with
  | CNum q => Ok (if in_int64 (truncate q) then truncate q else overflow q)
  | CNaN | CNone => Raise ValueError
  | CStr _ | CGeom _ => Raise TypeError
  end.

(** [lyr[c] = lyr[src].astype(int).astype(str)]: the whole column is
    cast before anything is assigned. *)
Definition setitem_int_str (overflow : Q -> Z) (c src : string)
    (lyr : layer G) : result (layer G) :=
  _ ← of_option KeyError (column_dtype src lyr);
  new_rows ←
    traverse
      (fun r => z ← to_int64 overflow (get r src);
                Ok (<[c := CStr (str_of_Z z)]> r))
      (rows lyr);
  Ok {| columns := set_dtype c DObject (columns lyr); rows := new_rows |}.

(** [drop_fields] *)
Definition dropped (keep_fields : list string) (f : string) : bool :=
  negb (mem f keep_fields) && negb (String.eqb (str_lower f) "geometry").

Definition drop_fields (df : layer G) (keep_fields : list string)
  : layer G :=
  {| columns :=
       List.filter (fun p => negb (dropped keep_fields (fst p))) (columns df);
     rows :=
       map (filter (fun kv => dropped keep_fields (fst kv) = false))
         (rows df) |}.

(** Equality of two group keys under [groupby] *)
Definition cell_eqb (a b : cell G) : bool :=
  match a, b with
  | CStr s, CStr t => String.eqb s t
  | CNum p, CNum q => Qeq_bool p q
  | CGeom g, CGeom h => bool_decide (g = h)
  | _, _ => false
  end.

Definition key_of (c : cell G) : sort_key :=
  match c with
  | CStr s => KStr s
  | CNum q => KNum q
  | CNaN | CNone => KNull
  | CGeom _ => KOther
  end.

End Frames.

(** The order of sort keys: numbers by value, text by code point, nulls
    last. Keys of different kinds are never compared by a sort that
    returns (see [comparable]); they are ranked to make the order total. *)
Definition key_leb (a b : sort_key) : bool :=
  match a, b with
  | _, KNull => true
  | KNull, _ => false
  | KNum p, KNum q => Qle_bool p q
  | KNum _, _ => true
  | KStr _, KNum _ => false
  | KStr s, KStr t => String.leb s t
  | KStr _, KOther => true
  | KOther, KOther => true
  | KOther, _ => false
  end.

Definition key_le (a b : sort_key) : Prop := key_leb a b = true.

Definition is_knum (k : sort_key) : bool :=
  match k with KNum _ => true | _ => false end.
Definition is_kstr (k : sort_key) : bool :=
  match k with KStr _ => true | _ => false end.
Definition is_knull (k : sort_key) : bool :=
  match k with KNull => true | _ => false end.

(** Python orders numbers with numbers and text with text; any other
    comparison raises TypeError, and a sort of two or more non-null keys
    makes at least one comparison across any split of them. *)
Definition comparable (keys : list sort_key) : bool :=
  let ks := List.filter (fun k => negb (is_knull k)) keys in
  (length ks <=? 1)%nat || forallb is_knum ks || forallb is_kstr ks.

(** ** What the libraries supply

    shapely, geopandas and topojson work on geometry, which stays
    abstract; numpy's cast of an out-of-range float is platform
    dependent. The operations on single geometries are those of valid
    input, on which GEOS returns: what a union or a difference does
    with an invalid geometry, where it may raise, is not described,
    and no property below says that a dissolve returns. *)
Class Libraries (G : Type) : Type := {
  geom_eq_dec :: EqDecision G;
  unary_union : list G -> G;            (* GeoSeries.unary_union *)
  geom_difference : G -> list G -> G;   (* overlay(how="difference") *)
  is_empty : G -> bool;
  is_valid : G -> bool;
  make_valid : G -> G;
  collection_parts : G -> option (list G); (* [.geoms] of a GeometryCollection *)
  is_polygonal : G -> bool;             (* Polygon or MultiPolygon *)
  multipolygon : list G -> G;
  representative_point : G -> G;
  topology : layer G -> result (layer G);   (* Topology(lyr) *)
  (* topo.toposimplify(epsilon, "dp", prevent_oversimplify).to_gdf() *)
  toposimplify : float -> layer G -> result (layer G);
  clip : layer G -> layer G -> result (layer G);
  float_cast_overflow : Q -> Z
}.

(** [shapefile_attribute_mappings] of the project configuration *)
Record headers : Type := {
  pcode_patterns : list string;         (* headers["pcode"] *)
  name_patterns : list string           (* headers["name"] *)
}.

Record config : Type := {
  dataset_exceptions : gmap string string;
  resource_exceptions : gmap string string;
  shapefile_attribute_mappings : headers
}.

(** One entry of [Country.countriesdata()["countries"]] *)
Record country : Type := {
  iso3 : string;                        (* "#country+code+v_iso3" *)
  name_preferred : string               (* "#country+name+preferred" *)
}.

(** The catalogue and the file system *)
Record world (G : Type) : Type := {
  read_from_hdx : string -> option (list resource);
  read_file : string -> result (layer G)
}.
Arguments read_from_hdx {G} w name.
Arguments read_file {G} w path.

Fixpoint foldM {A S : Type} (f : A -> S -> result S) (l : list A) (s : S)
  : result S :=
  match l with
  | [] => Ok s
  | a :: l' => s' ← f a s; foldM f l' s'
  end.

Section Pipeline.
Context {G : Type} `{Libraries G} `{Patterns}.

(** *** Grouping, appending and sorting *)

Definition by_key (by_ : list string) (r : row G) : list (cell G) :=
  map (get r) by_.

Fixpoint tuple_eqb (a b : list (cell G)) : bool :=
  match a, b with
  | [], [] => true
  | x :: a', y :: b' => cell_eqb x y && tuple_eqb a' b'
  | _, _ => false
  end.

Fixpoint tuple_leb (a b : list (cell G)) : bool :=
  match a, b with
  | [], _ => true
  | _ :: _, [] => false
  | x :: a', y :: b' =>
      if cell_eqb x y then tuple_leb a' b'
      else key_leb (key_of x) (key_of y)
  end.

Definition tuple_le (a b : list (cell G)) : Prop := tuple_leb a b = true.

#[export] Instance tuple_le_dec : RelDecision tuple_le :=
  fun a b => decide (tuple_leb a b = true).

(** The distinct keys, each at its first occurrence *)
Fixpoint nub (l : list (list (cell G))) : list (list (cell G)) :=
  match l with
  | [] => []
  | k :: l' => k :: List.filter (fun k' => negb (tuple_eqb k k')) (nub l')
  end.

Definition geometry_of (r : row G) : option G :=
  match get r "geometry" with
  | CGeom g => Some g
  | _ => None
  end.

(** [GroupBy.first]: the first value that is not null *)
Definition first_value (c : string) (grp : list (row G)) : cell G :=
  match List.find (fun r => negb (is_null (get r c))) grp with
  | Some r => get r c
  | None => CNaN
  end.

(** [lyr.dissolve(by=by, as_index=False)], and [lyr.dissolve()] for an
    empty [by]: records with a null key are left out, the groups come in
    key order, and the columns are the keys, the geometry, then the
    rest. *)
Definition dissolve (by_ : list string) (lyr : layer G) : result (layer G) :=
  if negb (has_column "geometry" lyr) then Raise OtherError
  else if negb (forallb (fun c => has_column c lyr) by_) then Raise KeyError
  else
    let kept :=
      List.filter
        (fun r => forallb (fun c => negb (is_null c)) (by_key by_ r))
        (rows lyr) in
    let keys :=
      merge_sort tuple_le (nub (map (by_key by_) kept)) in
    let others :=
      List.filter
        (fun p => negb (mem (fst p) by_) && negb (String.eqb (fst p) "geometry"))
        (columns lyr) in
    let by_columns :=
      map (fun c => (c, default DObject (column_dtype c lyr))) by_ in
    Ok {| columns := by_columns ++ ("geometry", DGeometry) :: others;
          rows :=
            map
              (fun k =>
                 let grp :=
                   List.filter (fun r => tuple_eqb (by_key by_ r) k) kept in
                 <["geometry" := CGeom (unary_union (omap geometry_of grp))]>
                   ((list_to_map (zip by_ k) : row G) ∪
                    list_to_map
                      (map (fun p => (fst p, first_value (fst p) grp)) others)))
              keys |}.

(** [lyr[lyr[c] != s]] and [lyr.loc[lyr[c] == s]] *)
Definition is_text (s : string) (c : cell G) : bool :=
  match c with
  | CStr t => String.eqb t s
  | _ => false
  end.

Definition select_ne (c s : string) (lyr : layer G) : result (layer G) :=
  _ ← of_option KeyError (column_dtype c lyr);
  Ok {| columns := columns lyr;
        rows := List.filter (fun r => negb (is_text s (get r c))) (rows lyr) |}.

Definition select_eq (c s : string) (lyr : layer G) : result (layer G) :=
  _ ← of_option KeyError (column_dtype c lyr);
  Ok {| columns := columns lyr;
        rows := List.filter (fun r => is_text s (get r c)) (rows lyr) |}.

(** The dtype [concat] gives a column from its dtype on each side
    ([None]: the side lacks the column and contributes NaN). *)
Definition numeric_or_missing (t : option dtype) : bool :=
  match t with
  | Some DInt64 | Some DFloat64 | None => true
  | Some DObject | Some DGeometry => false
  end.

Definition promote (ta tb : option dtype) : dtype :=
  match ta, tb with
  | Some DInt64, Some DInt64 => DInt64
  | Some DGeometry, Some DGeometry => DGeometry
  | Some DGeometry, None => DGeometry
  | None, Some DGeometry => DGeometry
  | _, _ =>
      if numeric_or_missing ta && numeric_or_missing tb then DFloat64
      else DObject
  end.

Definition append_columns (a b : list (string * dtype))
  : list (string * dtype) :=
  map (fun p => (fst p, promote (Some (snd p)) (assoc (fst p) b))) a ++
  map (fun p => (fst p, promote None (Some (snd p))))
    (List.filter (fun p => negb (mem (fst p) (map fst a))) b).

(** [float(z)] for an integer: below 2^53 in magnitude it is kept, and
    from there on its 53 leading bits are, the rest rounded to the
    nearest, a tie to the even side. *)
Definition nearest_binary64 (z : Z) : Z :=
  let a := Z.abs z in
  if (a <? 2 ^ 53)%Z then z
  else
    let k := (Z.log2 a - 52)%Z in
    let m := Z.shiftr a k in
    let r := (a - Z.shiftl m k)%Z in
    let half := (2 ^ (k - 1))%Z in
    let m :=
      if (half <? r)%Z || (r =? half)%Z && Z.odd m then (m + 1)%Z else m in
    (Z.sgn z * Z.shiftl m k)%Z.

(** The value of an int64 column once the column is float64; a cell
    that holds no integer is none of an int64 column and is kept. *)
Definition float_of_int (c : cell G) : cell G :=
  match c with
  | CNum q =>
      let z := truncate q in
      if Qeq_bool q (inject_Z z) && (2 ^ 53 <? Z.abs z)%Z
      then CNum (inject_Z (nearest_binary64 z))
      else c
  | _ => c
  end.

(** Whether the column [c], int64 in a frame with the columns [own],
    is float64 among the columns [result] of the appended frame *)
Definition promoted (own result : list (string * dtype)) (c : string)
  : bool :=
  match assoc c own, assoc c result with
  | Some DInt64, Some DFloat64 => true
  | _, _ => false
  end.

(** A record of a frame with the columns [own] as the appended frame
    holds it: the values of a promoted column are cast. *)
Definition cast_row (own result : list (string * dtype)) (r : row G)
  : row G :=
  map_imap
    (fun c v => Some (if promoted own result c then float_of_int v else v))
    r.

(** [a.append(b)]: the records of [a], then those of [b], each with
    its values in the dtypes of the columns of the outcome *)
Definition append (a b : layer G) : layer G :=
  let result := append_columns (columns a) (columns b) in
  {| columns := result;
     rows := map (cast_row (columns a) result) (rows a) ++
             map (cast_row (columns b) result) (rows b) |}.

#[export] Instance key_le_dec : RelDecision key_le :=
  fun a b => decide (key_leb a b = true).

Definition pcode_le (by_ : string) (a b : row G) : Prop :=
  key_le (key_of (get a by_)) (key_of (get b by_)).

#[export] Instance pcode_le_dec (by_ : string) : RelDecision (pcode_le by_) :=
  fun a b => decide (key_leb (key_of (get a by_)) (key_of (get b by_)) = true).

(** [lyr.sort_values(by=[by])]. Only that the outcome is an ordered
    rearrangement is relied upon: pandas' default sort is not stable. *)
Definition sort_values (by_ : string) (lyr : layer G) : result (layer G) :=
  _ ← of_option KeyError (column_dtype by_ lyr);
  if comparable (map (fun r => key_of (get r by_)) (rows lyr))
  then Ok {| columns := columns lyr;
             rows := merge_sort (pcode_le by_) (rows lyr) |}
  else Raise TypeError.

(** *** Field Harmonizer *)

(** [[field.replace("#", str(l)) for field in patterns]] *)
Definition substitute (l : nat) (patterns : list string) : list string :=
  map (replace_char "#"%char (str_of_nat l)) patterns.

(** [f"ADM{l}{suffix}"] *)
Definition adm (l : nat) (suffix : string) : string :=
  ("ADM" ++ str_of_nat l ++ suffix)%string.

(** The truth value of a field variable: [None] and [""] are false. *)
Definition truthy (o : option string) : bool :=
  match o with
  | Some s => negb (String.eqb s "")
  | None => false
  end.

(** Lines 140-150 for one of the two variables: the exact label when
    the layer has it, else the first label whose upper case is among
    the configured variants. *)
Definition find_field (exact : string) (possible : list string)
    (fields : list string) : option string :=
  fold_left
    (fun found field =>
       if negb (truthy found) && mem (str_upper field) possible
       then Some field else found)
    fields
    (if mem exact fields then Some exact else None).

Definition pcode_field (h : headers) (fields : list string) (l : nat)
  : option string :=
  find_field (adm l "_PCODE") (substitute l (pcode_patterns h)) fields.

Definition name_field (h : headers) (fields : list string) (l : nat)
  : option string :=
  find_field (adm l "_EN") (substitute l (name_patterns h)) fields.

(** The body of the loop over depths, lines 138-168 *)
Definition harmonize_level (h : headers) (fields : list string) (l : nat)
    (boundary_lyr : layer G) : result (layer G) :=
  let pcode := pcode_field h fields l in
  let name := name_field h fields l in
  boundary_lyr ←
    (if truthy name
     then setitem_column (adm l "_REF") (default "" name) boundary_lyr
     else Ok (setitem_scalar (adm l "_REF") "" boundary_lyr));
  if truthy pcode then
    let src := default "" pcode in
    t ← of_option KeyError (column_dtype src boundary_lyr);
    if is_numeric_dtype t
    then setitem_int_str float_cast_overflow (adm l "_PCODE") src boundary_lyr
    else setitem_column (adm l "_PCODE") src boundary_lyr
  else Ok (setitem_scalar (adm l "_PCODE") "" boundary_lyr).

(** [Boundaries.calculate_fields] *)
Definition calculate_fields (h : headers) (boundary_lyr : layer G)
    (iso country_name : string) (req_fields : list string) (level : string)
  : result (layer G) :=
  let boundary_lyr := setitem_scalar "alpha_3" (str_upper iso) boundary_lyr in
  let boundary_lyr := setitem_scalar "ADM0_REF" country_name boundary_lyr in
  let fields := column_names boundary_lyr in
  d ← level_depth level;
  boundary_lyr ← foldM (harmonize_level h fields) (seq 1 d) boundary_lyr;
  dissolve req_fields (drop_fields boundary_lyr req_fields).

(** *** Geometry Harmonizer *)

#[local] Set Warnings "-inexact-float".
Definition eps0 : float := 0.0075%float.
#[local] Set Warnings "inexact-float".

(** Lines 177-179 *)
Definition tolerance (depth : nat) : float :=
  if (0 <? depth)%nat
  then (eps0 / PrimFloat.of_uint63 (Uint63.of_Z (Z.of_nat depth)))%float
  else eps0.

(** Lines 189-202 for one record *)
Definition repair (g : G) : G :=
  let g := if is_valid g then g else make_valid g in
  match collection_parts g with
  | Some parts =>
      match List.filter is_polygonal parts with
      | [part] => part
      | new_geom => multipolygon new_geom
      end
  | None => g
  end.

Definition map_geometry (f : G -> G) (lyr : layer G) : layer G :=
  {| columns := columns lyr;
     rows :=
       map (fun r => match geometry_of r with
                     | Some g => <["geometry" := CGeom (f g)]> r
                     | None => r
                     end) (rows lyr) |}.

(** [Boundaries.update_geometry] *)
Definition update_geometry (boundary_lyr country_adm0 : layer G)
    (iso level : string) : result (layer G) :=
  boundary_topo ← topology boundary_lyr;
  d ← level_depth level;
  boundary_lyr ← toposimplify (tolerance d) boundary_topo;
  clip (map_geometry repair boundary_lyr) country_adm0.

(** *** National Boundary Builder *)

(** [lyr.overlay(water, how="difference")]: what is left of each record,
    the records with nothing left dropped *)
Definition overlay_difference (lyr water : layer G) : layer G :=
  let cut := omap geometry_of (rows water) in
  {| columns := columns lyr;
     rows :=
       omap (fun r => match geometry_of r with
                      | Some g =>
                          let g' := geom_difference g cut in
                          if is_empty g' then None
                          else Some (<["geometry" := CGeom g']> r)
                      | None => None
                      end) (rows lyr) |}.

(** [Boundaries.create_national_boundary]; [self.boundaries] is
    [boundaries]. *)
Definition create_national_boundary (boundaries : gmap string (layer G))
    (iso : string) : result (layer G) :=
  country_adm0 ← of_option KeyError (boundaries !! "adm0_polygon");
  country_adm0 ← select_eq "ISO_3" iso country_adm0;
  water ← of_option KeyError (boundaries !! "water");
  let country_adm0 := overlay_difference country_adm0 water in
  country_adm0 ← dissolve [] country_adm0;
  let country_adm0 := drop_fields country_adm0 ["ISO_3"] in
  let country_adm0 := setitem_scalar "ISO_3" iso country_adm0 in
  match rows country_adm0 with
  | [] => Raise KeyError              (* country_adm0["geometry"][0] *)
  | r :: rest =>
      g ← of_option OtherError (geometry_of r);
      if is_valid g then Ok country_adm0
      else Ok {| columns := columns country_adm0;
                 rows := <["geometry" := CGeom (make_valid g)]> r :: rest |}
  end.

(** *** Global Merger *)

(** [f"{level}_{geom_type}"] *)
Definition partition_key (level geom_type : string) : string :=
  (level ++ "_" ++ geom_type)%string.

(** [f"ADM{level[-1]}_PCODE"], [n] being [level[-1]] *)
Definition pcode_column (n : ascii) : string :=
  ("ADM" ++ String n "_PCODE")%string.

(** [f"ADM{level[-1]}_REF"] *)
Definition ref_column (n : ascii) : string :=
  ("ADM" ++ String n "_REF")%string.

(** [Boundaries.replace_country_boundaries]; [self.boundaries] is
    [store]. *)
Definition replace_country_boundaries (store : gmap string (layer G))
    (boundaries : layer G) (iso level geom_type : string)
  : result (gmap string (layer G)) :=
  let key := partition_key level geom_type in
  partition ← of_option KeyError (store !! key);
  global_bounds ← select_ne "alpha_3" iso partition;
  let global_bounds := append global_bounds boundaries in
  n ← of_option IndexError (last_char level);
  global_bounds ← sort_values (pcode_column n) global_bounds;
  Ok (<[key := global_bounds]> store).

(** *** Orchestrator *)

(** Lines 236-239 *)
Definition required_fields (depth : nat) : list string :=
  ["alpha_3"; "ADM0_REF"] ++
  flat_map (fun i => [adm i "_PCODE"; adm i "_REF"]) (seq 1 depth).

(** Lines 282-285: the companion point layer *)
Definition point_layer (req_fields : list string) (boundary_lyr : layer G)
  : result (layer G) :=
  cols ← traverse
            (fun c => t ← of_option KeyError (column_dtype c boundary_lyr);
                      Ok (c, t)) req_fields;
  Ok {| columns := ("geometry", DGeometry) :: cols;
        rows :=
          map (fun r =>
                 let attrs : row G :=
                   list_to_map (map (fun c => (c, get r c)) req_fields) in
                 match geometry_of r with
                 | Some g => <["geometry" := CGeom (representative_point g)]> attrs
                 | None => attrs
                 end) (rows boundary_lyr) |}.

(** The body of the loop over levels, lines 236-291. [Ok store]
    unchanged is a [continue]. *)
Definition process_level (w : world G) (cfg : config) (c : country)
    (dataset : list resource) (country_adm0 : layer G) (level : string)
    (store : gmap string (layer G)) : result (gmap string (layer G)) :=
  let iso := iso3 c in
  d ← level_depth level;
  let req_fields := required_fields d in
  boundary_resource ← find_resource (resource_exceptions cfg) iso dataset level;
  match boundary_resource with
  | [] => Ok store
  | [r] =>
      found ← find_shapefile iso r level;
      match returned found with
      | None => Ok store
      | Some boundary_shp =>
          if String.eqb boundary_shp "" then Ok store
          else
            boundary_lyr ← read_file w boundary_shp;
            boundary_lyr ←
              calculate_fields (shapefile_attribute_mappings cfg) boundary_lyr
                iso (name_preferred c) req_fields level;
            (* lines 271-276: the two columns are looked up to count
               their nulls, which are only logged *)
            n ← of_option IndexError (last_char level);
            _ ← of_option KeyError (column_dtype (ref_column n) boundary_lyr);
            _ ← of_option KeyError
                  (column_dtype (pcode_column n) boundary_lyr);
            boundary_lyr ← update_geometry boundary_lyr country_adm0 iso level;
            points ← point_layer req_fields boundary_lyr;
            store ← replace_country_boundaries store boundary_lyr iso level
                      "polygon";
            replace_country_boundaries store points iso level "point"
      end
  | _ => Ok store
  end.

(** [Boundaries.update_subnational_boundaries] *)
Definition update_subnational_boundaries (w : world G) (cfg : config)
    (store : gmap string (layer G)) (c : country) (levels : list string)
    (do_not_process : list string) : result (gmap string (layer G)) :=
  let iso := iso3 c in
  if mem iso do_not_process then Ok store
  else
    let dataset_name :=
      default ("cod-em-" ++ str_lower iso)%string (dataset_exceptions cfg !! iso) in
    let dataset :=
      match read_from_hdx w dataset_name with
      | Some dataset => Some dataset
      | None => read_from_hdx w ("cod-ab-" ++ str_lower iso)%string
      end in
    match dataset with
    | None => Ok store
    | Some dataset =>
        country_adm0 ← create_national_boundary store iso;
        foldM (process_level w cfg c dataset country_adm0) levels store
    end.

(** The loop over countries of [main] in run.py, lines 57-62; an
    overridden code that [countries.get] does not know gives [None]. *)
Definition update_all (w : world G) (cfg : config)
    (store : gmap string (layer G)) (countries : list (option country))
    (levels : list string) (do_not_process : list string)
  : result (gmap string (layer G)) :=
  foldM
    (fun entry store =>
       match entry with
       | Some c => update_subnational_boundaries w cfg store c levels
                     do_not_process
       | None => Raise TypeError
       end)
    countries store.

End Pipeline.

(** ** The matching rules in words

    What the patterns are meant to say, written without patterns: a name
    contains a token, refers to a level, follows the naming convention.
    Letter case is ignored throughout. *)
Module Words.

Fixpoint starts_with_ci (tok s : list ascii) : bool :=
  match tok, s with
  | [], _ => true
  | _ :: _, [] => false
  | c :: tok', a :: s' => eq_ci c a && starts_with_ci tok' s'
  end.

Fixpoint contains_ci (tok s : list ascii) : bool :=
  starts_with_ci tok s ||
  match s with
  | [] => false
  | _ :: s' => contains_ci tok s'
  end.

(** [tok] occurs and [rest] holds of what comes after the occurrence. *)
Fixpoint contains_then (tok : list ascii) (rest : list ascii -> bool)
    (s : list ascii) : bool :=
  (starts_with_ci tok s && rest (skipn (length tok) s)) ||
  match s with
  | [] => false
  | _ :: s' => contains_then tok rest s'
  end.

Definition name_contains (tok name : string) : bool :=
  contains_ci (chars tok) (chars name).

Definition one_line (w : list ascii) : bool :=
  forallb (fun c => negb (Ascii.eqb c newline)) w.

Definition single_line (s : string) : bool := one_line (chars s).

(** The ways to write a level: "adm" or "admin", one white-space
    character or none (resource names only), a zero or none, the
    numeral. *)
Definition level_spellings (sep : bool) (n : ascii) : list (list ascii) :=
  flat_map
    (fun a =>
       flat_map
         (fun s => map (fun z => a ++ s ++ z ++ [n]) [["0"%char]; []])
         (if sep then map (fun c => [c]) whitespace ++ [[]] else [[]]))
    [chars "admin"; chars "adm"].


(** "admbnda", and further on a level written without separator *)
Definition follows_convention (n : ascii) (path : string) : bool :=
  contains_then (chars "admbnda")
    (fun s => existsb (fun v => contains_ci v s) (level_spellings false n))
    (chars path).

(** The candidates the first tie-break of the selector leaves, and
    those the second leaves *)
Definition named_for_level (n : ascii) (paths : list string) : list string :=
  match List.filter (follows_convention n) paths with
  | [] => paths
  | named => named
  end.

Definition full_resolution (paths : list string) : list string :=
  List.filter (fun b => negb (name_contains "simplified" b)) paths.

(** [r] matches exactly the spellings [vs], letter case aside. *)
Definition spells (r : regex) (vs : list (list ascii)) : Prop :=
  forall R w,
    match_prefix (Cat r R) w =
    existsb
      (fun v => starts_with_ci v w && match_prefix R (skipn (length v) w)) vs.

End Words.
Import Words.

(** ** The merge in words *)

Section MergeWords.
Context {G : Type} `{Libraries G}.

(** The record carries the country code [iso]. *)
Definition of_country (iso : string) (r : row G) : bool :=
  is_text iso (get r "alpha_3").

(** Text or null: what a canonical pcode column holds *)
Definition text_or_null (c : cell G) : Prop :=
  match c with
  | CStr _ | CNaN | CNone => True
  | CNum _ | CGeom _ => False
  end.

(** A record of the partition, and one of the layer merged into it, as
    the partition holds them after the merge: an int64 column that the
    other side lacks or has as float64 is float64 from then on. *)
Definition kept (part lyr : layer G) (r : row G) : row G :=
  cast_row (columns part) (append_columns (columns part) (columns lyr)) r.

Definition appended (part lyr : layer G) (r : row G) : row G :=
  cast_row (columns lyr) (append_columns (columns part) (columns lyr)) r.

(** The partition after the records of [iso] are replaced by [lyr] *)
Definition merged (part lyr : layer G) (iso : string) (n : ascii) : layer G :=
  {| columns := append_columns (columns part) (columns lyr);
     rows :=
       merge_sort (pcode_le (pcode_column n))
         (map (kept part lyr)
            (List.filter (fun r => negb (of_country iso r)) (rows part)) ++
          map (appended part lyr) (rows lyr)) |}.

(** No int64 column of [a] is promoted by an append with [b]: [b] has
    each of them, as int64. *)
Definition integers_stay (a b : layer G) : Prop :=
  forall c, column_dtype c a = Some DInt64 -> column_dtype c b = Some DInt64.

(** The country codes of the records, in order, and whether each code
    fills one run of adjacent records. *)
Definition codes (lyr : layer G) : list (cell G) :=
  map (fun r => get r "alpha_3") (rows lyr).




End MergeWords.


(** ** The harmonised fields in words *)

Section FieldWords.
Context {G : Type} `{Libraries G}.

(** The label lower-cases to "geometry": [drop_fields] never drops it. *)
Definition geometry_like (c : string) : bool :=
  String.eqb (str_lower c) "geometry".

(** The columns of a layer but its geometry *)
Definition attribute_names (lyr : layer G) : list string :=
  List.filter (fun c => negb (String.eqb c "geometry")) (column_names lyr).

Definition add_name (c : string) (names : list string) : list string :=
  if mem c names then names else names ++ [c].

(** [fields] of [calculate_fields]: the labels once [alpha_3] and
    [ADM0_REF] are set *)
Definition source_fields (lyr : layer G) : list string :=
  add_name "ADM0_REF" (add_name "alpha_3" (column_names lyr)).

(** A field variable as the tests [if not field] read it *)
Definition if_truthy (found : option string) : option string :=
  if truthy found then found else None.

(** The column the pcode of depth [l] is read from, if one is found *)
Definition pcode_source (h : headers) (lyr : layer G) (l : nat)
  : option string :=
  if_truthy (pcode_field h (source_fields lyr) l).

(** The value [v] of [ADM{l}_PCODE] is what the claim says it is for the
    source record [r]. *)
Definition stringified (r : row G) (src : string) (t : dtype) (v : cell G)
  : Prop :=
  if is_numeric_dtype t then
    exists q, get r src = CNum q /\
              (in_int64 (truncate q) = true ->
               v = CStr (str_of_Z (truncate q)))
  else v = get r src.

(** The same in the words of the specification. [z] is [q] with its
    fractional part dropped: the whole number next to [q] on the side
    of zero. *)
Definition rounds_toward_zero (q : Q) (z : Z) : Prop :=
  (0 <= q -> inject_Z z <= q /\ q < inject_Z (z + 1))%Q /\
  (q <= 0 -> inject_Z (z - 1) < q /\ q <= inject_Z z)%Q.

Definition within_int64 (z : Z) : Prop := (- 2 ^ 63 <= z < 2 ^ 63)%Z.

(** [s] is the decimal numeral of [z]: it reads as a signed numeral in
    normal form (no leading zero, no sign on zero) whose value is [z]. *)
Definition decimal (z : Z) (s : string) : Prop :=
  exists d, NilZero.int_of_string s = Some d /\
            Decimal.norm d = d /\ Z.of_int d = z.

(** The value [v] is the integer-truncated decimal string of the source
    value of a numeric column, as long as the truncated value is a
    64-bit integer, and the source value itself otherwise. *)
Definition truncated_text (r : row G) (src : string) (t : dtype) (v : cell G)
  : Prop :=
  if is_numeric_dtype t then
    exists q z, get r src = CNum q /\ rounds_toward_zero q z /\
                (within_int64 z -> exists s, v = CStr s /\ decimal z s)
  else v = get r src.

(** What one assignment [lyr[c] = ...] does: to the labels, to the
    other columns, and to each record, the new value satisfying [V] *)
Definition assigns (c : string) (V : row G -> cell G -> Prop)
    (lyr lyr' : layer G) : Prop :=
  column_names lyr' = add_name c (column_names lyr) /\
  (forall c', c <> c' -> column_dtype c' lyr' = column_dtype c' lyr) /\
  Forall2 (fun r r' => (forall c', c <> c' -> get r' c' = get r c') /\
                       V r (get r' c))
    (rows lyr) (rows lyr').

(** What the pass for one depth leaves in its pcode field, for the
    column [found] at that depth *)
Definition pcode_set (found : option string) (lyr : layer G)
    (r : row G) (v : cell G) : Prop :=
  match found with
  | None => v = CStr ""
  | Some src => exists t, column_dtype src lyr = Some t /\ stringified r src t v
  end.

(** The fields written by the passes for depths [a], ..., [a + k - 1] *)
Definition level_fields (a k : nat) : list string :=
  flat_map (fun i => [adm i "_PCODE"; adm i "_REF"]) (seq a k).

End FieldWords.

(** The column the name of depth [l] is read from, if one is found *)
Definition name_source {G : Type} (h : headers) (lyr : layer G) (l : nat)
  : option string :=
  if_truthy (name_field h (source_fields lyr) l).


(** Of a run over [levels]: nothing but the partitions of the levels
    changes, and no partition appears or disappears. *)
Definition same_partitions {G : Type} (levels : list string)
    (store store' : gmap string (layer G)) : Prop :=
  (forall k, is_Some (store' !! k) <-> is_Some (store !! k)) /\
  (forall k,
      (forall level, In level levels ->
         k <> partition_key level "polygon" /\
         k <> partition_key level "point") ->
      store' !! k = store !! k).

(** ** Loading the global set, and publishing it *)

(** *** Patterns matched letter for letter

    [polbnd[ap]_adm\d] and [adm\d] are matched without IGNORECASE. Both
    are sequences of character classes. *)
Module Exact.

Definition literal (s : string) : list (ascii -> bool) :=
  map Ascii.eqb (chars s).

Definition one_of (s : string) : ascii -> bool :=
  fun a => existsb (Ascii.eqb a) (chars s).

(** The text matched at the start of [w], if the pattern matches there *)
Fixpoint match_at (p : list (ascii -> bool)) (w : list ascii)
  : option (list ascii) :=
  match p with
  | [] => Some []
  | c :: p' =>
      match w with
      | a :: w' => if c a then option_map (cons a) (match_at p' w') else None
      | [] => None
      end
  end.

(** [re.search(p, w).group()]: the leftmost match *)
Fixpoint search (p : list (ascii -> bool)) (w : list ascii)
  : option (list ascii) :=
  match match_at p w with
  | Some m => Some m
  | None =>
      match w with
      | [] => None
      | _ :: w' => search p w'
      end
  end.

(** [polbnd[ap]_adm\d] *)
Definition level_resource_pattern : list (ascii -> bool) :=
  literal "polbnd" ++ [one_of "ap"] ++ literal "_adm" ++ [is_digit].

(** [adm\d] *)
Definition level_pattern : list (ascii -> bool) :=
  literal "adm" ++ [is_digit].

End Exact.

(** What the run reads of the project configuration *)
Record run_configuration : Type := {
  project : config;
  un_dataset : string;                    (* ["UN_boundaries"]["dataset"] *)
  un_resources : list (string * string);  (* ["UN_boundaries"]["resources"] *)
  default_levels : list string;           (* ["levels"] *)
  not_processed : list string             (* .get("do_not_process", []) *)
}.

(** The calls that reach out of the process *)
Record remote (G : Type) : Type := {
  (* [resource.download(folder)[1]], or DownloadError *)
  download : resource -> result string;
  (* [lyr.to_file(path, driver="GeoJSON")] *)
  to_file : layer G -> string -> result unit;
  (* [set_file_to_upload] and [update_in_hdx] of the resource named;
     [false] is an HDXError, which is caught and logged *)
  update_in_hdx : string -> string -> bool
}.
Arguments download {G} r res.
Arguments to_file {G} r lyr path.
Arguments update_in_hdx {G} r name path.

(** The operands of [==] at lines 304 and 306 *)
Inductive py_value : Type :=
| PyStr (s : string)
| PyList (l : list string).

Definition py_eq (a b : py_value) : bool :=
  match a, b with
  | PyStr s, PyStr t => String.eqb s t
  | PyList l, PyList m => bool_decide (l = m)
  | _, _ => false
  end.

(** [os.path.join(a, b)] *)
Definition path_join (a b : string) : string :=
  match chars b with
  | "/"%char :: _ => b
  | _ =>
      if String.eqb a "" then b
      else match last_char a with
           | Some "/"%char => (a ++ b)%string
           | _ => (a ++ "/" ++ b)%string
           end
  end.

(** [[key for key in boundary_names if boundary_names[key] == value]] *)
Definition names_of (boundary_names : list (string * string))
    (value : string) : list string :=
  map fst (List.filter (fun p => String.eqb (snd p) value) boundary_names).

(** A dict comprehension adds its keys one by one; a key met again
    keeps its place. *)
Fixpoint dict_set {A : Type} (k : string) (v : A) (d : list (string * A))
  : list (string * A) :=
  match d with
  | [] => [(k, v)]
  | (k', v') :: d' =>
      if String.eqb k' k then (k, v) :: d' else (k', v') :: dict_set k v d'
  end.

(** Lines 42-44 of run.py *)
Definition override_countries (countries : list (string * country))
    (countries_override : list string) : list (string * option country) :=
  fold_left
    (fun d c => dict_set (str_upper c) (assoc (str_upper c) countries) d)
    countries_override [].

Section Run.
Context {G : Type} `{Libraries G} `{Patterns}.

(** Line 50: whether the resource is one of a level that is not asked
    for *)
Definition other_level (name : string) (levels : list string)
  : result bool :=
  match Exact.match_at Exact.level_resource_pattern (chars name) with
  | Some _ =>
      found ← of_option OtherError
                (Exact.search Exact.level_pattern (chars name));
      Ok (negb (mem (string_of_list_ascii found) levels))
  | None => Ok false
  end.

(** [Boundaries.download_boundary_inputs]; the value is the new
    [self.boundaries]. *)
Definition download_boundary_inputs (w : world G) (rm : remote G)
    (un_boundary : string) (boundary_names : list (string * string))
    (levels : list string) : result (gmap string (layer G)) :=
  resources ← of_option OtherError (read_from_hdx w un_boundary);
  foldM
    (fun (r : resource) (all_boundaries : gmap string (layer G)) =>
       match assoc (res_name r) boundary_names with
       | None => Ok all_boundaries
       | Some key =>
           skip ← other_level (res_name r) levels;
           if (skip : bool) then Ok all_boundaries
           else
             resource_file ← download rm r;
             lyr ← read_file w resource_file;
             Ok (<[key := lyr]> all_boundaries)
       end)
    resources ∅.

(** Lines 304 and 306: [[r for r in dataset.get_resources()
    if r["name"] == name][0]], [name] being the list of line 297 or 298 *)
Definition the_resource (dataset : option (list resource))
    (name : list string) : result resource :=
  resources ← of_option OtherError dataset;
  of_option IndexError
    (head (List.filter
             (fun r => py_eq (PyStr (res_name r)) (PyList name))
             resources)).

(** The body of the loop of [update_subnational_resources]; [sent]
    lists the uploads done so far, each a resource name and a file. *)
Definition publish_level (rm : remote G) (temp_folder : string)
    (boundary_names : list (string * string))
    (store : gmap string (layer G)) (dataset : option (list resource))
    (level : string) (sent : list (string * string))
  : result (list (string * string)) :=
  let polygon_name := names_of boundary_names (partition_key level "polygon") in
  let point_name := names_of boundary_names (partition_key level "point") in
  first_name ← of_option IndexError (head polygon_name);
  let polygon_file := path_join temp_folder first_name in
  lyr ← of_option KeyError (store !! partition_key level "polygon");
  _ ← to_file rm lyr polygon_file;
  first_name ← of_option IndexError (head point_name);
  let point_file := path_join temp_folder first_name in
  lyr ← of_option KeyError (store !! partition_key level "point");
  _ ← to_file rm lyr point_file;
  resource_polygon ← the_resource dataset polygon_name;
  resource_point ← the_resource dataset point_name;
  let sent :=
    if update_in_hdx rm (res_name resource_polygon) polygon_file
    then sent ++ [(res_name resource_polygon, polygon_file)] else sent in
  let sent :=
    if update_in_hdx rm (res_name resource_point) point_file
    then sent ++ [(res_name resource_point, point_file)] else sent in
  Ok sent.

(** [Boundaries.update_subnational_resources] *)
Definition update_subnational_resources (w : world G) (rm : remote G)
    (temp_folder : string) (boundary_names : list (string * string))
    (store : gmap string (layer G)) (dataset_name : string)
    (levels : list string) : result (list (string * string)) :=
  foldM
    (publish_level rm temp_folder boundary_names store
       (read_from_hdx w dataset_name))
    levels [].

(** [main] of run.py; [countries] is
    [Country.countriesdata()["countries"]], and an option that is not
    given is an empty list. *)
Definition main (w : world G) (rm : remote G) (rc : run_configuration)
    (temp_folder : string) (countries : list (string * country))
    (countries_override levels : list string)
  : result (list (string * string)) :=
  let countries :=
    match countries_override with
    | [] => map (fun p => (fst p, Some (snd p))) countries
    | _ => override_countries countries countries_override
    end in
  let levels :=
    match levels with
    | [] => default_levels rc
    | _ => levels
    end in
  store ← download_boundary_inputs w rm (un_dataset rc) (un_resources rc)
            levels;
  store ← update_all w (project rc) store (map snd countries) levels
            (not_processed rc);
  update_subnational_resources w rm temp_folder (un_resources rc) store
    (un_dataset rc) levels.

End Run.

(** *** The options of the command line, lines 67-81 of run.py *)

(** [s.split(sep)] for a separator of one character *)
Fixpoint split_on (sep : ascii) (s : list ascii) : list (list ascii) :=
  match s with
  | [] => [[]]
  | c :: s' =>
      if Ascii.eqb c sep then [] :: split_on sep s'
      else match split_on sep s' with
           | piece :: pieces => (c :: piece) :: pieces
           | [] => [[c]]
           end
  end.

(** An option as [main] gets it: split at the commas when it is given
    and not empty; an empty list stands for the value left as it is,
    which [main] reads as false. *)
Definition arguments (given : option string) : list string :=
  match given with
  | Some s =>
      if String.eqb s "" then []
      else map string_of_list_ascii (split_on ","%char (chars s))
  | None => []
  end.

(** [sep.join(l)] *)
Fixpoint join_with (sep : string) (l : list string) : string :=
  match l with
  | [] => ""
  | piece :: pieces =>
      match pieces with
      | [] => piece
      | _ :: _ => (piece ++ sep ++ join_with sep pieces)%string
      end
  end.

(** The program from the command line on *)
Definition command_line {G : Type} `{Libraries G} `{Patterns} (w : world G)
    (rm : remote G) (rc : run_configuration) (temp_folder : string)
    (countries : list (string * country))
    (countries_override levels : option string)
  : result (list (string * string)) :=
  main w rm rc temp_folder countries (arguments countries_override)
    (arguments levels).

(** *** Loading and overriding in words *)

Fixpoint starts_with (tok s : list ascii) : bool :=
  match tok, s with
  | [], _ => true
  | _ :: _, [] => false
  | a :: tok', b :: s' => Ascii.eqb a b && starts_with tok' s'
  end.

(** The level that the name of a resource announces: the name starts
    with polbnda_adm or polbndp_adm, and a digit follows. *)
Definition announced_level (name : string) : option string :=
  if starts_with (chars "polbnda_adm") (chars name) ||
     starts_with (chars "polbndp_adm") (chars name)
  then match nth_error (chars name) 11 with
       | Some d =>
           if is_digit d
           then Some (String "a" (String "d" (String "m" (String d ""))))
           else None
       | None => None
       end
  else None.

(** The resource is of no level, or of one that is asked for. *)
Definition level_wanted (levels : list string) (name : string) : bool :=
  match announced_level name with
  | Some level => mem level levels
  | None => true
  end.

(** The labels of a list, each once, at its first place *)
Definition each_once (l : list string) : list string :=
  fold_left (fun names c => add_name c names) l [].

(** Case analysis on a list of alternatives *)
Ltac split_cases :=
  repeat match goal with
         | H : _ \/ _ |- _ => destruct H as [H|H]
         | H : False |- _ => destruct H
         end.

(** Case analysis on the characters of a name: the tests on known
    characters are evaluated, those on a character yet unknown are split. *)
Ltac closed_tests :=
  repeat match goal with
         | |- context [Ascii.eqb ?a ?b] =>
             tryif is_var a then fail
             else tryif is_var b then fail
             else (let v := eval vm_compute in (Ascii.eqb a b) in
                   change (Ascii.eqb a b) with v)
         end.

Ltac crunch := cbn -[Ascii.eqb is_digit]; closed_tests;
               cbn -[Ascii.eqb is_digit].

Ltac var_test :=
  match goal with
  | |- context [Ascii.eqb ?a ?b] =>
      first [ is_var b; destruct (Ascii.eqb_spec a b); [subst b|]
            | is_var a; destruct (Ascii.eqb_spec a b); [subst a|] ]
  end.

(** ** Sample data

    Concrete inputs on which the properties below are exercised.
    Geometries are tokens: a number names a shape, and a union or a
    multi-part shape is named by the sum of its parts. *)
Module Sample.

#[export] Instance tokens : Libraries nat := {|
  unary_union := fun parts => fold_right Nat.add 0%nat parts;
  geom_difference := fun g _ => g;
  is_empty := fun _ => false;
  is_valid := fun _ => true;
  make_valid := fun g => g;
  collection_parts := fun _ => None;
  is_polygonal := fun _ => true;
  multipolygon := fun parts => fold_right Nat.add 0%nat parts;
  representative_point := fun g => g;
  topology := fun lyr => Ok lyr;
  toposimplify := fun _ lyr => Ok lyr;
  clip := fun lyr _ => Ok lyr;
  float_cast_overflow := fun _ => (- 2 ^ 63)%Z
|}.

(** A pattern library that knows the simple tokens *)
#[export] Instance simple_tokens : Patterns.
Proof.
  refine {| token_matcher := fun token =>
              if simple token then Ok (re_match (token_pattern token))
              else Raise OtherError |}.
  intros token Hp. rewrite Hp. eexists. split; reflexivity.
Defined.

Definition shp (name : string) (p : payload) : resource :=
  {| res_name := name; res_file_type := Some "shp"; res_payload := p |}.

Definition three_files : list string :=
  ["/tmp/in/9f1c/eth_admbnda_adm2_csa_2021.shp";
   "/tmp/in/9f1c/simplified/eth_admbnda_adm2_csa_2021.shp";
   "/tmp/in/9f1c/eth_health_sites.shp"].

Definition record (l : list (string * cell nat)) : row nat := list_to_map l.

Definition unwrap {A : Type} (d : A) (r : result A) : A :=
  match r with
  | Ok a => a
  | Raise _ => d
  end.

Definition no_layer : layer nat := {| columns := []; rows := [] |}.

(** A configuration and two source layers: one as a shapefile usually
    comes, with a numeric pcode column, and one that also has a text
    column labelled GEOMETRY. *)
Definition mappings : headers :=
  {| pcode_patterns := ["ADM#_PCODE"; "ADM#_CODE"];
     name_patterns := ["ADM#_EN"; "ADM#_NAME"] |}.

Definition districts : layer nat :=
  {| columns := [("adm1_code", DFloat64); ("ADM1_EN", DObject);
                 ("Shape_Area", DFloat64); ("geometry", DGeometry)];
     rows :=
       [record [("adm1_code", CNum (12034 # 1)); ("ADM1_EN", CStr "North");
                ("Shape_Area", CNum (7 # 2)); ("geometry", CGeom 1%nat)];
        record [("adm1_code", CNum (24081 # 2)); ("ADM1_EN", CStr "South");
                ("Shape_Area", CNum (9 # 4)); ("geometry", CGeom 2%nat)]] |}.

Definition districts_with_wkt : layer nat :=
  {| columns := [("ADM1_PCODE", DObject); ("ADM1_EN", DObject);
                 ("GEOMETRY", DObject); ("geometry", DGeometry)];
     rows :=
       [record [("ADM1_PCODE", CStr "AB01"); ("ADM1_EN", CStr "North");
                ("GEOMETRY", CStr "POLYGON"); ("geometry", CGeom 1%nat)]] |}.

(** The first layer with a pcode missing: the column is read as floats
    with a NaN. *)
Definition districts_with_gap : layer nat :=
  {| columns := columns districts;
     rows := rows districts ++
             [record [("adm1_code", CNaN); ("ADM1_EN", CStr "Lakes");
                      ("Shape_Area", CNum (1 # 2)); ("geometry", CGeom 3%nat)]] |}.

(** The first layer with pcodes out of the usual: a negative one that is
    not whole, and one beyond the 64-bit integers. *)
Definition districts_below : layer nat :=
  {| columns := columns districts;
     rows := [record [("adm1_code", CNum (- 7 # 2)); ("ADM1_EN", CStr "Lakes");
                      ("Shape_Area", CNum (1 # 2)); ("geometry", CGeom 3%nat)]] |}.

Definition districts_beyond : layer nat :=
  {| columns := columns districts;
     rows := [record [("adm1_code", CNum (10 ^ 19 # 1));
                      ("ADM1_EN", CStr "Lakes");
                      ("Shape_Area", CNum (1 # 2)); ("geometry", CGeom 3%nat)]] |}.

Definition harmonised (lyr : layer nat) : result (layer nat) :=
  calculate_fields mappings lyr "abc" "Abcland" (required_fields 1) "adm1".

(** A partition of the global set with one record of BBB, and the two
    records of AAA to merge into it. *)
Definition canonical_columns : list (string * dtype) :=
  [("alpha_3", DObject); ("ADM0_REF", DObject); ("ADM1_PCODE", DObject);
   ("ADM1_REF", DObject); ("geometry", DGeometry)].

Definition canonical (iso name pcode ref : string) (g : nat) : row nat :=
  record [("alpha_3", CStr iso); ("ADM0_REF", CStr name);
          ("ADM1_PCODE", CStr pcode); ("ADM1_REF", CStr ref);
          ("geometry", CGeom g)].

Definition adm1_polygons : layer nat :=
  {| columns := canonical_columns;
     rows := [canonical "BBB" "Bland" "102" "Centre" 5%nat] |}.

Definition aaa_layer : layer nat :=
  {| columns := canonical_columns;
     rows := [canonical "AAA" "Aland" "103" "East" 6%nat;
              canonical "AAA" "Aland" "101" "West" 7%nat] |}.

Definition global_set : gmap string (layer nat) :=
  {[ "adm1_polygon" := adm1_polygons ]}.

Definition merged_once : gmap string (layer nat) :=
  unwrap ∅
    (replace_country_boundaries global_set aaa_layer "AAA" "adm1" "polygon").

(** The same partition with a column of whole numbers that the layers
    of the countries do not have, holding the first integer that is not
    a binary64 number. *)
Definition adm1_counted : layer nat :=
  {| columns := canonical_columns ++ [("POP", DInt64)];
     rows := [<["POP" := CNum (inject_Z (2 ^ 53 + 1))]>
                (canonical "BBB" "Bland" "102" "Centre" 5%nat)] |}.

Definition counted_set : gmap string (layer nat) :=
  {[ "adm1_polygon" := adm1_counted ]}.

(** A run over two countries, the first of which has no record in the
    admin-0 layer. *)
Definition admin0 : layer nat :=
  {| columns := [("ISO_3", DObject); ("geometry", DGeometry)];
     rows := [record [("ISO_3", CStr "BBB"); ("geometry", CGeom 9%nat)]] |}.

Definition water : layer nat :=
  {| columns := [("geometry", DGeometry)]; rows := [] |}.



Definition configuration : config :=
  {| dataset_exceptions := ∅; resource_exceptions := ∅;
     shapefile_attribute_mappings := mappings |}.

Definition aaa : country := {| iso3 := "AAA"; name_preferred := "Aland" |}.
Definition bbb : country := {| iso3 := "BBB"; name_preferred := "Bland" |}.

(** The layer of BBB to merge beside that of AAA *)
Definition bbb_layer : layer nat :=
  {| columns := canonical_columns;
     rows := [canonical "BBB" "Bland" "104" "South" 8%nat] |}.

Definition merge (store : gmap string (layer nat)) (lyr : layer nat)
    (iso : string) : gmap string (layer nat) :=
  unwrap ∅ (replace_country_boundaries store lyr iso "adm1" "polygon").

(** Two layers that hold the column of whole numbers of [adm1_counted]
    in their own ways: one as text, one as floats. *)
Definition aaa_noted : layer nat :=
  {| columns := canonical_columns ++ [("POP", DObject)];
     rows := [<["POP" := CStr "n/a"]>
                (canonical "AAA" "Aland" "101" "West" 7%nat)] |}.

Definition ccc_measured : layer nat :=
  {| columns := canonical_columns ++ [("POP", DFloat64)];
     rows := [<["POP" := CNum (3 # 2)]>
                (canonical "CCC" "Cland" "103" "East" 6%nat)] |}.

(** A run from the download on: the resources of the UN dataset, the
    dataset of BBB with one archive, and the files they give. *)
Definition geojson (name : string) : resource :=
  {| res_name := name; res_file_type := Some "geojson";
     res_payload := NotAZip |}.

Definition un_names : list (string * string) :=
  [("wrl_polbnda_int.geojson", "adm0_polygon");
   ("wrl_water.geojson", "water");
   ("polbnda_adm1_1m.geojson", "adm1_polygon");
   ("polbndp_adm1_1m.geojson", "adm1_point");
   ("polbnda_adm2_1m.geojson", "adm2_polygon")].

Definition un_resources_listed : list resource :=
  [geojson "wrl_polbnda_int.geojson"; geojson "wrl_water.geojson";
   geojson "polbnda_adm1_1m.geojson"; geojson "polbndp_adm1_1m.geojson";
   geojson "polbnda_adm2_1m.geojson"; geojson "wrl_lakes.geojson"].

Definition bbb_archive : resource :=
  shp "bbb_adm1_shp" (Archive ["/tmp/9f/bbb_admbnda_adm1.shp"]).

Definition atlas : world nat :=
  {| read_from_hdx := fun name =>
       if String.eqb name "un-boundaries" then Some un_resources_listed
       else if String.eqb name "cod-em-bbb" then Some [bbb_archive]
       else None;
     read_file := fun path =>
       if String.eqb path "/tmp/wrl_polbnda_int.geojson" then Ok admin0
       else if String.eqb path "/tmp/wrl_water.geojson" then Ok water
       else if String.eqb path "/tmp/polbnda_adm1_1m.geojson"
       then Ok adm1_polygons
       else if String.eqb path "/tmp/polbndp_adm1_1m.geojson"
       then Ok adm1_polygons
       else if String.eqb path "/tmp/9f/bbb_admbnda_adm1.shp"
       then Ok districts
       else Raise OtherError |}.

Definition hdx : remote nat :=
  {| download := fun r => Ok (path_join "/tmp" (res_name r));
     to_file := fun _ _ => Ok tt;
     update_in_hdx := fun _ _ => true |}.

Definition settings : run_configuration :=
  {| project := configuration;
     un_dataset := "un-boundaries";
     un_resources := un_names;
     default_levels := ["adm1"];
     not_processed := [] |}.

Definition loaded : gmap string (layer nat) :=
  unwrap ∅ (download_boundary_inputs atlas hdx "un-boundaries" un_names
              ["adm1"]).

Definition processed : gmap string (layer nat) :=
  unwrap ∅ (update_all atlas configuration loaded [Some bbb] ["adm1"] []).

End Sample.
Import Sample.

(** * Properties *)

(** ** The matcher against the words of a pattern *)

Lemma nullable_lang r : nullable r = true <-> lang r [].
Proof.
  induction r; simpl; split; intros Hn; try discriminate;
    try solve [constructor]; try solve [inversion Hn].
  - apply andb_true_iff in Hn as [H1 H2].
    change (@nil ascii) with (@nil ascii ++ []). constructor; tauto.
  - inversion Hn; subst.
    match goal with E : _ ++ _ = [] |- _ => apply app_eq_nil in E as [-> ->] end.
    apply andb_true_iff. tauto.
  - apply orb_true_iff in Hn as [Hn|Hn];
      [apply lang_alt_l|apply lang_alt_r]; tauto.
  - apply orb_true_iff. inversion Hn; subst; tauto.
Qed.

Lemma lang_star_split r a w :
  lang (Star r) (a :: w) ->
  exists u v, w = u ++ v /\ lang r (a :: u) /\ lang (Star r) v.
Proof.
  intros Hs. remember (Star r) as s eqn:Es. remember (a :: w) as x eqn:Ex.
  revert w Ex. induction Hs; intros w Ex; try discriminate.
  injection Es as ->. destruct u as [|b u]; simpl in Ex.
  - apply IHHs2; auto.
  - injection Ex as -> <-. eauto.
Qed.

Lemma deriv_lang a r w : lang (deriv a r) w <-> lang r (a :: w).
Proof.
  revert w. induction r; intros w; simpl.
  - split; intros Hl; inversion Hl.
  - split; intros Hl; inversion Hl.
  - destruct (eq_ci c a) eqn:E; split; intros Hl; inversion Hl; subst.
    + constructor; auto.
    + constructor.
    + congruence.
  - destruct (Ascii.eqb a newline) eqn:E; split; intros Hl; inversion Hl; subst.
    + apply Ascii.eqb_eq in E. contradiction.
    + constructor. intros ->. rewrite Ascii.eqb_refl in E. discriminate.
    + constructor.
  - destruct (is_space a) eqn:E; split; intros Hl; inversion Hl; subst.
    + constructor; auto.
    + constructor.
    + congruence.
  - destruct (nullable r1) eqn:N.
    + split; intros Hl.
      * inversion Hl; subst.
        -- match goal with X : lang (Cat _ _) _ |- _ => inversion X; subst end.
           change (a :: u ++ v) with ((a :: u) ++ v).
           constructor; auto. apply IHr1; auto.
        -- change (a :: w) with ([] ++ a :: w). constructor.
           ++ apply nullable_lang; auto.
           ++ apply IHr2; auto.
      * inversion Hl; subst. destruct u as [|b u]; simpl in *.
        -- subst. apply lang_alt_r. apply IHr2; auto.
        -- match goal with E : _ :: _ = _ :: _ |- _ => injection E as -> <- end.
           apply lang_alt_l. constructor; auto. apply IHr1; auto.
    + split; intros Hl.
      * inversion Hl; subst.
        change (a :: u ++ v) with ((a :: u) ++ v).
        constructor; auto. apply IHr1; auto.
      * inversion Hl; subst. destruct u as [|b u]; simpl in *.
        -- match goal with X : lang r1 [] |- _ => apply nullable_lang in X end.
           congruence.
        -- match goal with E : _ :: _ = _ :: _ |- _ => injection E as -> <- end.
           constructor; auto. apply IHr1; auto.
  - split; intros Hl; inversion Hl; subst.
    + apply lang_alt_l, IHr1; auto.
    + apply lang_alt_r, IHr2; auto.
    + apply lang_alt_l, IHr1; auto.
    + apply lang_alt_r, IHr2; auto.
  - split; intros Hl.
    + inversion Hl; subst. change (a :: u ++ v) with ((a :: u) ++ v).
      constructor; auto. apply IHr; auto.
    + apply lang_star_split in Hl as (u & v & -> & Hu & Hv).
      constructor; auto. apply IHr; auto.
Qed.

Lemma match_prefix_lang r w :
  match_prefix r w = true <-> exists u v, w = u ++ v /\ lang r u.
Proof.
  revert r. induction w as [|a w IH]; intros r; simpl.
  - rewrite orb_false_r, nullable_lang. split.
    + intros Hl. exists [], []. auto.
    + intros (u & v & E & Hl). symmetry in E.
      apply app_eq_nil in E as [-> ->]. auto.
  - rewrite orb_true_iff, nullable_lang, IH. split.
    + intros [Hl|(u & v & -> & Hl)].
      * exists [], (a :: w). auto.
      * exists (a :: u), v. split; auto. apply deriv_lang; auto.
    + intros (u & v & E & Hl). destruct u as [|b u]; simpl in E.
      * auto.
      * injection E as -> ->. right. exists u, v. split; auto.
        apply deriv_lang; auto.
Qed.

Lemma match_prefix_ext r r' :
  (forall u, lang r u <-> lang r' u) ->
  forall w, match_prefix r w = match_prefix r' w.
Proof.
  intros Hl w. apply eq_true_iff_eq. rewrite !match_prefix_lang.
  split; intros (u & v & E & Hu); exists u, v; split; auto; apply Hl; auto.
Qed.

Lemma lang_cat_inv r1 r2 w :
  lang (Cat r1 r2) w <-> exists u v, w = u ++ v /\ lang r1 u /\ lang r2 v.
Proof.
  split.
  - intros Hl. inversion Hl; subst. eauto.
  - intros (u & v & -> & Hu & Hv). constructor; auto.
Qed.

Lemma match_cat_assoc r1 r2 r w :
  match_prefix (Cat (Cat r1 r2) r) w = match_prefix (Cat r1 (Cat r2 r)) w.
Proof.
  apply match_prefix_ext. intros u. rewrite !lang_cat_inv. split.
  - intros (x & z & -> & Hx & Hz). apply lang_cat_inv in Hx as (x1 & x2 & -> & H1 & H2).
    exists x1, (x2 ++ z). rewrite <- app_assoc. repeat split; auto.
    constructor; auto.
  - intros (x & z & -> & Hx & Hz). apply lang_cat_inv in Hz as (z1 & z2 & -> & H1 & H2).
    exists (x ++ z1), z2. rewrite app_assoc. repeat split; auto.
    constructor; auto.
Qed.

Lemma match_cat_eps r w : match_prefix (Cat Eps r) w = match_prefix r w.
Proof.
  apply match_prefix_ext. intros u. rewrite lang_cat_inv. split.
  - intros (x & z & -> & Hx & Hz). inversion Hx; subst. auto.
  - intros Hu. exists [], u. repeat split; auto. constructor.
Qed.

Lemma match_cat_void r w : match_prefix (Cat Void r) w = false.
Proof.
  apply not_true_is_false. rewrite match_prefix_lang.
  intros (u & v & _ & Hu). inversion Hu; subst.
  match goal with X : lang Void _ |- _ => inversion X end.
Qed.

Lemma match_cat_chr c r w :
  match_prefix (Cat (Chr c) r) w =
  match w with
  | [] => false
  | a :: w' => eq_ci c a && match_prefix r w'
  end.
Proof.
  destruct w as [|a w]; simpl; [reflexivity|].
  destruct (eq_ci c a); simpl.
  - apply match_cat_eps.
  - apply match_cat_void.
Qed.

Lemma match_cat_space r w :
  match_prefix (Cat Space r) w =
  match w with
  | [] => false
  | a :: w' => is_space a && match_prefix r w'
  end.
Proof.
  destruct w as [|a w]; simpl; [reflexivity|].
  destruct (is_space a); simpl.
  - apply match_cat_eps.
  - apply match_cat_void.
Qed.

Lemma match_alt r1 r2 w :
  match_prefix (Alt r1 r2) w = match_prefix r1 w || match_prefix r2 w.
Proof.
  revert r1 r2. induction w as [|a w IH]; intros r1 r2; simpl.
  - rewrite !orb_false_r. reflexivity.
  - rewrite IH. destruct (nullable r1), (nullable r2); simpl;
      rewrite ?orb_true_r; auto.
Qed.

Lemma match_cat_alt r1 r2 r w :
  match_prefix (Cat (Alt r1 r2) r) w =
  match_prefix (Cat r1 r) w || match_prefix (Cat r2 r) w.
Proof.
  rewrite <- match_alt. apply match_prefix_ext. intros u. split.
  - intros Hl. apply lang_cat_inv in Hl as (x & z & -> & Hx & Hz).
    inversion Hx; subst; [apply lang_alt_l|apply lang_alt_r]; constructor; auto.
  - intros Hl. inversion Hl; subst;
      match goal with X : lang (Cat _ _) _ |- _ =>
        apply lang_cat_inv in X as (x & z & -> & Hx & Hz) end;
      constructor; auto; [apply lang_alt_l|apply lang_alt_r]; auto.
Qed.

Lemma match_cat_star_dot r w :
  match_prefix (Cat (Star Dot) r) w =
  match_prefix r w ||
  match w with
  | [] => false
  | a :: w' => negb (Ascii.eqb a newline) && match_prefix (Cat (Star Dot) r) w'
  end.
Proof.
  destruct w as [|a w]; simpl.
  - rewrite !orb_false_r. reflexivity.
  - rewrite match_alt. destruct (Ascii.eqb a newline); simpl.
    + rewrite match_cat_assoc, match_cat_void. simpl.
      rewrite orb_false_r. reflexivity.
    + rewrite match_cat_assoc, match_cat_eps.
      destruct (nullable r); simpl; auto. apply orb_comm.
Qed.

Lemma spells_eps : spells Eps [[]].
Proof. intros R w. rewrite match_cat_eps. simpl. rewrite orb_false_r. reflexivity. Qed.

Lemma spells_chr c : spells (Chr c) [[c]].
Proof.
  intros R w. rewrite match_cat_chr. simpl. rewrite orb_false_r.
  destruct w; simpl; auto. rewrite andb_true_r. reflexivity.
Qed.

Lemma is_space_ci a : existsb (fun c => eq_ci c a) whitespace = is_space a.
Proof.
  destruct a as [[] [] [] [] [] [] [] []]; reflexivity.
Qed.

Lemma existsb_orb {A} (f g : A -> bool) l :
  existsb (fun x => f x || g x) l = existsb f l || existsb g l.
Proof.
  induction l as [|x l IH]; simpl; auto. rewrite IH.
  destruct (f x), (g x), (existsb f l); reflexivity.
Qed.

Lemma existsb_andb_l {A} (b : bool) (f : A -> bool) l :
  existsb (fun x => b && f x) l = b && existsb f l.
Proof.
  induction l as [|x l IH]; simpl.
  - rewrite andb_false_r. reflexivity.
  - rewrite IH. destruct b; reflexivity.
Qed.

Lemma existsb_flat_map {A B} (f : B -> bool) (g : A -> list B) l :
  existsb f (flat_map g l) = existsb (fun x => existsb f (g x)) l.
Proof.
  induction l as [|x l IH]; simpl; auto. rewrite existsb_app, IH. reflexivity.
Qed.

Lemma existsb_pointwise {A} (f g : A -> bool) l :
  (forall x, f x = g x) -> existsb f l = existsb g l.
Proof. intros E. induction l; simpl; congruence. Qed.

Lemma existsb_of_map {A B} (f : B -> bool) (g : A -> B) l :
  existsb f (map g l) = existsb (fun x => f (g x)) l.
Proof. induction l; simpl; congruence. Qed.

Lemma spells_space : spells Space (map (fun c => [c]) whitespace).
Proof.
  intros R w. rewrite match_cat_space, existsb_of_map.
  destruct w as [|a w]; [reflexivity|].
  rewrite (existsb_pointwise _ (fun c => match_prefix R w && eq_ci c a)).
  - rewrite existsb_andb_l, is_space_ci. apply andb_comm.
  - intros c. simpl. rewrite andb_true_r. apply andb_comm.
Qed.

Lemma starts_with_app u v w :
  starts_with_ci (u ++ v) w =
  starts_with_ci u w && starts_with_ci v (skipn (length u) w).
Proof.
  revert w. induction u as [|c u IH]; intros w; simpl.
  - reflexivity.
  - destruct w as [|a w]; simpl.
    + destruct (u ++ v); reflexivity.
    + rewrite IH, andb_assoc. reflexivity.
Qed.

Lemma spells_alt r1 r2 vs1 vs2 :
  spells r1 vs1 -> spells r2 vs2 -> spells (Alt r1 r2) (vs1 ++ vs2).
Proof.
  intros H1 H2 R w. rewrite match_cat_alt, existsb_app, H1, H2. reflexivity.
Qed.

Lemma spells_cat r1 r2 vs1 vs2 :
  spells r1 vs1 -> spells r2 vs2 ->
  spells (Cat r1 r2)
    (flat_map (fun v1 => map (fun v2 => v1 ++ v2) vs2) vs1).
Proof.
  intros H1 H2 R w. rewrite match_cat_assoc, H1, existsb_flat_map.
  apply existsb_pointwise. intros v1. rewrite H2, existsb_of_map.
  rewrite <- existsb_andb_l. apply existsb_pointwise. intros v2.
  rewrite starts_with_app, length_app, Nat.add_comm, <- skipn_skipn.
  rewrite andb_assoc. reflexivity.
Qed.

Lemma spells_lit w : spells (lit w) [w].
Proof.
  induction w as [|c w IH]; simpl.
  - apply spells_eps.
  - pose proof (spells_cat _ _ _ _ (spells_chr c) IH) as Hc. exact Hc.
Qed.

Lemma spells_opt r vs : spells r vs -> spells (Opt r) (vs ++ [[]]).
Proof. intros Hr. apply spells_alt; [exact Hr|apply spells_eps]. Qed.

Lemma spells_level_core sep n :
  spells (level_core sep n) (level_spellings sep n).
Proof.
  pose proof (spells_cat _ _ _ _ (spells_lit (chars "adm"))
    (spells_cat _ _ _ _ (spells_opt _ _ (spells_lit (chars "in")))
      (spells_cat _ _ _ _
         (if sep return spells (if sep then Opt Space else Eps)
                          (if sep then map (fun c => [c]) whitespace ++ [[]]
                           else [[]])
          then spells_opt _ _ spells_space else spells_eps)
         (spells_cat _ _ _ _ (spells_opt _ _ (spells_chr "0"%char))
            (spells_chr n))))) as Hs.
  destruct sep; exact Hs.
Qed.

Lemma one_line_skipn k w : one_line w = true -> one_line (skipn k w) = true.
Proof.
  revert w. induction k as [|k IH]; intros [|a w]; simpl; auto.
  intros Hw. apply andb_true_iff in Hw as [_ Hw]. auto.
Qed.

Lemma match_star_dot w : match_prefix (Star Dot) w = true.
Proof. destruct w; reflexivity. Qed.

Lemma contains_ci_nil v : contains_ci v [] = starts_with_ci v [].
Proof. simpl. apply orb_false_r. Qed.

Lemma framed_contains r vs w :
  spells r vs -> one_line w = true ->
  match_prefix (Cat (Star Dot) (Cat r (Star Dot))) w =
  existsb (fun v => contains_ci v w) vs.
Proof.
  intros Hr. induction w as [|a w IH]; intros Hw.
  - rewrite match_cat_star_dot, Hr, orb_false_r.
    apply existsb_pointwise. intros v.
    rewrite match_star_dot, andb_true_r, contains_ci_nil. reflexivity.
  - simpl in Hw. apply andb_true_iff in Hw as [Ha Hw].
    rewrite match_cat_star_dot, Hr, Ha, IH by exact Hw.
    rewrite andb_true_l, <- existsb_orb. apply existsb_pointwise. intros v.
    rewrite match_star_dot, andb_true_r. reflexivity.
Qed.

Lemma framed_contains_then tok rest R w :
  (forall s, one_line s = true -> match_prefix R s = rest s) ->
  one_line w = true ->
  match_prefix (Cat (Star Dot) (Cat (lit tok) R)) w =
  contains_then tok rest w.
Proof.
  intros HR. induction w as [|a w IH]; intros Hw.
  - rewrite match_cat_star_dot, (spells_lit tok), orb_false_r.
    simpl existsb. rewrite orb_false_r, HR by (apply one_line_skipn; exact Hw).
    simpl. rewrite orb_false_r. reflexivity.
  - pose proof Hw as Hw'. simpl in Hw. apply andb_true_iff in Hw as [Ha Hw].
    rewrite match_cat_star_dot, (spells_lit tok), Ha, IH by exact Hw.
    simpl existsb.
    rewrite andb_true_l, orb_false_r, HR by (apply one_line_skipn; exact Hw').
    reflexivity.
Qed.

Lemma text_pattern_contains tok name :
  single_line name = true ->
  re_match (Cat (Star Dot) (Cat (text tok) (Star Dot))) name =
  name_contains tok name.
Proof.
  intros Hn. unfold re_match, name_contains, text.
  rewrite (framed_contains _ _ _ (spells_lit (chars tok)) Hn).
  simpl. apply orb_false_r.
Qed.





Lemma shapefile_level_pattern_convention n path :
  single_line path = true ->
  re_match (shapefile_level_pattern n) path = follows_convention n path.
Proof.
  intros Hp. unfold re_match, shapefile_level_pattern, follows_convention, text.
  apply framed_contains_then; [|exact Hp].
  intros s Hs. apply framed_contains; [apply spells_level_core|exact Hs].
Qed.

Lemma simplified_pattern_contains path :
  single_line path = true ->
  re_match simplified_pattern path = name_contains "simplified" path.
Proof. apply text_pattern_contains. Qed.

Lemma filter_ext_Forall {A} (f g : A -> bool) (P : A -> Prop) l :
  Forall P l -> (forall x, P x -> f x = g x) ->
  List.filter f l = List.filter g l.
Proof.
  intros Hl E. induction Hl as [|x l Hx Hl IH]; simpl; auto.
  rewrite (E x Hx), IH. reflexivity.
Qed.

Lemma Forall_kept {A} (f : A -> bool) (P : A -> Prop) l :
  Forall P l -> Forall P (List.filter f l).
Proof.
  intros Hl. induction Hl as [|x l Hx Hl IH]; simpl; auto.
  destruct (f x); auto.
Qed.

Lemma filterM_filter {A} (f : A -> result bool) (g : A -> bool) l :
  Forall (fun x => f x = Ok (g x)) l -> filterM f l = Ok (List.filter g l).
Proof.
  induction 1 as [|x l Hx _ IH]; [reflexivity|].
  cbn [filterM List.filter]. rewrite Hx, IH. reflexivity.
Qed.





(** Of three resources whose names hold the default token and refer to
    level 1, the one that is no shapefile archive is left out, and the
    level then tells the other two apart from the resource of level 2. *)
Example resources_by_type_and_level :
  find_resource ∅ "ABC"
    [shp "abc_adm1_shp" NotAZip;
     {| res_name := "abc_adm1_geojson"; res_file_type := Some "geojson";
        res_payload := NotAZip |};
     shp "abc_admin 01_shp" NotAZip;
     shp "abc_adm2_shp" NotAZip] "adm1" =
  Ok [shp "abc_adm1_shp" NotAZip; shp "abc_admin 01_shp" NotAZip].
Proof. vm_compute. reflexivity. Qed.

Lemma existsb_id_map {A} (f : A -> bool) l :
  existsb id (map f l) = match List.filter f l with [] => false | _ => true end.
Proof.
  induction l as [|x l IH]; simpl; auto. unfold id at 1.
  destruct (f x); simpl; auto.
Qed.

Lemma filter_none {A} (f : A -> bool) l :
  List.filter f l = [] -> List.filter (fun x => negb (f x)) l = l.
Proof.
  induction l as [|x l IH]; simpl; auto.
  destruct (f x); simpl; [discriminate|]. intros E. rewrite IH; auto.
Qed.

Lemma keep_level_named_filter n paths :
  keep_level_named n paths =
  match List.filter (re_match (shapefile_level_pattern n)) paths with
  | [] => paths
  | named => named
  end.
Proof.
  unfold keep_level_named. rewrite existsb_id_map.
  destruct (List.filter _ paths); reflexivity.
Qed.

Lemma drop_simplified_filter paths :
  drop_simplified paths =
  List.filter (fun b => negb (re_match simplified_pattern b)) paths.
Proof.
  unfold drop_simplified. rewrite existsb_id_map.
  destruct (List.filter (re_match simplified_pattern) paths) eqn:E; auto.
  symmetry. apply filter_none. exact E.
Qed.

Lemma keep_level_named_words n paths :
  Forall (fun b => single_line b = true) paths ->
  keep_level_named n paths = named_for_level n paths.
Proof.
  intros Hp. rewrite keep_level_named_filter. unfold named_for_level.
  rewrite (filter_ext_Forall _ (follows_convention n) _ paths Hp); auto.
  intros b Hb. apply shapefile_level_pattern_convention. exact Hb.
Qed.

Lemma drop_simplified_words paths :
  Forall (fun b => single_line b = true) paths ->
  drop_simplified paths = full_resolution paths.
Proof.
  intros Hp. rewrite drop_simplified_filter. unfold full_resolution.
  apply filter_ext_Forall with (P := fun b => single_line b = true); auto.
  intros b Hb. rewrite simplified_pattern_contains by exact Hb. reflexivity.
Qed.

Lemma named_for_level_single_line n paths :
  Forall (fun b => single_line b = true) paths ->
  Forall (fun b => single_line b = true) (named_for_level n paths).
Proof.
  intros Hp. unfold named_for_level.
  destruct (List.filter _ paths) eqn:E; auto.
  rewrite <- E. apply Forall_kept. exact Hp.
Qed.

Lemma choose_shapefile_some paths level :
  paths <> [] ->
  choose_shapefile paths level =
  (boundary_shp ←
     (if (1 <? length paths)%nat then
        n ← of_option IndexError (last_char level);
        Ok (keep_level_named n paths)
      else Ok paths);
   let boundary_shp :=
     if (1 <? length boundary_shp)%nat then drop_simplified boundary_shp
     else boundary_shp in
   match boundary_shp with
   | [b] => Ok (Selected b)
   | _ => Ok (NoFile CouldNotDistinguish)
   end).
Proof. destruct paths; [congruence|reflexivity]. Qed.

Lemma choose_shapefile_words paths level n :
  last_char level = Some n ->
  Forall (fun b => single_line b = true) paths ->
  choose_shapefile paths level =
  Ok (let kept :=
        if (1 <? length paths)%nat then named_for_level n paths else paths in
      let kept :=
        if (1 <? length kept)%nat then full_resolution kept else kept in
      match kept with
      | [b] => Selected b
      | _ => NoFile (match paths with
                     | [] => DidNotFind
                     | _ => CouldNotDistinguish
                     end)
      end).
Proof.
  intros Hn Hp.
  destruct paths as [|b0 paths0] eqn:Ep; [reflexivity|]. rewrite <- Ep in *.
  assert (Hne : paths <> []) by (rewrite Ep; discriminate).
  rewrite (choose_shapefile_some paths level Hne), Hn.
  assert (Hk : Forall (fun b => single_line b = true)
                 (if (1 <? length paths)%nat then named_for_level n paths
                  else paths)).
  { destruct (1 <? length paths)%nat; auto.
    apply named_for_level_single_line. exact Hp. }
  clear Ep Hne.
  destruct (1 <? length paths)%nat; cbn [mbind result_bind of_option]; cbv zeta.
  - rewrite keep_level_named_words by exact Hp.
    destruct (1 <? length (named_for_level n paths))%nat.
    + rewrite drop_simplified_words by exact Hk.
      destruct (full_resolution _) as [|b [|b' l]]; reflexivity.
    + destruct (named_for_level n paths) as [|b [|b' l]]; reflexivity.
  - destruct (1 <? length paths)%nat.
    + rewrite drop_simplified_words by exact Hk.
      destruct (full_resolution _) as [|b [|b' l]]; reflexivity.
    + destruct paths as [|b [|b' l]]; reflexivity.
Qed.

(** C4. Shapefile Selector tie-break: of more than one shapefile, on
    single-line paths, the selector keeps those that follow the naming
    convention for the level, or all of them when none does; only if
    more than one is still left does it drop the paths that contain
    "simplified"; exactly one survivor is selected. Of the three sample
    files it selects the full-resolution admbnda adm2 file. *)
Theorem find_shapefile_tie_break :
  (forall paths level n,
      last_char level = Some n ->
      Forall (fun b => single_line b = true) paths ->
      (1 < length paths)%nat ->
      choose_shapefile paths level =
      Ok (let kept := named_for_level n paths in
          let kept :=
            if (1 <? length kept)%nat then full_resolution kept else kept in
          match kept with
          | [b] => Selected b
          | _ => NoFile CouldNotDistinguish
          end)) /\
  (forall n paths,
      List.filter (follows_convention n) paths = [] ->
      named_for_level n paths = paths) /\
  (forall iso r,
      res_payload r = Archive three_files ->
      find_shapefile iso r "adm2" =
      Ok (Selected "/tmp/in/9f1c/eth_admbnda_adm2_csa_2021.shp")).
Proof.
  split; [|split].
  - intros paths level n Hn Hp Hl.
    rewrite (choose_shapefile_words paths level n Hn Hp).
    apply Nat.ltb_lt in Hl. rewrite Hl. cbv zeta.
    destruct paths; [discriminate|]. reflexivity.
  - intros n paths E. unfold named_for_level. rewrite E. reflexivity.
  - intros iso r Hr. unfold find_shapefile. rewrite Hr.
    vm_compute. reflexivity.
Qed.

(** C4, on two files *)
Lemma find_shapefile_tie_break_witness :
  choose_shapefile ["/t/a/adm1.shp"; "/t/a/simplified_adm1.shp"] "adm1" =
  Ok (Selected "/t/a/adm1.shp").
Proof.
  rewrite (proj1 find_shapefile_tie_break
             ["/t/a/adm1.shp"; "/t/a/simplified_adm1.shp"] "adm1" "1"%char)
    by first [reflexivity | repeat constructor].
  vm_compute. reflexivity.
Defined.

Lemma full_resolution_none l :
  Forall (fun b => name_contains "simplified" b = true) l ->
  full_resolution l = [].
Proof.
  intros Hs. unfold full_resolution.
  induction Hs as [|b l Hb Hs IH]; simpl; auto. rewrite Hb. exact IH.
Qed.

(** C10. All-simplified exhaustion: when more than one candidate is
    left by the naming convention and each of them contains
    "simplified", the selector is left with none and returns no file,
    for want of telling the shapefiles apart. *)
Theorem all_simplified_exhaustion :
  forall iso r paths level n,
    res_payload r = Archive paths ->
    last_char level = Some n ->
    Forall (fun b => single_line b = true) paths ->
    (1 < length (named_for_level n paths))%nat ->
    Forall (fun b => name_contains "simplified" b = true)
      (named_for_level n paths) ->
    find_shapefile iso r level = Ok (NoFile CouldNotDistinguish) /\
    (r' ← find_shapefile iso r level; Ok (returned r')) = Ok None.
Proof.
  intros iso r paths level n Hr Hn Hp Hl Hs.
  assert (E : find_shapefile iso r level = Ok (NoFile CouldNotDistinguish)).
  { unfold find_shapefile. rewrite Hr.
    assert (Hl' : (1 < length paths)%nat).
    { unfold named_for_level in Hl.
      destruct (List.filter (follows_convention n) paths) eqn:E; auto.
      rewrite <- E in Hl.
      pose proof (List.filter_length_le (follows_convention n) paths). lia. }
    rewrite (choose_shapefile_words paths level n Hn Hp).
    apply Nat.ltb_lt in Hl'. rewrite Hl'. cbv zeta.
    apply Nat.ltb_lt in Hl. rewrite Hl. cbv zeta.
    rewrite (full_resolution_none _ Hs).
    destruct paths; [discriminate|reflexivity]. }
  split; [exact E|]. rewrite E. reflexivity.
Qed.

(** ** Global Merger *)




Lemma filter_pointwise {A} (f g : A -> bool) l :
  (forall x, In x l -> f x = g x) -> List.filter f l = List.filter g l.
Proof.
  induction l as [|x l IH]; simpl; intros E; auto.
  rewrite (E x), IH; auto.
Qed.

Lemma assoc_None_mem {A} c (l : list (string * A)) :
  assoc c l = None -> mem c (map fst l) = false.
Proof.
  induction l as [|[k v] l IH]; simpl; [reflexivity|].
  rewrite (String.eqb_sym c k).
  destruct (String.eqb k c); [discriminate|]. exact IH.
Qed.

Section Merger.
Context {G : Type} `{Libraries G}.







(** *** What the append does to a record *)

Lemma get_cast_row own result (r : row G) c :
  get (cast_row own result r) c =
  if promoted own result c then float_of_int (get r c) else get r c.
Proof.
  unfold get, cast_row. rewrite map_lookup_imap.
  destruct (r !! c) as [v|]; simpl; destruct (promoted own result c);
    reflexivity.
Qed.

Lemma float_of_int_text s (c : cell G) :
  is_text s (float_of_int c) = is_text s c.
Proof.
  destruct c as [t|q| | |g]; simpl; auto.
  destruct (Qeq_bool _ _ && _); reflexivity.
Qed.

Lemma float_of_int_text_or_null (c : cell G) :
  text_or_null c -> float_of_int c = c.
Proof. destruct c; simpl; auto; contradiction. Qed.

Lemma of_country_cast iso own result (r : row G) :
  of_country iso (cast_row own result r) = of_country iso r.
Proof.
  unfold of_country. rewrite get_cast_row.
  destruct (promoted own result "alpha_3"); [apply float_of_int_text|].
  reflexivity.
Qed.

Lemma cast_row_text_or_null own result (r : row G) col :
  text_or_null (get r col) ->
  get (cast_row own result r) col = get r col.
Proof.
  intros Ht. rewrite get_cast_row.
  destruct (promoted own result col); [|reflexivity].
  apply float_of_int_text_or_null. exact Ht.
Qed.

Lemma cast_row_carries iso own result (r : row G) :
  get r "alpha_3" = CStr iso ->
  get (cast_row own result r) "alpha_3" = CStr iso.
Proof.
  intros Hr. rewrite cast_row_text_or_null; [exact Hr|].
  rewrite Hr. exact I.
Qed.

Lemma cast_row_same own own' result result' (r : row G) :
  (forall c, promoted own result c = promoted own' result' c) ->
  cast_row own result r = cast_row own' result' r.
Proof.
  intros E. apply map_eq. intros c. unfold cast_row.
  rewrite !map_lookup_imap. destruct (r !! c); simpl; [|reflexivity].
  rewrite E. reflexivity.
Qed.

Lemma cast_row_none own result (r : row G) :
  (forall c, promoted own result c = false) -> cast_row own result r = r.
Proof.
  intros E. apply map_eq. intros c. unfold cast_row.
  rewrite map_lookup_imap. destruct (r !! c); simpl; [|reflexivity].
  rewrite E. reflexivity.
Qed.

Lemma map_cast_none own result (l : list (row G)) :
  (forall c, promoted own result c = false) ->
  map (cast_row own result) l = l.
Proof.
  intros E. rewrite <- (map_id l) at 2. apply map_ext. intros r.
  apply cast_row_none. exact E.
Qed.

Lemma filter_map_swap {A B} (f : B -> bool) (g : A -> B) l :
  List.filter f (map g l) = map g (List.filter (fun x => f (g x)) l).
Proof.
  induction l as [|x l IH]; simpl; auto.
  destruct (f (g x)); simpl; rewrite IH; reflexivity.
Qed.


Lemma filter_others_cast iso own result (l : list (row G)) :
  List.filter (fun r => negb (of_country iso r))
    (map (cast_row own result) l) =
  map (cast_row own result)
    (List.filter (fun r => negb (of_country iso r)) l).
Proof.
  rewrite filter_map_swap. f_equal. apply filter_pointwise.
  intros r _. rewrite of_country_cast. reflexivity.
Qed.

(** *** The dtypes of the appended columns *)

Lemma assoc_filter_out {A} c (f : string * A -> bool) (l : list (string * A)) :
  (forall v, f (c, v) = true) ->
  assoc c (List.filter f l) = assoc c l.
Proof.
  intros Hf. induction l as [|[k v] l IH]; simpl; [reflexivity|].
  destruct (String.eqb_spec k c) as [->|Hne].
  - rewrite Hf. simpl. rewrite String.eqb_refl. reflexivity.
  - destruct (f (k, v)); simpl; [|exact IH].
    destruct (String.eqb_spec k c); [congruence|exact IH].
Qed.

Lemma assoc_map_dtype c (f : string -> dtype -> dtype)
    (l : list (string * dtype)) :
  assoc c (map (fun p => (fst p, f (fst p) (snd p))) l) =
  option_map (f c) (assoc c l).
Proof.
  induction l as [|[k v] l IH]; simpl; [reflexivity|].
  destruct (String.eqb_spec k c) as [->|Hne]; [reflexivity|exact IH].
Qed.

Lemma assoc_app {A} c (l1 l2 : list (string * A)) :
  assoc c (l1 ++ l2) =
  match assoc c l1 with Some t => Some t | None => assoc c l2 end.
Proof.
  induction l1 as [|[k v] l IH]; simpl; [reflexivity|].
  destruct (String.eqb k c); auto.
Qed.

Lemma assoc_append_columns c (a b : list (string * dtype)) :
  assoc c (append_columns a b) =
  match assoc c a with
  | Some t => Some (promote (Some t) (assoc c b))
  | None => option_map (fun t => promote None (Some t)) (assoc c b)
  end.
Proof.
  unfold append_columns. rewrite assoc_app.
  rewrite (assoc_map_dtype c (fun k t => promote (Some t) (assoc k b)) a).
  destruct (assoc c a) as [t|] eqn:Ea; [reflexivity|]. cbn [option_map].
  rewrite (assoc_map_dtype c (fun _ t => promote None (Some t))).
  f_equal. apply assoc_filter_out. intros v. cbn [fst].
  rewrite (assoc_None_mem c a Ea). reflexivity.
Qed.




Lemma filter_Permutation {A} (f : A -> bool) l l' :
  Permutation l l' -> Permutation (List.filter f l) (List.filter f l').
Proof.
  induction 1; simpl.
  - constructor.
  - destruct (f x); auto.
  - destruct (f x), (f y); auto. constructor.
  - etransitivity; eauto.
Qed.

Lemma filter_all {A} (f : A -> bool) l :
  Forall (fun x => f x = true) l -> List.filter f l = l.
Proof. induction 1 as [|x l Hx Hl IH]; simpl; auto. rewrite Hx, IH. auto. Qed.

Lemma filter_nothing {A} (f : A -> bool) l :
  Forall (fun x => f x = false) l -> List.filter f l = [].
Proof. induction 1 as [|x l Hx Hl IH]; simpl; auto. rewrite Hx. auto. Qed.




(** *** The merge *)

Lemma replace_inv (store : gmap string (layer G)) lyr iso level geom_type store' :
  replace_country_boundaries store lyr iso level geom_type = Ok store' ->
  exists part n,
    store !! partition_key level geom_type = Some part /\
    last_char level = Some n /\
    store' = <[partition_key level geom_type := merged part lyr iso n]> store.
Proof.
  unfold replace_country_boundaries.
  destruct (store !! partition_key level geom_type) as [part|];
    [|discriminate]. cbn [of_option mbind result_bind].
  unfold select_ne.
  destruct (column_dtype "alpha_3" part); [|discriminate].
  cbn [of_option mbind result_bind].
  destruct (last_char level) as [n|]; [|discriminate].
  cbn [of_option mbind result_bind]. unfold sort_values.
  destruct (column_dtype (pcode_column n) _); [|discriminate].
  cbn [of_option mbind result_bind].
  destruct (comparable _); [|discriminate].
  intros [= <-]. exists part, n. auto.
Qed.



Lemma merged_rows (part lyr : layer G) iso n :
  Permutation (rows (merged part lyr iso n))
    (map (kept part lyr)
       (List.filter (fun r => negb (of_country iso r)) (rows part)) ++
     map (appended part lyr) (rows lyr)).
Proof. apply merge_sort_Permutation. Qed.







End Merger.

(** ** Field Harmonizer *)

Lemma mem_In c l : mem c l = true <-> In c l.
Proof.
  unfold mem. rewrite existsb_exists. split.
  - intros (x & Hx & E). apply String.eqb_eq in E. subst. exact Hx.
  - intros Hc. exists c. split; auto. apply String.eqb_refl.
Qed.

Section Fields.
Context {G : Type} `{Libraries G}.

Lemma get_insert_eq (r : row G) c v : get (<[c := v]> r) c = v.
Proof. unfold get. rewrite lookup_insert_eq. reflexivity. Qed.

Lemma get_insert_ne (r : row G) c c' v :
  c <> c' -> get (<[c := v]> r) c' = get r c'.
Proof. intros Hc. unfold get. rewrite lookup_insert_ne by exact Hc. reflexivity. Qed.

Lemma names_set_dtype c t (cols : list (string * dtype)) :
  map fst (set_dtype c t cols) = add_name c (map fst cols).
Proof.
  unfold set_dtype, add_name. destruct (mem c (map fst cols)).
  - rewrite map_map. apply map_ext. intros [k v]. simpl.
    destruct (String.eqb k c) eqn:E; auto. apply String.eqb_eq in E. auto.
  - rewrite map_app. reflexivity.
Qed.

Lemma assoc_None {A} c (l : list (string * A)) :
  mem c (map fst l) = false -> assoc c l = None.
Proof.
  induction l as [|[k v] l IH]; simpl; auto.
  rewrite String.eqb_sym. destruct (String.eqb k c); simpl; auto. discriminate.
Qed.

Lemma assoc_set_dtype_ne c c' t (cols : list (string * dtype)) :
  c <> c' -> assoc c' (set_dtype c t cols) = assoc c' cols.
Proof.
  intros Hc. unfold set_dtype. destruct (mem c (map fst cols)).
  - induction cols as [|[k v] l IH]; simpl; auto.
    destruct (String.eqb k c) eqn:E; simpl.
    + apply String.eqb_eq in E. subst k.
      destruct (String.eqb c c') eqn:E'; auto.
      apply String.eqb_eq in E'. contradiction.
    + destruct (String.eqb k c'); auto.
  - induction cols as [|[k v] l IH]; simpl.
    + destruct (String.eqb c c') eqn:E'; auto.
      apply String.eqb_eq in E'. contradiction.
    + destruct (String.eqb k c'); auto.
Qed.

Lemma names_setitem c t f (lyr : layer G) :
  column_names (setitem c t f lyr) = add_name c (column_names lyr).
Proof. apply names_set_dtype. Qed.

Lemma dtype_setitem_ne c c' t f (lyr : layer G) :
  c <> c' -> column_dtype c' (setitem c t f lyr) = column_dtype c' lyr.
Proof. apply assoc_set_dtype_ne. Qed.

Lemma traverse_Forall2 {A B} (f : A -> result B) l l' :
  traverse f l = Ok l' -> Forall2 (fun a b => f a = Ok b) l l'.
Proof.
  revert l'. induction l as [|a l IH]; simpl; intros l'.
  - intros [= <-]. constructor.
  - destruct (f a) as [b|] eqn:Ea; [|discriminate].
    cbn [mbind result_bind].
    destruct (traverse f l) as [bs|]; [|discriminate].
    cbn [mbind result_bind]. intros [= <-]. constructor; auto.
Qed.

Lemma Forall2_map_r {A B} (P : A -> B -> Prop) (f : A -> B) l :
  (forall a, P a (f a)) -> Forall2 P l (map f l).
Proof. intros Hf. induction l; simpl; constructor; auto. Qed.

Lemma setitem_assigns c t f (lyr : layer G) :
  assigns c (fun r v => v = f r) lyr (setitem c t f lyr).
Proof.
  split; [apply names_setitem|]. split; [intros; apply dtype_setitem_ne; auto|].
  simpl. apply Forall2_map_r. intros r. split.
  - intros c' Hc. apply get_insert_ne. exact Hc.
  - apply get_insert_eq.
Qed.

Lemma setitem_column_assigns c src (lyr lyr' : layer G) :
  setitem_column c src lyr = Ok lyr' ->
  assigns c (fun r v => v = get r src) lyr lyr'.
Proof.
  unfold setitem_column. destruct (column_dtype src lyr); [|discriminate].
  cbn [of_option mbind result_bind]. intros [= <-]. apply setitem_assigns.
Qed.

Lemma setitem_int_str_assigns c src (lyr lyr' : layer G) :
  setitem_int_str float_cast_overflow c src lyr = Ok lyr' ->
  assigns c
    (fun r v => exists q, get r src = CNum q /\
                  (in_int64 (truncate q) = true ->
                   v = CStr (str_of_Z (truncate q))))
    lyr lyr'.
Proof.
  unfold setitem_int_str. destruct (column_dtype src lyr); [|discriminate].
  cbn [of_option mbind result_bind].
  destruct (traverse _ (rows lyr)) as [new_rows|] eqn:Et; [|discriminate].
  cbn [mbind result_bind]. intros [= <-].
  split; [apply names_set_dtype|].
  split; [intros; apply assoc_set_dtype_ne; auto|].
  simpl. apply traverse_Forall2 in Et.
  induction Et as [|r r' l l' Hr Hl IH]; constructor; auto.
  destruct (get r src) as [s|q| | |g] eqn:Eg; simpl in Hr; try discriminate.
  cbn [mbind result_bind] in Hr. injection Hr as <-. split.
  - intros c' Hc. apply get_insert_ne. exact Hc.
  - rewrite get_insert_eq. exists q. split; auto.
    intros Hq. rewrite Hq. reflexivity.
Qed.

Lemma assigns_weaken c (V V' : row G -> cell G -> Prop) (lyr lyr' : layer G) :
  (forall r v, V r v -> V' r v) -> assigns c V lyr lyr' -> assigns c V' lyr lyr'.
Proof.
  intros HV (Hn & Hd & Hr). split; [exact Hn|]. split; [exact Hd|].
  induction Hr as [|r r' l l' [Ho Hv] Hl IH]; constructor; auto.
Qed.

Lemma truthy_Some o : truthy o = true -> o = Some (default "" o).
Proof. destruct o; simpl; [reflexivity|discriminate]. Qed.

(** The cast of the code rounds towards zero, and [str] writes the
    decimal numeral; each of the two is the only one that does. *)
Lemma truncate_rounds q : rounds_toward_zero q (truncate q).
Proof.
  destruct q as [a b]. unfold rounds_toward_zero, truncate, Qle, Qlt.
  cbn [Qnum Qden inject_Z]. rewrite ?Z.mul_1_r, ?Z.mul_1_l.
  split; intros Ha.
  - pose proof (Z.mul_quot_le a (Z.pos b) ltac:(lia) ltac:(lia)).
    pose proof (Z.mul_succ_quot_gt a (Z.pos b) ltac:(lia) ltac:(lia)).
    lia.
  - pose proof (Z.mul_quot_ge a (Z.pos b) ltac:(lia) ltac:(lia)).
    pose proof (Z.mul_pred_quot_lt a (Z.pos b) ltac:(lia) ltac:(lia)).
    lia.
Qed.

Lemma rounds_unique q z z' :
  rounds_toward_zero q z -> rounds_toward_zero q z' -> z = z'.
Proof.
  destruct q as [a b]. unfold rounds_toward_zero, Qle, Qlt.
  cbn [Qnum Qden inject_Z]. rewrite ?Z.mul_1_r, ?Z.mul_1_l.
  intros [H1 H2] [H3 H4].
  destruct (Z.le_ge_cases 0 a) as [Ha|Ha].
  - specialize (H1 Ha). specialize (H3 Ha). nia.
  - specialize (H2 Ha). specialize (H4 Ha). nia.
Qed.

Lemma decimal_str_of_Z z : decimal z (str_of_Z z).
Proof.
  unfold decimal, str_of_Z. exists (Z.to_int z).
  assert (Hn : Decimal.norm (Z.to_int z) = Z.to_int z).
  { rewrite <- DecimalZ.to_of, DecimalZ.of_to. reflexivity. }
  split; [|split; [exact Hn|apply DecimalZ.of_to]].
  apply NilZero.isi; intros E; rewrite E in Hn; discriminate.
Qed.

Lemma decimal_unique z s : decimal z s -> s = str_of_Z z.
Proof.
  intros (d & Hs & Hn & Hz). unfold str_of_Z.
  rewrite <- Hz, DecimalZ.to_of, Hn.
  symmetry. apply NilZero.sis. exact Hs.
Qed.

Lemma within_int64_in z : within_int64 z -> in_int64 z = true.
Proof. unfold within_int64, in_int64. lia. Qed.

Lemma stringified_truncated (r : row G) src t v :
  stringified r src t v -> truncated_text r src t v.
Proof.
  unfold stringified, truncated_text.
  destruct (is_numeric_dtype t); [|auto].
  intros (q & Hq & Hv). exists q, (truncate q).
  split; [exact Hq|]. split; [apply truncate_rounds|].
  intros Hz. exists (str_of_Z (truncate q)).
  split; [apply Hv, within_int64_in, Hz|apply decimal_str_of_Z].
Qed.

Lemma stringified_get (r r' : row G) src t v :
  get r' src = get r src -> stringified r' src t v -> stringified r src t v.
Proof. unfold stringified. intros ->. auto. Qed.

Lemma harmonize_level_assigns h fields l (lyr lyr' : layer G) :
  harmonize_level h fields l lyr = Ok lyr' ->
  exists lyr1,
    assigns (adm l "_REF") (fun _ _ => True) lyr lyr1 /\
    assigns (adm l "_PCODE")
      (pcode_set (if_truthy (pcode_field h fields l)) lyr1)
      lyr1 lyr'.
Proof.
  unfold harmonize_level.
  set (found := pcode_field h fields l). set (name := name_field h fields l).
  destruct (if truthy name then _ else _) as [lyr1|] eqn:E1; [|discriminate].
  cbn [mbind result_bind]. intros E2. exists lyr1. split.
  - destruct (truthy name).
    + apply setitem_column_assigns in E1. revert E1. apply assigns_weaken. auto.
    + injection E1 as <-. eapply assigns_weaken; [|apply setitem_assigns]. auto.
  - unfold if_truthy. fold found. destruct (truthy found) eqn:Ef.
    + rewrite (truthy_Some _ Ef). set (src := default "" found) in *.
      destruct (column_dtype src lyr1) as [t|] eqn:Et; [|discriminate].
      cbn [of_option mbind result_bind] in E2.
      destruct (is_numeric_dtype t) eqn:En.
      * apply setitem_int_str_assigns in E2. revert E2. apply assigns_weaken.
        intros r v Hv. exists t. split; auto. unfold stringified. rewrite En.
        exact Hv.
      * apply setitem_column_assigns in E2. revert E2. apply assigns_weaken.
        intros r v Hv. exists t. split; auto. unfold stringified. rewrite En.
        exact Hv.
    + injection E2 as <-. apply setitem_assigns.
Qed.

Lemma Forall2_compose {A B C} (P : A -> B -> Prop) (Q : B -> C -> Prop)
    l1 l2 l3 :
  Forall2 P l1 l2 -> Forall2 Q l2 l3 ->
  Forall2 (fun a c => exists b, P a b /\ Q b c) l1 l3.
Proof.
  intros H12. revert l3. induction H12 as [|a b l1 l2 Hab H12 IH]; intros l3 H23.
  - inversion H23. constructor.
  - inversion H23; subst. constructor; eauto.
Qed.

Lemma Forall2_weaken {A B} (P Q : A -> B -> Prop) l1 l2 :
  (forall a b, P a b -> Q a b) -> Forall2 P l1 l2 -> Forall2 Q l1 l2.
Proof. intros HPQ. induction 1; constructor; auto. Qed.

Lemma Forall2_same {A} (P : A -> A -> Prop) l :
  (forall a, P a a) -> Forall2 P l l.
Proof. intros HP. induction l; constructor; auto. Qed.

Lemma small_cases l : l <= 9 -> In l (seq 0 10).
Proof. intros Hl. apply in_seq. lia. Qed.

Lemma adm_distinct l j s s' :
  l <= 9 -> j <= 9 ->
  In s ["_REF"; "_PCODE"] -> In s' ["_REF"; "_PCODE"] ->
  adm l s = adm j s' -> l = j /\ s = s'.
Proof.
  intros Hl Hj Hs Hs' E. apply small_cases in Hl, Hj. simpl in *.
  split_cases; subst; try (split; reflexivity); vm_compute in E; discriminate.
Qed.

Lemma adm_not_base l s :
  1 <= l <= 9 -> In s ["_REF"; "_PCODE"] ->
  adm l s <> "alpha_3" /\ adm l s <> "ADM0_REF" /\ adm l s <> "geometry".
Proof.
  intros [Hl1 Hl] Hs. apply small_cases in Hl. simpl in *.
  split_cases; subst; try lia; repeat split; intros E; vm_compute in E;
    discriminate.
Qed.

Lemma fold_levels h fields k :
  forall a (lyrA lyrB : layer G),
    1 <= a -> a + k <= 10 ->
    foldM (harmonize_level h fields) (seq a k) lyrA = Ok lyrB ->
    column_names lyrB =
      fold_left (fun ns l => add_name (adm l "_PCODE") (add_name (adm l "_REF") ns))
        (seq a k) (column_names lyrA) /\
    (forall c, ~ In c (level_fields a k) ->
               column_dtype c lyrB = column_dtype c lyrA) /\
    Forall2
      (fun rA rB =>
         (forall c, ~ In c (level_fields a k) -> get rB c = get rA c) /\
         (forall l, a <= l < a + k ->
            match if_truthy (pcode_field h fields l) with
            | None => get rB (adm l "_PCODE") = CStr ""
            | Some src =>
                ~ In src (level_fields a (l - a)) -> src <> adm l "_REF" ->
                exists t, column_dtype src lyrA = Some t /\
                          stringified rA src t (get rB (adm l "_PCODE"))
            end))
      (rows lyrA) (rows lyrB).
Proof.
  induction k as [|k IH]; intros a lyrA lyrB Ha Hk.
  - simpl. intros [= <-]. repeat split; auto.
    apply Forall2_same. intros r. split; auto. intros l Hl. lia.
  - cbn [seq foldM].
    destruct (harmonize_level h fields a lyrA) as [lyr1|] eqn:E1; [|discriminate].
    cbn [mbind result_bind]. intros E2.
    apply harmonize_level_assigns in E1 as (lyrM & (HnM & HdM & HrM) & (Hn1 & Hd1 & Hr1)).
    apply IH in E2 as (HnB & HdB & HrB); [|lia|lia].
    assert (Hsplit : forall c, ~ In c (level_fields a (S k)) ->
              adm a "_REF" <> c /\ adm a "_PCODE" <> c /\
              ~ In c (level_fields (S a) k)).
    { intros c Hc. unfold level_fields in *. cbn [seq flat_map] in Hc.
      simpl in Hc. intuition. }
    split; [|split].
    + rewrite HnB, Hn1, HnM. reflexivity.
    + intros c Hc. apply Hsplit in Hc as (Hc1 & Hc2 & Hc3).
      rewrite HdB, Hd1, HdM; auto.
    + pose proof (Forall2_compose _ _ _ _ _ HrM Hr1) as HrA1.
      pose proof (Forall2_compose _ _ _ _ _ HrA1 HrB) as HrAB.
      revert HrAB. apply Forall2_weaken.
      intros rA rB (r1 & (rM & (HoM & _) & (Ho1 & Hv1)) & (HoB & HvB)).
      split.
      * intros c Hc. apply Hsplit in Hc as (Hc1 & Hc2 & Hc3).
        rewrite HoB, Ho1, HoM; auto.
      * intros l Hl. destruct (Nat.eq_dec l a) as [->|Hne].
        -- assert (Hp : ~ In (adm a "_PCODE") (level_fields (S a) k)).
           { unfold level_fields. rewrite in_flat_map.
             intros (j & Hj & Hin). apply in_seq in Hj. simpl in Hin.
             split_cases;
               apply adm_distinct in Hin as [? ?]; simpl; auto; try lia;
               discriminate. }
           rewrite (HoB _ Hp).
           destruct (if_truthy (pcode_field h fields a)) as [src|]; [|exact Hv1].
           intros _ Hsrc. destruct Hv1 as (t & Ht & Hs).
           exists t. split.
           ++ rewrite <- Ht. symmetry. apply HdM. congruence.
           ++ apply (stringified_get rA rM); [apply HoM; congruence|exact Hs].
        -- specialize (HvB l ltac:(lia)).
           destruct (if_truthy (pcode_field h fields l)) as [src|]; [|exact HvB].
           intros Hsrc1 Hsrc2.
           assert (Hin : forall x, In x [adm a "_PCODE"; adm a "_REF"] ->
                                   In x (level_fields a (l - a))).
           { intros x Hx. unfold level_fields.
             replace (l - a) with (S (l - a - 1)) by lia.
             cbn [seq flat_map]. apply in_or_app. left. exact Hx. }
           assert (Hsrc3 : ~ In src (level_fields (S a) (l - S a))).
           { intros Hc. apply Hsrc1. unfold level_fields in *.
             replace (l - a) with (S (l - S a)) by lia.
             cbn [seq flat_map]. apply in_or_app. right. exact Hc. }
           destruct (HvB Hsrc3 Hsrc2) as (t & Ht & Hs).
           assert (Hr : adm a "_REF" <> src).
           { intros E. apply Hsrc1, Hin. simpl. auto. }
           assert (Hp : adm a "_PCODE" <> src).
           { intros E. apply Hsrc1, Hin. simpl. auto. }
           exists t. split.
           ++ rewrite <- Ht, Hd1, HdM; auto.
           ++ apply (stringified_get rA r1); [|exact Hs].
              rewrite Ho1, HoM; auto.
Qed.

End Fields.

Lemma level_depth_small level d : level_depth level = Ok d -> d <= 9.
Proof.
  unfold level_depth. destruct (last_char level) as [c|]; [|discriminate].
  cbn [of_option mbind result_bind]. unfold digit_value, is_digit.
  destruct (_ && _) eqn:E; [|discriminate]. intros [= <-].
  apply andb_true_iff in E as [_ E]. apply Nat.leb_le in E. lia.
Qed.

Lemma filter_twice {A} (f g : A -> bool) l :
  List.filter g (List.filter f l) = List.filter (fun x => f x && g x) l.
Proof.
  induction l as [|x l IH]; simpl; auto.
  destruct (f x); simpl; [destruct (g x)|]; rewrite IH; reflexivity.
Qed.

Lemma required_fields_In c d :
  In c (required_fields d) <->
  c = "alpha_3" \/ c = "ADM0_REF" \/
  exists l, 1 <= l <= d /\ (c = adm l "_PCODE" \/ c = adm l "_REF").
Proof.
  unfold required_fields. rewrite in_app_iff, in_flat_map. simpl. split.
  - intros [[E|[E|[]]]|(l & Hl & Hin)]; auto.
    right. right. exists l. apply in_seq in Hl. simpl in Hin.
    split; [lia|]. intuition.
  - intros [E|[E|(l & Hl & Hin)]]; auto.
    right. exists l. split; [apply in_seq; lia|]. simpl. intuition.
Qed.

Lemma level_fields_In c a k :
  In c (level_fields a k) <->
  exists l, a <= l < a + k /\ (c = adm l "_PCODE" \/ c = adm l "_REF").
Proof.
  unfold level_fields. rewrite in_flat_map. split.
  - intros (l & Hl & Hin). exists l. apply in_seq in Hl. simpl in Hin.
    split; [lia|]. intuition.
  - intros (l & Hl & Hin). exists l. split; [apply in_seq; lia|].
    simpl. intuition.
Qed.

Lemma required_not_geometry_like c d :
  d <= 9 -> In c (required_fields d) ->
  geometry_like c = false /\ c <> "geometry".
Proof.
  intros Hd Hc. apply required_fields_In in Hc as [->|[->|(l & Hl & Hc)]].
  - split; [reflexivity|discriminate].
  - split; [reflexivity|discriminate].
  - assert (Hl' : l <= 9) by lia. apply small_cases in Hl'. simpl in Hl'.
    split_cases; subst; try lia; split; try reflexivity; discriminate.
Qed.

Lemma add_name_app c ns :
  exists extra, add_name c ns = ns ++ extra /\ Forall (fun x => x = c) extra.
Proof.
  unfold add_name. destruct (mem c ns).
  - exists []. rewrite app_nil_r. auto.
  - exists [c]. auto.
Qed.

Lemma add_names_app (P : string -> Prop) ls (f g : nat -> string) ns :
  (forall l, In l ls -> P (f l) /\ P (g l)) ->
  exists extra,
    fold_left (fun ns l => add_name (f l) (add_name (g l) ns)) ls ns =
    ns ++ extra /\ Forall P extra.
Proof.
  revert ns. induction ls as [|l ls IH]; intros ns HP; simpl.
  - exists []. rewrite app_nil_r. auto.
  - destruct (add_name_app (g l) ns) as (e1 & -> & H1).
    destruct (add_name_app (f l) (ns ++ e1)) as (e2 & -> & H2).
    destruct (IH ((ns ++ e1) ++ e2)) as (e3 & -> & H3).
    { intros l' Hl'. apply HP. right. exact Hl'. }
    exists (e1 ++ e2 ++ e3). rewrite !app_assoc. split; auto.
    destruct (HP l (or_introl eq_refl)) as [Pf Pg].
    rewrite <- app_assoc.
    repeat (apply Forall_app; split); auto.
    + clear -H1 Pg. induction H1; constructor; subst; auto.
    + clear -H2 Pf. induction H2; constructor; subst; auto.
Qed.

Section Schema.
Context {G : Type} `{Libraries G}.

Lemma names_drop_fields (df : layer G) keep :
  column_names (drop_fields df keep) =
  List.filter (fun c => negb (dropped keep c)) (column_names df).
Proof.
  unfold column_names, drop_fields. cbn [columns].
  induction (columns df) as [|[k v] l IH]; simpl; auto.
  destruct (dropped keep k); simpl; rewrite IH; reflexivity.
Qed.

Lemma get_drop_fields (r : row G) keep c :
  dropped keep c = false ->
  get (filter (fun kv => dropped keep (fst kv) = false) r) c = get r c.
Proof.
  intros Hc. unfold get. rewrite map_lookup_filter.
  destruct (r !! c) as [v|]; simpl; auto.
  rewrite option_guard_True; auto.
Qed.

Lemma nub_incl (l : list (list (cell G))) k : In k (nub l) -> In k l.
Proof.
  induction l as [|x l IH]; simpl; auto.
  intros [E|Hk]; auto. apply filter_In in Hk as [Hk _]. auto.
Qed.

Lemma key_lookup (r : row G) by_ c :
  In c by_ ->
  (list_to_map (zip by_ (by_key by_ r)) : row G) !! c = Some (get r c).
Proof.
  unfold by_key. induction by_ as [|b l IH]; simpl; [tauto|].
  intros Hc. destruct (String.eqb_spec b c) as [->|Hne].
  - apply lookup_insert_eq.
  - rewrite lookup_insert_ne by exact Hne. apply IH.
    destruct Hc; [contradiction|assumption].
Qed.

Lemma names_by_columns by_ (lyr : layer G) :
  map fst (map (fun c => (c, default DObject (column_dtype c lyr))) by_) = by_.
Proof. rewrite map_map. simpl. apply map_id. Qed.

Lemma dissolve_inv by_ (lyr out : layer G) :
  dissolve by_ lyr = Ok out ->
  column_names out =
    by_ ++ "geometry" ::
    List.filter
      (fun c => negb (mem c by_) && negb (String.eqb c "geometry"))
      (column_names lyr) /\
  forall r', In r' (rows out) ->
    exists r, In r (rows lyr) /\
      forall c, In c by_ -> c <> "geometry" -> get r' c = get r c.
Proof.
  unfold dissolve.
  destruct (negb (has_column "geometry" lyr)); [discriminate|].
  destruct (negb (forallb _ by_)); [discriminate|].
  cbv zeta. intros [= <-]. split.
  - unfold column_names. cbn [columns].
    rewrite map_app, names_by_columns. cbn [map fst]. f_equal. f_equal.
    induction (columns lyr) as [|[k v] l IH]; simpl; auto.
    destruct (negb (mem k by_) && negb (String.eqb k "geometry")); simpl;
      rewrite IH; reflexivity.
  - cbn [rows]. intros r' Hr'. apply in_map_iff in Hr' as (k & <- & Hk).
    apply (Permutation_in _ (merge_sort_Permutation _ _)) in Hk.
    apply nub_incl in Hk. apply in_map_iff in Hk as (r & <- & Hr).
    apply filter_In in Hr as [Hr _]. exists r. split; [exact Hr|].
    intros c Hc Hg. unfold get at 1.
    rewrite lookup_insert_ne by congruence.
    rewrite (lookup_union_Some_l _ _ _ _ (key_lookup r by_ c Hc)).
    reflexivity.
Qed.

Lemma names_setitem_scalar c v (lyr : layer G) :
  column_names (setitem_scalar c v lyr) = add_name c (column_names lyr).
Proof. apply names_setitem. Qed.

Lemma calculate_fields_inv h (lyr out : layer G) iso name req level d :
  level_depth level = Ok d ->
  calculate_fields h lyr iso name req level = Ok out ->
  exists lyr3,
    foldM (harmonize_level h (source_fields lyr)) (seq 1 d)
      (setitem_scalar "ADM0_REF" name
         (setitem_scalar "alpha_3" (str_upper iso) lyr)) = Ok lyr3 /\
    dissolve req (drop_fields lyr3 req) = Ok out.
Proof.
  intros Hd. unfold calculate_fields. rewrite Hd. cbv zeta.
  cbn [mbind result_bind].
  rewrite !names_setitem_scalar. fold (source_fields lyr).
  destruct (foldM _ _ _) as [lyr3|] eqn:Ef; [|discriminate].
  cbn [mbind result_bind]. intros E. exists lyr3. auto.
Qed.

Lemma filter_none_In {A} (f : A -> bool) l :
  (forall x, In x l -> f x = false) -> List.filter f l = [].
Proof.
  induction l as [|x l IH]; simpl; intros E; auto.
  rewrite (E x), IH; auto.
Qed.

(** C1, amended. Schema closure: the columns of the layer that
    [calculate_fields] returns are the canonical fields of the level,
    the geometry, and the source columns whose label lower-cases to
    "geometry", which [drop_fields] keeps. *)
Theorem schema_closure_with_geometry_guard h (lyr out : layer G) iso name
    level d :
  level_depth level = Ok d ->
  calculate_fields h lyr iso name (required_fields d) level = Ok out ->
  let kept_by_guard :=
    List.filter (fun c => geometry_like c && negb (String.eqb c "geometry"))
      (column_names lyr) in
  column_names out = required_fields d ++ "geometry" :: kept_by_guard /\
  attribute_names out = required_fields d ++ kept_by_guard.
Proof.
  intros Hd Hc. pose proof (level_depth_small _ _ Hd) as Hd9.
  destruct (calculate_fields_inv _ _ _ _ _ _ _ _ Hd Hc) as (lyr3 & Hf & Hdis).
  apply fold_levels in Hf as (Hn3 & _ & _); [|lia|lia].
  apply dissolve_inv in Hdis as [Hno _].
  set (req := required_fields d) in *.
  assert (Hnames : column_names out =
            req ++ "geometry" ::
            List.filter
              (fun c => geometry_like c && negb (String.eqb c "geometry"))
              (column_names lyr)).
  { rewrite Hno. f_equal. f_equal. rewrite names_drop_fields, filter_twice.
    rewrite Hn3, !names_setitem_scalar.
    destruct (add_name_app "alpha_3" (column_names lyr)) as (e1 & -> & H1).
    destruct (add_name_app "ADM0_REF" (column_names lyr ++ e1))
      as (e2 & -> & H2).
    destruct (add_names_app (fun c => In c req) (seq 1 d)
                (fun l => adm l "_PCODE") (fun l => adm l "_REF")
                ((column_names lyr ++ e1) ++ e2)) as (e3 & -> & H3).
    { intros l Hl. apply in_seq in Hl.
      split; apply required_fields_In; right; right; exists l;
        (split; [lia|auto]). }
    assert (Hextra : Forall (fun c => In c req) (e1 ++ e2 ++ e3)).
    { repeat (apply Forall_app; split); auto.
      - clear -H1. induction H1; constructor; subst; auto.
        apply required_fields_In. auto.
      - clear -H2. induction H2; constructor; subst; auto.
        apply required_fields_In. auto. }
    rewrite <- !app_assoc, List.filter_app.
    rewrite (filter_none_In _ (e1 ++ e2 ++ e3)), app_nil_r.
    - apply filter_pointwise. intros c Hcin. unfold dropped.
      destruct (mem c req) eqn:Em; simpl.
      + apply mem_In in Em.
        destruct (required_not_geometry_like c d Hd9 Em) as [-> _].
        reflexivity.
      + fold (geometry_like c).
        destruct (geometry_like c), (String.eqb c "geometry"); reflexivity.
    - intros c Hcin.
      assert (Hm : mem c req = true).
      { apply mem_In. revert c Hcin. apply List.Forall_forall. exact Hextra. }
      rewrite Hm. rewrite andb_false_r. reflexivity. }
  split; [exact Hnames|]. unfold attribute_names. rewrite Hnames.
  rewrite List.filter_app. cbn [List.filter]. rewrite String.eqb_refl.
  cbn [negb]. f_equal.
  - apply filter_all.
    apply List.Forall_forall. intros c Hcin.
    destruct (required_not_geometry_like c d Hd9 Hcin) as [_ Hne].
    apply negb_true_iff. apply String.eqb_neq. exact Hne.
  - rewrite filter_twice. apply filter_pointwise. intros c _.
    destruct (geometry_like c), (String.eqb c "geometry"); reflexivity.
Qed.

Lemma Forall2_In_r {A B} (P : A -> B -> Prop) l1 l2 b :
  Forall2 P l1 l2 -> In b l2 -> exists a, In a l1 /\ P a b.
Proof.
  induction 1 as [|x y l1 l2 Hxy Hl IH]; simpl; [tauto|].
  intros [<-|Hb].
  - exists x. auto.
  - destruct (IH Hb) as (a & Ha & Pa). exists a. auto.
Qed.

Lemma dropped_required c d :
  In c (required_fields d) -> dropped (required_fields d) c = false.
Proof.
  intros Hc. unfold dropped. apply mem_In in Hc. rewrite Hc. reflexivity.
Qed.

(** C2, amended. Pcode stringification: every record that
    [calculate_fields] returns comes from a source record such that, at
    each depth of the level, its pcode field is the empty text when no
    pcode column is found; when the column found is numeric, the
    decimal numeral of the source value with its fractional part
    dropped, as long as that whole number is a 64-bit integer; and the
    source value itself otherwise. The column found is taken not to be
    another canonical field, which the passes overwrite. *)
Theorem pcode_stringification h (lyr out : layer G) iso name level d :
  level_depth level = Ok d ->
  calculate_fields h lyr iso name (required_fields d) level = Ok out ->
  forall r', In r' (rows out) ->
    exists r, In r (rows lyr) /\
      forall l, 1 <= l <= d ->
        match pcode_source h lyr l with
        | None => get r' (adm l "_PCODE") = CStr ""
        | Some src =>
            (In src (required_fields d) -> src = adm l "_PCODE") ->
            exists t, column_dtype src lyr = Some t /\
                      truncated_text r src t (get r' (adm l "_PCODE"))
        end.
Proof.
  intros Hd Hc r' Hr'. pose proof (level_depth_small _ _ Hd) as Hd9.
  destruct (calculate_fields_inv _ _ _ _ _ _ _ _ Hd Hc) as (lyr3 & Hf & Hdis).
  apply fold_levels in Hf as (_ & _ & Hrows); [|lia|lia].
  apply dissolve_inv in Hdis as [_ Hout].
  destruct (Hout r' Hr') as (r3 & Hr3 & Hget3).
  cbn [drop_fields rows] in Hr3. apply in_map_iff in Hr3 as (r3' & <- & Hr3').
  destruct (Forall2_In_r _ _ _ _ Hrows Hr3') as (r2 & Hr2 & Hother & Hlevels).
  cbn [setitem_scalar setitem rows] in Hr2. rewrite map_map in Hr2.
  apply in_map_iff in Hr2 as (r & <- & Hr).
  exists r. split; [exact Hr|]. intros l Hl.
  assert (Hp : In (adm l "_PCODE") (required_fields d)).
  { apply required_fields_In. right. right. exists l. auto. }
  assert (Hpg : adm l "_PCODE" <> "geometry").
  { apply (required_not_geometry_like _ d Hd9 Hp). }
  rewrite (Hget3 _ Hp Hpg), (get_drop_fields _ _ _ (dropped_required _ _ Hp)).
  specialize (Hlevels l ltac:(lia)). unfold pcode_source.
  destruct (if_truthy (pcode_field h (source_fields lyr) l)) as [src|];
    [|exact Hlevels].
  intros Hsrc.
  assert (Hnot : forall c, In c (required_fields d) ->
                           c <> adm l "_PCODE" -> src <> c).
  { intros c Hcin Hne ->. apply Hne, Hsrc, Hcin. }
  assert (Hl9 : l <= 9) by lia.
  assert (H1 : ~ In src (level_fields 1 (l - 1))).
  { intros Hin. apply level_fields_In in Hin as (j & Hj & Hin).
    assert (Hjreq : In src (required_fields d)).
    { apply required_fields_In. right. right. exists j. split; [lia|exact Hin]. }
    pose proof (Hsrc Hjreq) as E. rewrite E in Hin.
    destruct Hin as [Hin|Hin];
      apply adm_distinct in Hin as [? ?]; simpl; auto; try lia; discriminate. }
  assert (H2 : src <> adm l "_REF").
  { apply Hnot.
    - apply required_fields_In. right. right. exists l. auto.
    - intros E. apply adm_distinct in E as [_ E]; simpl; auto. discriminate. }
  destruct (Hlevels H1 H2) as (t & Ht & Hs).
  assert (Ha : src <> "alpha_3").
  { apply Hnot; [apply required_fields_In; auto|].
    intros E. symmetry in E. revert E.
    apply (adm_not_base l "_PCODE"); simpl; auto; lia. }
  assert (Hb : src <> "ADM0_REF").
  { apply Hnot; [apply required_fields_In; auto|].
    intros E. symmetry in E. revert E.
    apply (adm_not_base l "_PCODE"); simpl; auto; lia. }
  exists t. split.
  - rewrite <- Ht. unfold setitem_scalar.
    rewrite !dtype_setitem_ne by congruence. reflexivity.
  - apply stringified_truncated. revert Hs. apply stringified_get.
    rewrite !get_insert_ne by congruence. reflexivity.
Qed.

End Schema.

(** ** Geometry Harmonizer and Orchestrator *)


Lemma foldM_raise {A S} (f : A -> S -> result S) a l s e :
  f a s = Raise e -> foldM f (a :: l) s = Raise e.
Proof. intros E. simpl. rewrite E. reflexivity. Qed.


Section Driver.
Context {G : Type} `{Libraries G} `{Patterns}.

#[local] Set Warnings "-inexact-float".
(** C9. Simplification tolerance: [update_geometry] simplifies with
    0.0075 divided by the depth of the level from depth 1 on, and with
    0.0075 at depth 0. *)
Theorem simplification_tolerance level d :
  level_depth level = Ok d ->
  (forall (lyr adm0 : layer G) iso,
      update_geometry lyr adm0 iso level =
      (topo ← topology lyr;
       simplified ← toposimplify (tolerance d) topo;
       clip (map_geometry repair simplified) adm0)) /\
  (1 <= d ->
   tolerance d =
   (0.0075 / PrimFloat.of_uint63 (Uint63.of_Z (Z.of_nat d)))%float) /\
  (d = 0 -> tolerance d = 0.0075%float).
Proof.
  intros Hd. split; [|split].
  - intros lyr adm0 iso. unfold update_geometry. rewrite Hd.
    destruct (topology lyr); reflexivity.
  - intros Hpos. unfold tolerance.
    destruct (0 <? d)%nat eqn:E; [reflexivity|]. apply Nat.ltb_ge in E. lia.
  - intros ->. reflexivity.
Qed.
#[local] Set Warnings "inexact-float".

Lemma select_eq_rows c s (lyr lyr' : layer G) :
  select_eq c s lyr = Ok lyr' ->
  rows lyr' = List.filter (fun r => is_text s (get r c)) (rows lyr).
Proof.
  unfold select_eq. destruct (column_dtype c lyr); [|discriminate].
  cbn [of_option mbind result_bind]. intros [= <-]. reflexivity.
Qed.

Lemma dissolve_empty by_ (lyr out : layer G) :
  rows lyr = [] -> dissolve by_ lyr = Ok out -> rows out = [].
Proof.
  intros Hr Hd. destruct (rows out) as [|r' l] eqn:E; [reflexivity|].
  apply dissolve_inv in Hd as [_ Hd].
  destruct (Hd r') as (r & Hin & _); [rewrite E; left; reflexivity|].
  rewrite Hr in Hin. destruct Hin.
Qed.

(** A country code that no admin-0 record carries makes the builder
    raise. *)
Lemma unmatched_country_raises (store : gmap string (layer G)) iso :
  (forall adm0, store !! "adm0_polygon" = Some adm0 ->
     Forall (fun r => is_text iso (get r "ISO_3") = false) (rows adm0)) ->
  exists e, create_national_boundary store iso = Raise e.
Proof.
  intros Hnone. unfold create_national_boundary.
  destruct (store !! "adm0_polygon") as [adm0|]; [|eexists; reflexivity].
  cbn [of_option mbind result_bind].
  destruct (select_eq "ISO_3" iso adm0) as [sel|] eqn:Es; [|eexists; reflexivity].
  cbn [mbind result_bind].
  destruct (store !! "water") as [wat|]; [|eexists; reflexivity].
  cbn [of_option mbind result_bind].
  destruct (dissolve [] (overlay_difference sel wat)) as [dis|] eqn:Ed;
    [|eexists; reflexivity].
  cbn [mbind result_bind].
  apply select_eq_rows in Es. rewrite (filter_nothing _ _ (Hnone adm0 eq_refl)) in Es.
  apply dissolve_empty in Ed; [|cbn [overlay_difference rows]; rewrite Es; reflexivity].
  cbn [setitem_scalar setitem drop_fields rows]. rewrite Ed.
  eexists. reflexivity.
Qed.

(** With a dataset found and the country not left out, a code that no
    admin-0 record carries ends the run, whatever the libraries do. *)
Lemma unmatched_country_ends_run (w : world G) cfg
    (store : gmap string (layer G)) c countries levels do_not_process dataset :
  mem (iso3 c) do_not_process = false ->
  read_from_hdx w
    (default ("cod-em-" ++ str_lower (iso3 c))%string
       (dataset_exceptions cfg !! iso3 c)) = Some dataset ->
  (forall adm0, store !! "adm0_polygon" = Some adm0 ->
     Forall (fun r => is_text (iso3 c) (get r "ISO_3") = false) (rows adm0)) ->
  exists e,
    update_all w cfg store (Some c :: countries) levels do_not_process =
    Raise e.
Proof.
  intros Hm Hds Hnone.
  destruct (unmatched_country_raises store (iso3 c) Hnone) as [e He].
  exists e. unfold update_all. apply foldM_raise.
  unfold update_subnational_boundaries. rewrite Hm. cbv zeta.
  rewrite Hds, He. reflexivity.
Qed.


End Driver.

(** * Further properties of the code *)

(** ** Further properties of the Field Harmonizer *)

Lemma find_field_step_kept possible fields found :
  truthy found = true ->
  fold_left
    (fun found field =>
       if negb (truthy found) && mem (str_upper field) possible
       then Some field else found)
    fields found = found.
Proof.
  intros Ht. induction fields as [|f fields IH]; simpl; auto.
  rewrite Ht. simpl. exact IH.
Qed.

Lemma find_field_step_first possible fields found :
  truthy found = false ->
  if_truthy
    (fold_left
       (fun found field =>
          if negb (truthy found) && mem (str_upper field) possible
          then Some field else found)
       fields found) =
  List.find (fun f => negb (String.eqb f "") && mem (str_upper f) possible)
    fields.
Proof.
  revert found. induction fields as [|f fields IH]; intros found Hf; simpl.
  - unfold if_truthy. rewrite Hf. reflexivity.
  - rewrite Hf. simpl.
    destruct (mem (str_upper f) possible) eqn:Em.
    + destruct (String.eqb f "") eqn:Ee; simpl.
      * apply IH. simpl. rewrite Ee. reflexivity.
      * rewrite find_field_step_kept by (simpl; rewrite Ee; reflexivity).
        unfold if_truthy. simpl. rewrite Ee. reflexivity.
    + rewrite andb_false_r. apply IH. exact Hf.
Qed.

(** X1. The choice of a source column (lines 140-150): the field
    variable ends up true with the exact canonical label when the layer
    has a column of that label (and the label is not empty), and
    otherwise with the first column, in column order, whose label is
    not empty and whose upper case is among the configured variants; it
    stays false when there is none. *)
Theorem find_field_choice exact possible fields :
  if_truthy (find_field exact possible fields) =
  if mem exact fields && negb (String.eqb exact "") then Some exact
  else List.find
         (fun f => negb (String.eqb f "") && mem (str_upper f) possible)
         fields.
Proof.
  unfold find_field. destruct (mem exact fields); simpl.
  - destruct (String.eqb exact "") eqn:Ee; simpl.
    + apply find_field_step_first. simpl. rewrite Ee. reflexivity.
    + rewrite find_field_step_kept by (simpl; rewrite Ee; reflexivity).
      unfold if_truthy. simpl. rewrite Ee. reflexivity.
  - apply find_field_step_first. reflexivity.
Qed.

Section MoreFields.
Context {G : Type} `{Libraries G}.

(** The records that the passes over the depths start from *)
Lemma tagged_rows (lyr : layer G) iso name rA :
  In rA (rows (setitem_scalar "ADM0_REF" name
                 (setitem_scalar "alpha_3" iso lyr))) ->
  exists r, In r (rows lyr) /\
    get rA "alpha_3" = CStr iso /\ get rA "ADM0_REF" = CStr name /\
    forall c, c <> "alpha_3" -> c <> "ADM0_REF" -> get rA c = get r c.
Proof.
  simpl. rewrite map_map. intros Hin.
  apply in_map_iff in Hin as (r & <- & Hr).
  exists r. split; [exact Hr|]. split; [|split].
  - rewrite get_insert_ne by discriminate. apply get_insert_eq.
  - apply get_insert_eq.
  - intros c H1 H2. rewrite !get_insert_ne by congruence. reflexivity.
Qed.

(** A record of the outcome, traced back through [dissolve],
    [drop_fields] and the passes *)
Lemma calculate_fields_trace h (lyr out : layer G) iso name level d :
  level_depth level = Ok d ->
  calculate_fields h lyr iso name (required_fields d) level = Ok out ->
  forall r', In r' (rows out) ->
    exists rA rB,
      In rA (rows (setitem_scalar "ADM0_REF" name
                     (setitem_scalar "alpha_3" (str_upper iso) lyr))) /\
      (forall c, In c (required_fields d) -> get r' c = get rB c) /\
      (forall c, ~ In c (level_fields 1 d) -> get rB c = get rA c).
Proof.
  intros Hd Hc r' Hr'.
  destruct (calculate_fields_inv _ _ _ _ _ _ _ _ Hd Hc) as (lyr3 & Hf & Hdis).
  pose proof (level_depth_small _ _ Hd) as Hsmall.
  destruct (fold_levels h _ d 1 _ _ ltac:(lia) ltac:(lia) Hf) as (_ & _ & HF).
  destruct (dissolve_inv _ _ _ Hdis) as (_ & Hrows).
  destruct (Hrows r' Hr') as (r3 & Hr3 & Hget).
  simpl in Hr3. apply in_map_iff in Hr3 as (rB & <- & HrB).
  destruct (Forall2_In_r _ _ _ _ HF HrB) as (rA & HrA & Hframe & _).
  exists rA, rB. split; [exact HrA|]. split; [|exact Hframe].
  intros c Hc'.
  destruct (required_not_geometry_like c d Hsmall Hc') as [_ Hng].
  rewrite (Hget c Hc' Hng).
  apply get_drop_fields. apply dropped_required. exact Hc'.
Qed.

(** X2. Every record that [calculate_fields] returns carries the
    upper-cased country code in [alpha_3] and the country name in
    [ADM0_REF], whatever the source layer held under those labels. *)
Theorem country_columns h (lyr out : layer G) iso name level d :
  level_depth level = Ok d ->
  calculate_fields h lyr iso name (required_fields d) level = Ok out ->
  Forall (fun r' => get r' "alpha_3" = CStr (str_upper iso) /\
                    get r' "ADM0_REF" = CStr name) (rows out).
Proof.
  intros Hd Hc. apply List.Forall_forall. intros r' Hr'.
  pose proof (level_depth_small _ _ Hd) as Hsmall.
  destruct (calculate_fields_trace _ _ _ _ _ _ _ Hd Hc r' Hr')
    as (rA & rB & HrA & Hreq & Hframe).
  destruct (tagged_rows _ _ _ _ HrA) as (r & _ & Ha & Hn & _).
  assert (Hnot : forall c, c = "alpha_3" \/ c = "ADM0_REF" ->
                           ~ In c (level_fields 1 d)).
  { intros c Hc' Hin. apply level_fields_In in Hin as (l & Hl & Hor).
    assert (Hs : exists s, In s ["_REF"; "_PCODE"] /\ c = adm l s).
    { destruct Hor; [exists "_PCODE"|exists "_REF"]; simpl; auto. }
    destruct Hs as (s & Hs & ->).
    destruct (adm_not_base l s ltac:(lia) Hs) as (? & ? & ?).
    destruct Hc'; congruence. }
  split.
  - rewrite Hreq by (apply required_fields_In; auto).
    rewrite Hframe by (apply Hnot; auto). exact Ha.
  - rewrite Hreq by (apply required_fields_In; auto).
    rewrite Hframe by (apply Hnot; auto). exact Hn.
Qed.

(** One pass, for the name field of its depth *)
Lemma harmonize_level_ref h fields l (lyr lyr' : layer G) :
  1 <= l <= 9 ->
  harmonize_level h fields l lyr = Ok lyr' ->
  Forall2
    (fun r r' =>
       match if_truthy (name_field h fields l) with
       | None => get r' (adm l "_REF") = CStr ""
       | Some src => get r' (adm l "_REF") = get r src
       end)
    (rows lyr) (rows lyr').
Proof.
  intros Hl. unfold harmonize_level.
  set (found := pcode_field h fields l). set (name := name_field h fields l).
  destruct (if truthy name then _ else _) as [lyr1|] eqn:E1; [|discriminate].
  cbn [mbind result_bind]. intros E2.
  assert (Hne : adm l "_PCODE" <> adm l "_REF").
  { intros E. apply adm_distinct in E as [_ E]; simpl; auto; try lia.
    discriminate. }
  assert (H1 : assigns (adm l "_REF")
                 (fun r v => match if_truthy name with
                             | None => v = CStr ""
                             | Some src => v = get r src
                             end) lyr lyr1).
  { unfold if_truthy. destruct (truthy name) eqn:En.
    - rewrite (truthy_Some _ En). apply setitem_column_assigns. exact E1.
    - injection E1 as <-. apply setitem_assigns. }
  assert (H2 : assigns (adm l "_PCODE") (fun _ _ => True) lyr1 lyr').
  { destruct (truthy found) eqn:Ef.
    - destruct (column_dtype (default "" found) lyr1) as [t|]; [|discriminate].
      cbn [of_option mbind result_bind] in E2.
      destruct (is_numeric_dtype t).
      + apply setitem_int_str_assigns in E2. revert E2.
        apply assigns_weaken. auto.
      + apply setitem_column_assigns in E2. revert E2.
        apply assigns_weaken. auto.
    - injection E2 as <-. eapply assigns_weaken; [|apply setitem_assigns].
      auto. }
  destruct H1 as (_ & _ & Hr1). destruct H2 as (_ & _ & Hr2).
  pose proof (Forall2_compose _ _ _ _ _ Hr1 Hr2) as Hr.
  revert Hr. apply Forall2_weaken.
  intros r r' (r1 & (_ & Hv) & (Ho & _)).
  rewrite (Ho _ Hne). exact Hv.
Qed.

Lemma level_fields_head a k c :
  In c [adm a "_PCODE"; adm a "_REF"] -> In c (level_fields a (S k)).
Proof.
  intros Hc. unfold level_fields. cbn [seq flat_map].
  apply in_or_app. left. exact Hc.
Qed.

Lemma level_fields_tail a k c :
  In c (level_fields (S a) k) -> In c (level_fields a (S k)).
Proof.
  intros Hc. unfold level_fields. cbn [seq flat_map].
  apply in_or_app. right. exact Hc.
Qed.

Lemma fold_levels_ref h fields k :
  forall a (lyrA lyrB : layer G),
    1 <= a -> a + k <= 10 ->
    foldM (harmonize_level h fields) (seq a k) lyrA = Ok lyrB ->
    Forall2
      (fun rA rB =>
         forall l, a <= l < a + k ->
           match if_truthy (name_field h fields l) with
           | None => get rB (adm l "_REF") = CStr ""
           | Some src =>
               ~ In src (level_fields a (l - a)) ->
               get rB (adm l "_REF") = get rA src
           end)
      (rows lyrA) (rows lyrB).
Proof.
  induction k as [|k IH]; intros a lyrA lyrB Ha Hk.
  - simpl. intros [= <-]. apply Forall2_same. intros r l Hl. lia.
  - cbn [seq foldM].
    destruct (harmonize_level h fields a lyrA) as [lyr1|] eqn:E1; [|discriminate].
    cbn [mbind result_bind]. intros E2.
    pose proof (harmonize_level_ref h fields a lyrA lyr1 ltac:(lia) E1) as Href.
    apply harmonize_level_assigns in E1
      as (lyrM & (_ & _ & HrM) & (_ & _ & Hr1)).
    pose proof (fold_levels h fields k (S a) lyr1 lyrB ltac:(lia) ltac:(lia) E2)
      as (_ & _ & HrB).
    apply IH in E2; [|lia|lia].
    pose proof (Forall2_compose _ _ _ _ _ HrM Hr1) as HrA1.
    clear HrM Hr1.
    assert (HA1 : Forall2
              (fun rA r1 =>
                 (forall c, adm a "_REF" <> c -> adm a "_PCODE" <> c ->
                            get r1 c = get rA c) /\
                 match if_truthy (name_field h fields a) with
                 | None => get r1 (adm a "_REF") = CStr ""
                 | Some src => get r1 (adm a "_REF") = get rA src
                 end) (rows lyrA) (rows lyr1)).
    { clear - HrA1 Href. revert Href.
      induction HrA1 as [|rA r1 lA l1 (rM & (HoM & _) & (Ho1 & _)) _ IH'];
        intros Href; inversion Href; subst; constructor; auto.
      split; auto. intros c Hc1 Hc2. rewrite Ho1, HoM; auto. }
    clear HrA1 Href.
    assert (H1B : Forall2
              (fun r1 rB =>
                 (forall c, ~ In c (level_fields (S a) k) ->
                            get rB c = get r1 c) /\
                 forall l, S a <= l < S a + k ->
                   match if_truthy (name_field h fields l) with
                   | None => get rB (adm l "_REF") = CStr ""
                   | Some src =>
                       ~ In src (level_fields (S a) (l - S a)) ->
                       get rB (adm l "_REF") = get r1 src
                   end) (rows lyr1) (rows lyrB)).
    { clear - HrB E2. revert E2.
      induction HrB as [|r1 rB l1 lB (Ho & _) _ IH'];
        intros E2; inversion E2; subst; constructor; auto. }
    clear HrB E2.
    pose proof (Forall2_compose _ _ _ _ _ HA1 H1B) as HAB.
    revert HAB. apply Forall2_weaken.
    intros rA rB (r1 & (Ho1 & Hv1) & (HoB & HvB)) l Hl.
    destruct (Nat.eq_dec l a) as [->|Hne].
    + assert (Hp : ~ In (adm a "_REF") (level_fields (S a) k)).
      { unfold level_fields. rewrite in_flat_map.
        intros (j & Hj & Hin). apply in_seq in Hj. simpl in Hin.
        split_cases;
          apply adm_distinct in Hin as [? ?]; simpl; auto; try lia;
          discriminate. }
      rewrite (HoB _ Hp).
      destruct (if_truthy (name_field h fields a)); auto.
    + specialize (HvB l ltac:(lia)).
      destruct (if_truthy (name_field h fields l)) as [src|]; [|exact HvB].
      intros Hsrc. replace (l - a) with (S (l - S a)) in Hsrc by lia.
      rewrite HvB by (intros Hc; apply Hsrc, level_fields_tail, Hc).
      apply Ho1; intros E; apply Hsrc, level_fields_head; rewrite <- E;
        simpl; auto.
Qed.

Lemma Forall2_both {A B} (P Q : A -> B -> Prop) l1 l2 :
  Forall2 P l1 l2 -> Forall2 Q l1 l2 ->
  Forall2 (fun a b => P a b /\ Q a b) l1 l2.
Proof.
  intros HP. induction HP; intros HQ; inversion HQ; subst; constructor; auto.
Qed.

Lemma required_fields_split d :
  required_fields d = ["alpha_3"; "ADM0_REF"] ++ level_fields 1 d.
Proof. reflexivity. Qed.

(** X3. Names and pcodes come from one source record: every record
    that [calculate_fields] returns stems from a source record that
    supplies, at each depth, both its name field (the empty text when
    no name column is found, else the value of the column found) and
    its pcode field (the empty text when no pcode column is found; for
    a numeric column the decimal numeral of the value with its
    fractional part dropped, as long as that is a 64-bit integer; else
    the value itself). The column found is taken not to be a canonical
    field of a shallower depth, nor the country fields, which are
    overwritten before it is read. *)
Theorem one_source_record h (lyr out : layer G) iso name level d :
  level_depth level = Ok d ->
  calculate_fields h lyr iso name (required_fields d) level = Ok out ->
  forall r', In r' (rows out) ->
    exists r, In r (rows lyr) /\
      forall l, 1 <= l <= d ->
        match name_source h lyr l with
        | None => get r' (adm l "_REF") = CStr ""
        | Some src =>
            ~ In src (required_fields (l - 1)) ->
            get r' (adm l "_REF") = get r src
        end /\
        match pcode_source h lyr l with
        | None => get r' (adm l "_PCODE") = CStr ""
        | Some src =>
            ~ In src (required_fields (l - 1)) -> src <> adm l "_REF" ->
            exists t, column_dtype src lyr = Some t /\
                      truncated_text r src t (get r' (adm l "_PCODE"))
        end.
Proof.
  intros Hd Hc r' Hr'.
  destruct (calculate_fields_inv _ _ _ _ _ _ _ _ Hd Hc) as (lyr3 & Hf & Hdis).
  pose proof (level_depth_small _ _ Hd) as Hsmall.
  pose proof (fold_levels h _ d 1 _ _ ltac:(lia) ltac:(lia) Hf)
    as (_ & _ & HF).
  pose proof (fold_levels_ref h _ d 1 _ _ ltac:(lia) ltac:(lia) Hf) as HR.
  pose proof (Forall2_both _ _ _ _ HF HR) as HB. clear HF HR.
  destruct (dissolve_inv _ _ _ Hdis) as (_ & Hrows).
  destruct (Hrows r' Hr') as (r3 & Hr3 & Hget).
  simpl in Hr3. apply in_map_iff in Hr3 as (rB & <- & HrB).
  destruct (Forall2_In_r _ _ _ _ HB HrB) as (rA & HrA & (_ & Hp) & Hn).
  destruct (tagged_rows _ _ _ _ HrA) as (r & Hr & _ & _ & Hsame).
  exists r. split; [exact Hr|]. intros l Hl.
  assert (Hreq : forall s, In s ["_REF"; "_PCODE"] ->
            get r' (adm l s) =
            get rB (adm l s)).
  { intros s Hs.
    assert (Hin : In (adm l s) (required_fields d)).
    { apply required_fields_In. right. right. exists l. split; [lia|].
      simpl in Hs. split_cases; subst; auto. }
    destruct (required_not_geometry_like _ d Hsmall Hin) as [_ Hng].
    rewrite (Hget _ Hin Hng). apply get_drop_fields, dropped_required, Hin. }
  assert (Hsrc : forall src, ~ In src (required_fields (l - 1)) ->
            ~ In src (level_fields 1 (l - 1)) /\ get rA src = get r src).
  { intros src Hs. rewrite required_fields_split in Hs. split.
    - intros Hc'. apply Hs. apply in_or_app. right. exact Hc'.
    - apply Hsame; intros ->; apply Hs; simpl; auto. }
  split.
  - specialize (Hn l ltac:(lia)). unfold name_source.
    fold (source_fields lyr) in Hn.
    rewrite (Hreq "_REF") by (simpl; auto).
    destruct (if_truthy (name_field h (source_fields lyr) l)) as [src|];
      [|exact Hn].
    intros Hs. destruct (Hsrc _ Hs) as [Hs1 <-]. apply Hn. exact Hs1.
  - specialize (Hp l ltac:(lia)). unfold pcode_source.
    fold (source_fields lyr) in Hp.
    rewrite (Hreq "_PCODE") by (simpl; auto).
    destruct (if_truthy (pcode_field h (source_fields lyr) l)) as [src|];
      [|exact Hp].
    intros Hs Hs'. destruct (Hsrc _ Hs) as [Hs1 Hs2].
    destruct (Hp Hs1 Hs') as (t & Ht & Hst).
    exists t. split.
    + rewrite <- Ht. symmetry.
      unfold setitem_scalar. rewrite !dtype_setitem_ne; auto;
        intros <-; apply Hs; simpl; auto.
    + apply stringified_truncated.
      apply (stringified_get r rA); [exact Hs2|exact Hst].
Qed.

Lemma Forall2_In_l {A B} (P : A -> B -> Prop) l1 l2 a :
  Forall2 P l1 l2 -> In a l1 -> exists b, In b l2 /\ P a b.
Proof.
  induction 1 as [|x y l1 l2 Hxy _ IH]; intros Hin; [destruct Hin|].
  destruct Hin as [<-|Hin].
  - exists y. split; [left; reflexivity|exact Hxy].
  - destruct (IH Hin) as (b & Hb & HP). exists b. split; [right|]; auto.
Qed.

(** X4. A value missing from a numeric pcode column makes
    [calculate_fields] raise: the cast of the column to integers
    refuses it, and nothing is returned for the level. *)
Theorem missing_number_raises h (lyr : layer G) iso name level d l src t r :
  level_depth level = Ok d ->
  1 <= l <= d ->
  pcode_source h lyr l = Some src ->
  ~ In src (required_fields (l - 1)) -> src <> adm l "_REF" ->
  column_dtype src lyr = Some t -> is_numeric_dtype t = true ->
  In r (rows lyr) -> is_null (get r src) = true ->
  exists e,
    calculate_fields h lyr iso name (required_fields d) level = Raise e.
Proof.
  intros Hd Hl Hsrc Hs Hs' Ht Hnum Hr Hnull.
  destruct (calculate_fields h lyr iso name (required_fields d) level)
    as [out|e] eqn:Hc; [exfalso|exists e; reflexivity].
  destruct (calculate_fields_inv _ _ _ _ _ _ _ _ Hd Hc) as (lyr3 & Hf & _).
  pose proof (level_depth_small _ _ Hd) as Hsmall.
  pose proof (fold_levels h _ d 1 _ _ ltac:(lia) ltac:(lia) Hf)
    as (_ & _ & HF).
  set (rA := <["ADM0_REF" := CStr name]>
               (<["alpha_3" := CStr (str_upper iso)]> r)).
  assert (HrA : In rA (rows (setitem_scalar "ADM0_REF" name
                  (setitem_scalar "alpha_3" (str_upper iso) lyr)))).
  { simpl. rewrite map_map. apply in_map_iff. exists r. split; auto. }
  destruct (Forall2_In_l _ _ _ _ HF HrA) as (rB & _ & _ & Hp).
  specialize (Hp l ltac:(lia)). unfold pcode_source in Hsrc.
  fold (source_fields lyr) in Hp. rewrite Hsrc in Hp.
  rewrite required_fields_split in Hs.
  assert (Hbase : "alpha_3" <> src /\ "ADM0_REF" <> src).
  { split; intros <-; apply Hs; simpl; auto. }
  destruct Hp as (t' & Ht' & Hst); auto.
  { intros Hin. apply Hs. apply in_or_app. right. exact Hin. }
  unfold setitem_scalar in Ht'.
  rewrite !dtype_setitem_ne in Ht' by tauto.
  rewrite Ht in Ht'. injection Ht' as <-.
  unfold stringified in Hst. rewrite Hnum in Hst.
  destruct Hst as (q & Hq & _). subst rA.
  rewrite !get_insert_ne in Hq by tauto.
  rewrite Hq in Hnull. discriminate.
Qed.

(** *** One record for each combination of canonical values *)

Lemma cell_eqb_sym (a b : cell G) : cell_eqb a b = cell_eqb b a.
Proof.
  destruct a, b; simpl; auto.
  - apply String.eqb_sym.
  - unfold Qeq_bool. apply Z.eqb_sym.
  - apply bool_decide_ext. split; congruence.
Qed.

Lemma tuple_eqb_sym (a b : list (cell G)) : tuple_eqb a b = tuple_eqb b a.
Proof.
  revert b. induction a as [|x a IH]; intros [|y b]; simpl; auto.
  rewrite cell_eqb_sym, IH. reflexivity.
Qed.

Lemma pairs_filter {A} (R : A -> A -> Prop) (f : A -> bool) l :
  ForallOrdPairs R l -> ForallOrdPairs R (List.filter f l).
Proof.
  induction 1 as [|a l Ha _ IH]; simpl; [constructor|].
  destruct (f a); [|exact IH]. constructor; [|exact IH].
  apply List.Forall_forall. intros x Hx. apply filter_In in Hx as [Hx _].
  revert x Hx. apply List.Forall_forall. exact Ha.
Qed.

Lemma pairs_Permutation {A} (R : A -> A -> Prop) l l' :
  (forall a b, R a b -> R b a) ->
  Permutation l l' -> ForallOrdPairs R l -> ForallOrdPairs R l'.
Proof.
  intros Hsym. induction 1 as [|x l l' Hp IH|x y l|l l' l'' _ IH1 _ IH2];
    intros HF; auto.
  - inversion HF; subst. constructor; auto.
    eapply Permutation_Forall; eauto.
  - inversion HF as [|? ? Hy Hxl]; subst.
    inversion Hxl as [|? ? Hx Hl]; subst.
    inversion Hy; subst.
    constructor; [constructor; auto|constructor; auto].
Qed.

Lemma pairs_map {A B} (R : B -> B -> Prop) (g : A -> B) l :
  ForallOrdPairs R (map g l) -> ForallOrdPairs (fun a b => R (g a) (g b)) l.
Proof.
  induction l as [|a l IH]; intros HF; [constructor|].
  inversion HF as [|? ? Ha Hl]; subst. constructor; auto.
  apply List.Forall_forall. intros x Hx.
  rewrite List.Forall_forall in Ha. apply Ha. apply in_map. exact Hx.
Qed.

Lemma nub_pairs (l : list (list (cell G))) :
  ForallOrdPairs (fun a b => tuple_eqb a b = false) (nub l).
Proof.
  induction l as [|k l IH]; simpl; constructor.
  - apply List.Forall_forall. intros x Hx. apply filter_In in Hx as [_ Hx].
    apply negb_true_iff. exact Hx.
  - apply pairs_filter. exact IH.
Qed.

Lemma dissolve_keys by_ (lyr out : layer G) :
  ~ In "geometry" by_ ->
  dissolve by_ lyr = Ok out ->
  exists kept,
    incl kept (rows lyr) /\
    Permutation (map (by_key by_) (rows out)) (nub (map (by_key by_) kept)) /\
    Forall (fun r => forallb (fun c => negb (is_null c)) (by_key by_ r) = true)
      kept.
Proof.
  intros Hg. unfold dissolve.
  destruct (negb (has_column "geometry" lyr)); [discriminate|].
  destruct (negb (forallb _ by_)); [discriminate|].
  intros [= <-].
  set (kept := List.filter _ (rows lyr)).
  exists kept. split; [|split].
  - intros r Hr. apply filter_In in Hr as [Hr _]. exact Hr.
  - cbn [rows]. rewrite map_map.
    set (keys := merge_sort tuple_le (nub (map (by_key by_) kept))).
    assert (Hkeys : forall k, In k keys -> exists r, k = by_key by_ r).
    { intros k Hk. subst keys.
      apply (Permutation_in _ (merge_sort_Permutation _ _)) in Hk.
      apply nub_incl in Hk. apply in_map_iff in Hk as (r & <- & _).
      exists r. reflexivity. }
    rewrite (map_ext_in _ id).
    + rewrite map_id. apply merge_sort_Permutation.
    + intros k Hk. destruct (Hkeys k Hk) as (r & ->). unfold id.
      unfold by_key at 1. apply map_ext_in. intros c Hc. unfold get.
      rewrite lookup_insert_ne by (intros <-; contradiction).
      erewrite lookup_union_Some_l; [reflexivity|].
      apply key_lookup. exact Hc.
  - apply List.Forall_forall. intros r Hr. apply filter_In in Hr as [_ Hr].
    exact Hr.
Qed.

(** X5. The layer that [calculate_fields] returns has one record for
    each combination of canonical values: no canonical field of a
    record is null (the dissolve leaves out the records with a null
    key), and no two records agree on all the canonical fields. *)
Theorem one_record_per_key h (lyr out : layer G) iso name level d :
  level_depth level = Ok d ->
  calculate_fields h lyr iso name (required_fields d) level = Ok out ->
  Forall (fun r' => Forall (fun c => is_null (get r' c) = false)
                      (required_fields d)) (rows out) /\
  ForallOrdPairs
    (fun r1 r2 => tuple_eqb (by_key (required_fields d) r1)
                    (by_key (required_fields d) r2) = false)
    (rows out).
Proof.
  intros Hd Hc.
  destruct (calculate_fields_inv _ _ _ _ _ _ _ _ Hd Hc) as (lyr3 & _ & Hdis).
  pose proof (level_depth_small _ _ Hd) as Hsmall.
  assert (Hg : ~ In "geometry" (required_fields d)).
  { intros Hin. apply (required_not_geometry_like _ d Hsmall) in Hin.
    tauto. }
  destruct (dissolve_keys _ _ _ Hg Hdis) as (kept & _ & Hperm & Hnn).
  split.
  - apply List.Forall_forall. intros r' Hr'.
    assert (Hk : In (by_key (required_fields d) r')
                   (map (by_key (required_fields d)) kept)).
    { apply nub_incl. apply (Permutation_in _ Hperm). apply in_map.
      exact Hr'. }
    apply in_map_iff in Hk as (r & Hk & Hr).
    rewrite List.Forall_forall in Hnn. specialize (Hnn r Hr).
    rewrite Hk in Hnn. unfold by_key in Hnn. rewrite forallb_forall in Hnn.
    apply List.Forall_forall. intros c Hc'.
    apply negb_true_iff. apply Hnn. apply in_map. exact Hc'.
  - apply (pairs_map (fun a b => tuple_eqb a b = false)
             (by_key (required_fields d))).
    apply (pairs_Permutation _ (nub (map (by_key (required_fields d)) kept))).
    + intros a b. rewrite tuple_eqb_sym. auto.
    + symmetry. exact Hperm.
    + apply nub_pairs.
Qed.

End MoreFields.

Lemma incl_add_name c ns : incl ns (add_name c ns) /\ In c (add_name c ns).
Proof.
  unfold add_name. destruct (mem c ns) eqn:Em.
  - split; [apply incl_refl|apply mem_In; exact Em].
  - split; [apply incl_appl, incl_refl|].
    apply in_or_app. right. left. reflexivity.
Qed.

(** *** [drop_fields] applied twice *)

Lemma mem_filter c (f : string -> bool) l :
  mem c (List.filter f l) = mem c l && f c.
Proof.
  induction l as [|a l IH]; simpl; [reflexivity|].
  destruct (f a) eqn:Ea; simpl; rewrite IH.
  - destruct (String.eqb_spec c a) as [->|_]; simpl; [|reflexivity].
    rewrite Ea. reflexivity.
  - destruct (String.eqb_spec c a) as [->|_]; simpl; [|reflexivity].
    rewrite Ea. rewrite andb_false_r. reflexivity.
Qed.

Lemma dropped_both k1 k2 c :
  dropped (List.filter (fun c => mem c k2) k1) c =
  dropped k1 c || dropped k2 c.
Proof.
  unfold dropped. rewrite mem_filter.
  destruct (mem c k1), (mem c k2), (String.eqb (str_lower c) "geometry");
    reflexivity.
Qed.

Lemma filter_mem_self k : List.filter (fun c => mem c k) k = k.
Proof.
  apply filter_all. apply List.Forall_forall. intros c Hc.
  apply mem_In. exact Hc.
Qed.

Section Dropping.
Context {G : Type} `{Libraries G}.

(** X7. [drop_fields] composes: dropping with one list of fields to
    keep and then with another is dropping once with the fields that
    are in both, and dropping twice with the same list is dropping
    once. *)
Theorem drop_fields_twice (df : layer G) k1 k2 :
  drop_fields (drop_fields df k1) k2 =
  drop_fields df (List.filter (fun c => mem c k2) k1) /\
  drop_fields (drop_fields df k1) k1 = drop_fields df k1.
Proof.
  assert (Hgen : forall k2,
             drop_fields (drop_fields df k1) k2 =
             drop_fields df (List.filter (fun c => mem c k2) k1)).
  { clear k2. intros k2. unfold drop_fields. cbn [columns rows]. f_equal.
    - rewrite filter_twice. apply filter_pointwise. intros p _.
      rewrite dropped_both. rewrite negb_orb. reflexivity.
    - rewrite map_map. apply map_ext. intros r.
      rewrite map_filter_filter. apply map_filter_ext.
      intros c v _. simpl. rewrite dropped_both.
      rewrite orb_false_iff. tauto. }
  split; [apply Hgen|]. rewrite Hgen, filter_mem_self. reflexivity.
Qed.

End Dropping.

(** ** The order of the candidates *)

Lemma existsb_Permutation {A} (f : A -> bool) l l' :
  Permutation l l' -> existsb f l = existsb f l'.
Proof.
  induction 1; simpl; auto.
  - congruence.
  - destruct (f x), (f y); reflexivity.
  - congruence.
Qed.

Lemma keep_level_named_Permutation n l l' :
  Permutation l l' ->
  Permutation (keep_level_named n l) (keep_level_named n l').
Proof.
  intros Hp. unfold keep_level_named.
  rewrite (existsb_Permutation id _ _ (Permutation_map _ Hp)).
  destruct (existsb id _); [apply filter_Permutation|]; exact Hp.
Qed.

Lemma drop_simplified_Permutation l l' :
  Permutation l l' ->
  Permutation (drop_simplified l) (drop_simplified l').
Proof.
  intros Hp. unfold drop_simplified.
  rewrite (existsb_Permutation id _ _ (Permutation_map _ Hp)).
  destruct (existsb id _); [apply filter_Permutation|]; exact Hp.
Qed.

Lemma only_one_Permutation {A B} (l l' : list A) (one : A -> B) (other : B) :
  Permutation l l' ->
  match l with [b] => one b | _ => other end =
  match l' with [b] => one b | _ => other end.
Proof.
  intros Hp. pose proof (Permutation_length Hp) as Hlen.
  destruct l as [|a [|a2 l]].
  - apply Permutation_nil in Hp. subst. reflexivity.
  - apply Permutation_length_1_inv in Hp. subst. reflexivity.
  - destruct l' as [|b [|b2 l']]; simpl in Hlen; try discriminate.
    reflexivity.
Qed.

(** X8. The shapefile selected does not depend on the order in which
    the files of the archive are listed: two archives with the same
    paths in different orders give the same outcome of
    [find_shapefile]. *)
Theorem selection_ignores_order iso r r' level paths paths' :
  res_payload r = Archive paths ->
  res_payload r' = Archive paths' ->
  Permutation paths paths' ->
  find_shapefile iso r level = find_shapefile iso r' level.
Proof.
  intros Hr Hr' Hp. unfold find_shapefile. rewrite Hr, Hr'.
  pose proof (Permutation_length Hp) as Hlen.
  unfold choose_shapefile.
  destruct paths as [|a paths].
  { apply Permutation_nil in Hp. subst. reflexivity. }
  destruct paths' as [|a' paths']; [discriminate|].
  rewrite <- Hlen.
  destruct (1 <? length (a :: paths))%nat.
  - destruct (last_char level) as [n|]; [|reflexivity].
    cbn [of_option mbind result_bind].
    pose proof (keep_level_named_Permutation n _ _ Hp) as Hk.
    rewrite <- (Permutation_length Hk).
    destruct (1 <? length (keep_level_named n (a :: paths)))%nat.
    + apply (only_one_Permutation _ _ (fun b => Ok (Selected b))
               (Ok (NoFile CouldNotDistinguish))). apply drop_simplified_Permutation.
      exact Hk.
    + apply (only_one_Permutation _ _ (fun b => Ok (Selected b))
               (Ok (NoFile CouldNotDistinguish))). exact Hk.
  - cbn [mbind result_bind]. rewrite <- Hlen.
    destruct (1 <? length (a :: paths))%nat.
    + apply (only_one_Permutation _ _ (fun b => Ok (Selected b))
               (Ok (NoFile CouldNotDistinguish))).
      apply drop_simplified_Permutation. exact Hp.
    + exact (only_one_Permutation (a :: paths) (a' :: paths')
               (fun b => Ok (Selected b))
               (Ok (NoFile CouldNotDistinguish)) Hp).
Qed.

Lemma filterM_raises {A} (f : A -> result bool) (g : A -> bool) e l :
  Forall (fun x => f x = if g x then Raise e else Ok false) l ->
  filterM f l = if existsb g l then Raise e else Ok [].
Proof.
  induction 1 as [|x l Hx _ IH]; [reflexivity|].
  cbn [filterM existsb]. rewrite Hx.
  destruct (g x); [reflexivity|]. cbn [mbind result_bind orb].
  rewrite IH. destruct (existsb g l); reflexivity.
Qed.

Lemma find_resource_Permutation `{Patterns} exc iso ds ds' level :
  Permutation ds ds' ->
  match find_resource exc iso ds level, find_resource exc iso ds' level with
  | Ok l, Ok l' => Permutation l l'
  | Raise e, Raise e' => e = e'
  | _, _ => False
  end.
Proof.
  intros Hp. unfold find_resource.
  destruct (token_matcher (resource_token exc iso)) as [test|e] eqn:Et.
  - set (f := fun r => is_shp r && test (res_name r)).
    rewrite !(filterM_filter _ f).
    + cbn [mbind result_bind].
      pose proof (filter_Permutation f _ _ Hp) as Hf.
      rewrite <- (Permutation_length Hf).
      destruct (1 <? length (List.filter f ds))%nat; [|exact Hf].
      destruct (last_char level) as [n|]; [|reflexivity].
      cbn [of_option mbind result_bind]. apply filter_Permutation. exact Hf.
    + apply List.Forall_forall. intros r _. unfold f.
      destruct (is_shp r); reflexivity.
    + apply List.Forall_forall. intros r _. unfold f.
      destruct (is_shp r); reflexivity.
  - rewrite !(filterM_raises _ is_shp e).
    + rewrite (existsb_Permutation is_shp _ _ Hp).
      destruct (existsb is_shp ds'); [reflexivity|]. cbn. constructor.
    + apply List.Forall_forall. intros r _. destruct (is_shp r); reflexivity.
    + apply List.Forall_forall. intros r _. destruct (is_shp r); reflexivity.
Qed.

Section Order.
Context {G : Type} `{Libraries G} `{Patterns}.

(** X9. The processing of a level does not depend on the order in
    which the dataset lists its resources. *)
Theorem resources_order_free (w : world G) cfg c ds ds' adm0 level store :
  Permutation ds ds' ->
  process_level w cfg c ds adm0 level store =
  process_level w cfg c ds' adm0 level store.
Proof.
  intros Hp. unfold process_level.
  destruct (level_depth level) as [d|]; [|reflexivity].
  cbn [mbind result_bind].
  pose proof (find_resource_Permutation (resource_exceptions cfg) (iso3 c)
                _ _ level Hp) as Hf.
  destruct (find_resource _ _ ds level) as [l|e],
           (find_resource _ _ ds' level) as [l'|e']; try contradiction.
  - cbn [mbind result_bind].
    pose proof (Permutation_length Hf) as Hlen.
    destruct l as [|a [|a2 l]].
    + apply Permutation_nil in Hf. subst. reflexivity.
    + apply Permutation_length_1_inv in Hf. subst. reflexivity.
    + destruct l' as [|b [|b2 l']]; simpl in Hlen; try discriminate.
      reflexivity.
  - subst. reflexivity.
Qed.

End Order.

(** ** National Boundary Builder *)

Section National.
Context {G : Type} `{Libraries G}.





End National.

(** ** More of the Global Merger and the Orchestrator *)

Lemma foldM_related {A S} (f : A -> S -> result S) (R : S -> S -> Prop) l :
  (forall s, R s s) ->
  (forall s1 s2 s3, R s1 s2 -> R s2 s3 -> R s1 s3) ->
  (forall a s s', In a l -> f a s = Ok s' -> R s s') ->
  forall s s', foldM f l s = Ok s' -> R s s'.
Proof.
  intros Hrefl Htrans. induction l as [|a l IH]; intros Hf s s'.
  - simpl. intros [= <-]. apply Hrefl.
  - cbn [foldM]. destruct (f a s) as [s1|] eqn:E1; [|discriminate].
    cbn [mbind result_bind]. intros E2.
    apply (Htrans _ s1).
    + apply (Hf a); [left; reflexivity|exact E1].
    + apply IH; [|exact E2]. intros b t t' Hb. apply Hf. right. exact Hb.
Qed.

Lemma filter_swap {A} (f g : A -> bool) l :
  List.filter f (List.filter g l) = List.filter g (List.filter f l).
Proof.
  rewrite !filter_twice. apply filter_pointwise. intros x _.
  apply andb_comm.
Qed.

Section Merges.
Context {G : Type} `{Libraries G} `{Patterns}.

Lemma other_country iso iso' (lyr : layer G) :
  iso <> iso' ->
  Forall (fun r => get r "alpha_3" = CStr iso) (rows lyr) ->
  List.filter (fun r => negb (of_country iso' r)) (rows lyr) = rows lyr.
Proof.
  intros Hne Hl. apply filter_all. revert Hl. apply List.Forall_impl.
  intros r Hr. unfold of_country. rewrite Hr. simpl.
  apply negb_true_iff. apply String.eqb_neq. exact Hne.
Qed.

(** Layers with the same dtypes promote the columns of a partition in
    the same way, whichever is appended first. *)
Lemma promoted_alike (p a b : list (string * dtype)) c :
  (forall c, assoc c a = assoc c b) ->
  promoted p (append_columns p a) c = promoted p (append_columns p b) c.
Proof.
  intros E. unfold promoted. rewrite !assoc_append_columns, (E c).
  reflexivity.
Qed.

Lemma promoted_before (p a b : list (string * dtype)) c :
  (forall c, assoc c a = assoc c b) ->
  promoted (append_columns p a) (append_columns (append_columns p a) b) c =
  false.
Proof.
  intros E. unfold promoted. rewrite !assoc_append_columns, (E c).
  destruct (assoc c p) as [[]|], (assoc c b) as [[]|]; reflexivity.
Qed.

Lemma promoted_after (p a b : list (string * dtype)) c :
  (forall c, assoc c a = assoc c b) ->
  promoted b (append_columns (append_columns p a) b) c =
  promoted b (append_columns p b) c.
Proof.
  intros E. unfold promoted. rewrite !assoc_append_columns, (E c).
  destruct (assoc c p) as [[]|], (assoc c b) as [[]|]; reflexivity.
Qed.

Lemma merged_then_merged (part lyrA lyrB : layer G) isoA isoB n :
  isoA <> isoB ->
  (forall c, column_dtype c lyrA = column_dtype c lyrB) ->
  Forall (fun r => get r "alpha_3" = CStr isoA) (rows lyrA) ->
  Permutation
    (rows (merged (merged part lyrA isoA n) lyrB isoB n))
    (map (kept part lyrA)
       (List.filter (fun r => negb (of_country isoB r))
          (List.filter (fun r => negb (of_country isoA r)) (rows part))) ++
     map (appended part lyrA) (rows lyrA) ++
     map (appended part lyrB) (rows lyrB)).
Proof.
  intros Hne Hc HA.
  rewrite merged_rows.
  rewrite (filter_Permutation _ _ _ (merged_rows part lyrA isoA n)).
  rewrite List.filter_app.
  assert (HA' : Forall (fun r => get r "alpha_3" = CStr isoA)
                  (map (appended part lyrA) (rows lyrA))).
  { apply Forall_map. revert HA. apply List.Forall_impl. intros r Hr.
    apply cast_row_carries. exact Hr. }
  pose proof (other_country isoA isoB
                {| columns := []; rows := map (appended part lyrA) (rows lyrA) |}
                Hne HA') as Ho.
  cbn [rows] in Ho. rewrite Ho.
  unfold kept at 2. rewrite filter_others_cast. fold (kept part lyrA).
  assert (Hk : forall l : list (row G),
            map (kept (merged part lyrA isoA n) lyrB) l = l).
  { intros l. unfold kept. apply map_cast_none. intros c.
    cbn [merged columns]. apply promoted_before.
    intros c'. apply (Hc c'). }
  rewrite Hk, <- app_assoc. do 2 apply Permutation_app_head.
  apply Permutation_refl'. apply map_ext. intros r. unfold appended.
  apply cast_row_same. intros c. cbn [merged columns].
  apply promoted_after. intros c'. apply (Hc c').
Qed.

(** X11. Merges of two countries commute: merging the layers of two
    different countries, whose columns have the same dtypes, into a
    partition in either order gives the same records up to their
    order, and the same other partitions. *)
Theorem merges_commute (store s1 s2 t1 t2 : gmap string (layer G))
    lyrA lyrB isoA isoB level geom_type :
  isoA <> isoB ->
  (forall c, column_dtype c lyrA = column_dtype c lyrB) ->
  Forall (fun r => get r "alpha_3" = CStr isoA) (rows lyrA) ->
  Forall (fun r => get r "alpha_3" = CStr isoB) (rows lyrB) ->
  replace_country_boundaries store lyrA isoA level geom_type = Ok s1 ->
  replace_country_boundaries s1 lyrB isoB level geom_type = Ok s2 ->
  replace_country_boundaries store lyrB isoB level geom_type = Ok t1 ->
  replace_country_boundaries t1 lyrA isoA level geom_type = Ok t2 ->
  (exists p q,
      s2 !! partition_key level geom_type = Some p /\
      t2 !! partition_key level geom_type = Some q /\
      Permutation (rows p) (rows q)) /\
  (forall k, k <> partition_key level geom_type -> s2 !! k = t2 !! k).
Proof.
  intros Hne Hc HA HB E1 E2 E3 E4.
  apply replace_inv in E1 as (part & n & Hp & Hn & ->).
  apply replace_inv in E2 as (part1 & n1 & Hp1 & Hn1 & ->).
  apply replace_inv in E3 as (part' & n' & Hp' & Hn' & ->).
  apply replace_inv in E4 as (part2 & n2 & Hp2 & Hn2 & ->).
  rewrite lookup_insert_eq in Hp1, Hp2.
  injection Hp1 as <-. injection Hp2 as <-.
  rewrite Hp in Hp'. injection Hp' as <-.
  rewrite Hn in Hn1, Hn', Hn2.
  injection Hn1 as <-. injection Hn' as <-. injection Hn2 as <-.
  split.
  - eexists _, _. rewrite !lookup_insert_eq.
    split; [reflexivity|]. split; [reflexivity|].
    rewrite (merged_then_merged part lyrA lyrB isoA isoB n Hne Hc HA).
    rewrite (merged_then_merged part lyrB lyrA isoB isoA n
               (not_eq_sym Hne) (fun c => eq_sym (Hc c)) HB).
    rewrite filter_swap.
    assert (Hk : forall l : list (row G),
              map (kept part lyrA) l = map (kept part lyrB) l).
    { intros l. apply map_ext. intros r. unfold kept.
      apply cast_row_same. intros c. apply promoted_alike. exact Hc. }
    rewrite Hk. apply Permutation_app_head. apply Permutation_app_comm.
  - intros k Hk. rewrite !lookup_insert_ne by congruence. reflexivity.
Qed.

(** *** The partitions of a run *)

Lemma same_partitions_refl levels (store : gmap string (layer G)) :
  same_partitions levels store store.
Proof. split; intros; reflexivity. Qed.

Lemma same_partitions_trans levels (s1 s2 s3 : gmap string (layer G)) :
  same_partitions levels s1 s2 -> same_partitions levels s2 s3 ->
  same_partitions levels s1 s3.
Proof.
  intros [Hd1 Hf1] [Hd2 Hf2]. split.
  - intros k. rewrite Hd2. apply Hd1.
  - intros k Hk. rewrite Hf2, Hf1; auto.
Qed.

Lemma replace_same_partitions levels (store store' : gmap string (layer G))
    lyr iso level geom_type :
  In level levels -> geom_type = "polygon" \/ geom_type = "point" ->
  replace_country_boundaries store lyr iso level geom_type = Ok store' ->
  same_partitions levels store store'.
Proof.
  intros Hlev Hgt E. apply replace_inv in E as (part & n & Hp & _ & ->).
  split.
  - intros k. destruct (decide (k = partition_key level geom_type)) as [->|Hk].
    + rewrite lookup_insert_eq, Hp. split; eauto.
    + rewrite lookup_insert_ne by congruence. reflexivity.
  - intros k Hk. rewrite lookup_insert_ne; [reflexivity|].
    destruct (Hk level Hlev) as [H1 H2]. destruct Hgt; subst; congruence.
Qed.

Lemma process_level_same_partitions (w : world G) cfg c ds adm0 level levels
    store store' :
  In level levels ->
  process_level w cfg c ds adm0 level store = Ok store' ->
  same_partitions levels store store'.
Proof.
  intros Hlev. unfold process_level.
  destruct (level_depth level) as [d|]; [|discriminate].
  cbn [mbind result_bind].
  destruct (find_resource _ _ ds level) as [l|]; [|discriminate].
  cbn [mbind result_bind].
  destruct l as [|r [|r2 l]];
    try (intros [= <-]; apply same_partitions_refl).
  destruct (find_shapefile _ r level) as [found|]; [|discriminate].
  cbn [mbind result_bind].
  destruct (returned found) as [shp|];
    [|intros [= <-]; apply same_partitions_refl].
  destruct (String.eqb shp "");
    [intros [= <-]; apply same_partitions_refl|].
  destruct (read_file w shp) as [lyr|]; [|discriminate].
  cbn [mbind result_bind].
  destruct (calculate_fields _ _ _ _ _ _) as [lyr1|]; [|discriminate].
  cbn [mbind result_bind].
  destruct (last_char level) as [n|]; [|discriminate].
  cbn [of_option mbind result_bind].
  destruct (column_dtype (ref_column n) lyr1); [|discriminate].
  cbn [of_option mbind result_bind].
  destruct (column_dtype (pcode_column n) lyr1); [|discriminate].
  cbn [of_option mbind result_bind].
  destruct (update_geometry _ _ _ _) as [lyr2|]; [|discriminate].
  cbn [mbind result_bind].
  destruct (point_layer _ _) as [pts|]; [|discriminate].
  cbn [mbind result_bind].
  destruct (replace_country_boundaries store _ _ _ "polygon") as [s1|] eqn:E1;
    [|discriminate].
  cbn [mbind result_bind]. intros E2.
  eapply same_partitions_trans.
  - eapply replace_same_partitions; [exact Hlev|left; reflexivity|exact E1].
  - eapply replace_same_partitions; [exact Hlev|right; reflexivity|exact E2].
Qed.

(** X12. A run over the countries neither adds nor removes a
    partition of the global set, and changes none but the polygon and
    point partitions of the levels processed: the admin-0 and water
    layers stay as loaded unless such a level names them. *)
Theorem run_keeps_partitions (w : world G) cfg store store' countries levels
    do_not_process :
  update_all w cfg store countries levels do_not_process = Ok store' ->
  (forall k, is_Some (store' !! k) <-> is_Some (store !! k)) /\
  (forall k,
      (forall level, In level levels ->
         k <> partition_key level "polygon" /\
         k <> partition_key level "point") ->
      store' !! k = store !! k).
Proof.
  unfold update_all.
  apply (foldM_related _ (same_partitions levels)).
  - apply same_partitions_refl.
  - apply same_partitions_trans.
  - intros [c|] s s' _; [|discriminate].
    unfold update_subnational_boundaries.
    destruct (mem (iso3 c) do_not_process);
      [intros [= <-]; apply same_partitions_refl|].
    destruct (match read_from_hdx w _ with Some _ => _ | None => _ end)
      as [ds|]; [|intros [= <-]; apply same_partitions_refl].
    destruct (create_national_boundary s (iso3 c)) as [adm0|]; [|discriminate].
    cbn [mbind result_bind].
    apply (foldM_related _ (same_partitions levels)).
    + apply same_partitions_refl.
    + apply same_partitions_trans.
    + intros level t t' Hin. apply process_level_same_partitions. exact Hin.
Qed.

End Merges.

(** ** Loading the global set *)

Lemma filter_on_chars (w : list ascii) (levels : list string) :
  match Exact.match_at Exact.level_resource_pattern w with
  | Some _ =>
      found ← of_option OtherError (Exact.search Exact.level_pattern w);
      Ok (negb (mem (string_of_list_ascii found) levels))
  | None => Ok false
  end =
  Ok (negb
        (match
           (if starts_with (chars "polbnda_adm") w ||
               starts_with (chars "polbndp_adm") w
            then match nth_error w 11 with
                 | Some d =>
                     if is_digit d
                     then Some (String "a" (String "d" (String "m"
                                  (String d ""))))
                     else None
                 | None => None
                 end
            else None)
         with
         | Some level => mem level levels
         | None => true
         end)).
Proof.
  do 12 (destruct w as [|? w]; crunch;
         [try reflexivity
         |repeat (var_test; crunch; try reflexivity; try congruence)]).
  all: destruct (is_digit _) eqn:Ed; crunch; try reflexivity.
Qed.

Section Loading.
Context {G : Type} `{Libraries G} `{Patterns}.

Lemma other_level_wanted name levels :
  other_level name levels = Ok (negb (level_wanted levels name)).
Proof. apply filter_on_chars. Qed.

(** X14. The level filter of [download_boundary_inputs] (line 50): a
    resource is passed over exactly when its name starts with
    polbnda_adm or polbndp_adm and a digit, case being significant, and
    "adm" with that digit is not among the levels asked for; the level
    that [re.search] finds is the one that follows the prefix, and the
    test never raises. *)
Theorem level_filter name levels :
  other_level name levels =
  Ok (match announced_level name with
      | Some level => negb (mem level levels)
      | None => false
      end).
Proof.
  rewrite other_level_wanted. unfold level_wanted.
  destruct (announced_level name); reflexivity.
Qed.

Lemma loading_fold (w : world G) (rm : remote G) names levels resources :
  forall acc store,
    foldM
      (fun (r : resource) (all_boundaries : gmap string (layer G)) =>
         match assoc (res_name r) names with
         | None => Ok all_boundaries
         | Some key =>
             skip ← other_level (res_name r) levels;
             if (skip : bool) then Ok all_boundaries
             else
               resource_file ← download rm r;
               lyr ← read_file w resource_file;
               Ok (<[key := lyr]> all_boundaries)
         end) resources acc = Ok store ->
    (forall key lyr, store !! key = Some lyr ->
       acc !! key = Some lyr \/
       exists r, In r resources /\
         assoc (res_name r) names = Some key /\
         level_wanted levels (res_name r) = true /\
         (path ← download rm r; read_file w path) = Ok lyr) /\
    (forall key, is_Some (acc !! key) -> is_Some (store !! key)) /\
    (forall r key, In r resources ->
       assoc (res_name r) names = Some key ->
       level_wanted levels (res_name r) = true ->
       is_Some (store !! key) /\
       exists lyr, (path ← download rm r; read_file w path) = Ok lyr).
Proof.
  induction resources as [|r resources IH]; intros acc store.
  - simpl. intros [= <-]. split; [auto|]. split; [auto|]. intros r key [].
  - cbn [foldM].
    destruct (assoc (res_name r) names) as [key|] eqn:Ea.
    + rewrite other_level_wanted. cbn [mbind result_bind].
      destruct (level_wanted levels (res_name r)) eqn:Ew; cbn [negb].
      * destruct (download rm r) as [path|] eqn:Ed; [|discriminate].
        cbn [mbind result_bind].
        destruct (read_file w path) as [lyr|] eqn:Er; [|discriminate].
        cbn [mbind result_bind]. intros E.
        destruct (IH _ _ E) as (Hs & Hd & Hc).
        assert (Hfetch : (path ← download rm r; read_file w path) = Ok lyr).
        { rewrite Ed. cbn [mbind result_bind]. exact Er. }
        split; [|split].
        -- intros k l Hk. destruct (Hs k l Hk) as [Hacc|(r' & Hin & Hr')].
           ++ destruct (decide (key = k)) as [<-|Hne].
              ** rewrite lookup_insert_eq in Hacc. injection Hacc as <-.
                 right. exists r. split; [left; reflexivity|]. auto.
              ** rewrite lookup_insert_ne in Hacc by exact Hne. auto.
           ++ right. exists r'. split; [right; exact Hin|exact Hr'].
        -- intros k Hk. apply Hd.
           destruct (decide (key = k)) as [<-|Hne].
           ++ rewrite lookup_insert_eq. eauto.
           ++ rewrite lookup_insert_ne by exact Hne. exact Hk.
        -- intros r' k [<-|Hin] Hk Hw.
           ++ rewrite Ea in Hk. injection Hk as <-. split; [|eauto].
              apply Hd. rewrite lookup_insert_eq. eauto.
           ++ apply Hc; auto.
      * cbn [mbind result_bind]. intros E.
        destruct (IH _ _ E) as (Hs & Hd & Hc). split; [|split]; auto.
        -- intros k l Hk. destruct (Hs k l Hk) as [Hacc|(r' & Hin & Hr')];
             [auto|]. right. exists r'. split; [right; exact Hin|exact Hr'].
        -- intros r' k [<-|Hin] Hk Hw; [congruence|]. apply Hc; auto.
    + intros E. destruct (IH _ _ E) as (Hs & Hd & Hc). split; [|split]; auto.
      * intros k l Hk. destruct (Hs k l Hk) as [Hacc|(r' & Hin & Hr')];
          [auto|]. right. exists r'. split; [right; exact Hin|exact Hr'].
      * intros r' k [<-|Hin] Hk Hw; [congruence|]. apply Hc; auto.
Qed.

(** X15. When [download_boundary_inputs] returns, every partition of
    the global set is the layer read from a resource that the
    configuration names for it and that is of no level or of a level
    asked for; and every such resource was downloaded and read, and
    its partition is present. *)
Theorem download_selects (w : world G) (rm : remote G) un_boundary names
    levels store :
  download_boundary_inputs w rm un_boundary names levels = Ok store ->
  exists resources,
    read_from_hdx w un_boundary = Some resources /\
    (forall key lyr, store !! key = Some lyr ->
       exists r, In r resources /\
         assoc (res_name r) names = Some key /\
         level_wanted levels (res_name r) = true /\
         (path ← download rm r; read_file w path) = Ok lyr) /\
    (forall r key, In r resources ->
       assoc (res_name r) names = Some key ->
       level_wanted levels (res_name r) = true ->
       is_Some (store !! key) /\
       exists lyr, (path ← download rm r; read_file w path) = Ok lyr).
Proof.
  unfold download_boundary_inputs.
  destruct (read_from_hdx w un_boundary) as [resources|]; [|discriminate].
  cbn [of_option mbind result_bind]. intros E.
  destruct (loading_fold _ _ _ _ _ _ _ E) as (Hs & _ & Hc).
  exists resources. split; [reflexivity|]. split; [|exact Hc].
  intros key lyr Hk. destruct (Hs key lyr Hk) as [Hacc|Hr]; [|exact Hr].
  rewrite lookup_empty in Hacc. discriminate.
Qed.

End Loading.

(** ** Publishing, and the run as a whole *)

Lemma foldM_stops {A S} (f : A -> S -> result S) a l :
  In a l -> (forall s, exists e, f a s = Raise e) ->
  forall s, exists e, foldM f l s = Raise e.
Proof.
  intros Hin Hf. induction l as [|b l IH]; [destruct Hin|]. intros s.
  cbn [foldM]. destruct Hin as [->|Hin].
  - destruct (Hf s) as (e & ->). exists e. reflexivity.
  - destruct (f b s) as [s'|e]; [|exists e; reflexivity].
    cbn [mbind result_bind]. apply IH. exact Hin.
Qed.

Section Publishing.
Context {G : Type} `{Libraries G} `{Patterns}.

Lemma the_resource_raises dataset name :
  exists e, the_resource dataset name = Raise e.
Proof.
  unfold the_resource. destruct dataset as [resources|];
    [|exists OtherError; reflexivity].
  cbn [of_option mbind result_bind].
  rewrite filter_nothing; [exists IndexError; reflexivity|].
  apply List.Forall_forall. reflexivity.
Qed.

Lemma publish_level_raises (rm : remote G) temp_folder names
    (store : gmap string (layer G)) dataset level sent :
  exists e,
    publish_level rm temp_folder names store dataset level sent = Raise e.
Proof.
  unfold publish_level.
  destruct (head (names_of names (partition_key level "polygon")));
    [|eexists; reflexivity].
  cbn [of_option mbind result_bind].
  destruct (store !! partition_key level "polygon");
    [|eexists; reflexivity].
  cbn [of_option mbind result_bind].
  destruct (to_file rm _ _); [|eexists; reflexivity].
  cbn [mbind result_bind].
  destruct (head (names_of names (partition_key level "point")));
    [|eexists; reflexivity].
  cbn [of_option mbind result_bind].
  destruct (store !! partition_key level "point");
    [|eexists; reflexivity].
  cbn [of_option mbind result_bind].
  destruct (to_file rm _ _); [|eexists; reflexivity].
  cbn [mbind result_bind].
  destruct (the_resource_raises dataset
              (names_of names (partition_key level "polygon"))) as (e & ->).
  exists e. reflexivity.
Qed.

(** X16. [update_subnational_resources] uploads nothing: the resource
    to update is looked up by comparing its name, a text, with the list
    of configured names (lines 304 and 306), which never holds, so that
    with at least one level the call raises before any upload, and
    with none there is nothing to do. *)
Theorem nothing_is_published (w : world G) (rm : remote G) temp_folder names
    (store : gmap string (layer G)) dataset_name levels :
  (levels = [] ->
   update_subnational_resources w rm temp_folder names store dataset_name
     levels = Ok []) /\
  (levels <> [] ->
   exists e,
     update_subnational_resources w rm temp_folder names store dataset_name
       levels = Raise e) /\
  (forall sent,
      update_subnational_resources w rm temp_folder names store dataset_name
        levels = Ok sent -> sent = []).
Proof.
  assert (Hne : levels <> [] ->
            exists e,
              update_subnational_resources w rm temp_folder names store
                dataset_name levels = Raise e).
  { intros Hl. destruct levels as [|level levels]; [congruence|].
    apply (foldM_stops _ level); [left; reflexivity|].
    intros s. apply publish_level_raises. }
  split; [intros ->; reflexivity|]. split; [exact Hne|].
  intros sent E. destruct levels as [|level levels].
  - injection E as <-. reflexivity.
  - destruct Hne as (e & He); [discriminate|]. congruence.
Qed.

(** X17. A run of [main] over at least one level, given or taken from
    the configuration, ends in an exception. *)
Theorem run_with_levels_raises (w : world G) (rm : remote G) rc temp_folder
    countries countries_override levels :
  levels <> [] \/ default_levels rc <> [] ->
  exists e,
    main w rm rc temp_folder countries countries_override levels = Raise e.
Proof.
  intros Hl. unfold main.
  set (lv := match levels with [] => default_levels rc | _ => levels end).
  assert (Hlv : lv <> []).
  { unfold lv. destruct levels; [|discriminate].
    destruct Hl; [congruence|assumption]. }
  destruct (download_boundary_inputs _ _ _ _ _) as [store|];
    [|eexists; reflexivity].
  cbn [mbind result_bind].
  destruct (update_all _ _ _ _ _ _) as [store'|]; [|eexists; reflexivity].
  cbn [mbind result_bind].
  destruct lv as [|level lv']; [congruence|].
  apply (foldM_stops _ level); [left; reflexivity|].
  intros s. apply publish_level_raises.
Qed.

End Publishing.

(** ** The countries of a run *)

Lemma dict_set_keys {A} k (v : A) d :
  map fst (dict_set k v d) = add_name k (map fst d).
Proof.
  unfold add_name. induction d as [|[k' v'] d IH]; [reflexivity|].
  cbn [dict_set map fst mem existsb].
  rewrite (String.eqb_sym k k').
  destruct (String.eqb k' k) eqn:E; cbn [orb map fst].
  - apply String.eqb_eq in E. subst. reflexivity.
  - rewrite IH. fold (mem k (map fst d)).
    destruct (mem k (map fst d)); reflexivity.
Qed.

Lemma dict_set_values {A} (P : string -> A -> Prop) k (v : A) d :
  P k v -> Forall (fun p => P (fst p) (snd p)) d ->
  Forall (fun p => P (fst p) (snd p)) (dict_set k v d).
Proof.
  intros Hk. induction 1 as [|[k' v'] d Hp Hd IH]; cbn [dict_set].
  - constructor; [exact Hk|constructor].
  - destruct (String.eqb k' k); constructor; auto.
Qed.

Lemma add_name_NoDup c ns : NoDup ns -> NoDup (add_name c ns).
Proof.
  intros Hn. unfold add_name. destruct (mem c ns) eqn:Em; [exact Hn|].
  apply NoDup_app. split; [exact Hn|]. split.
  - intros x Hx Hx'. apply list_elem_of_In in Hx, Hx'.
    destruct Hx' as [<-|[]].
    apply mem_In in Hx. congruence.
  - apply NoDup_singleton.
Qed.

Lemma override_fold (countries : list (string * country)) codes :
  forall d,
    map fst
      (fold_left
         (fun d c => dict_set (str_upper c) (assoc (str_upper c) countries) d)
         codes d) =
    fold_left (fun names c => add_name c names) (map str_upper codes)
      (map fst d) /\
    (Forall (fun p => snd p = assoc (fst p) countries) d ->
     Forall (fun p => snd p = assoc (fst p) countries)
       (fold_left
          (fun d c => dict_set (str_upper c) (assoc (str_upper c) countries) d)
          codes d)).
Proof.
  induction codes as [|c codes IH]; intros d; [split; auto|].
  cbn [fold_left map]. destruct (IH (dict_set (str_upper c)
                                   (assoc (str_upper c) countries) d))
    as [Hk Hv].
  split.
  - rewrite Hk, dict_set_keys. reflexivity.
  - intros Hd. apply Hv.
    apply (dict_set_values (fun k v => v = assoc k countries)); auto.
Qed.

Lemma each_once_fold l :
  forall ns, NoDup ns ->
    NoDup (fold_left (fun names c => add_name c names) l ns) /\
    forall c, In c (fold_left (fun names c => add_name c names) l ns) <->
              In c ns \/ In c l.
Proof.
  induction l as [|a l IH]; intros ns Hn.
  - simpl. split; [exact Hn|]. tauto.
  - cbn [fold_left]. destruct (IH _ (add_name_NoDup a ns Hn)) as [H1 H2].
    split; [exact H1|]. intros c. rewrite H2.
    destruct (incl_add_name a ns) as [Hi Ha].
    split.
    + intros [Hc|Hc]; [|right; right; exact Hc].
      unfold add_name in Hc. destruct (mem a ns); [left; exact Hc|].
      apply in_app_or in Hc as [Hc|[<-|[]]]; [left; exact Hc|].
      right. left. reflexivity.
    + intros [Hc|[<-|Hc]]; [left; apply Hi; exact Hc|left; exact Ha|].
      right. exact Hc.
Qed.

(** X18. The country override (lines 42-44 of run.py) lists each code
    given once, upper-cased, at the place of its first mention,
    whatever the letter case and however often it is given; and each
    goes with what the countries data hold for it, nothing if they do
    not know the code. *)
Theorem override_lists_each_country_once
    (countries : list (string * country)) codes :
  map fst (override_countries countries codes) =
    each_once (map str_upper codes) /\
  NoDup (map fst (override_countries countries codes)) /\
  (forall k, In k (map fst (override_countries countries codes)) <->
             exists c, In c codes /\ k = str_upper c) /\
  Forall (fun p => snd p = assoc (fst p) countries)
    (override_countries countries codes).
Proof.
  unfold override_countries, each_once.
  destruct (override_fold countries codes []) as [Hk Hv].
  destruct (each_once_fold (map str_upper codes) [] (NoDup_nil_2 (A := string)))
    as [Hn Hin].
  split; [exact Hk|]. split; [rewrite Hk; exact Hn|].
  split; [|apply Hv; constructor].
  intros k. rewrite Hk, Hin. rewrite in_map_iff. split.
  - intros [[]|(c & <- & Hc)]. exists c. auto.
  - intros (c & Hc & ->). right. exists c. auto.
Qed.

Section Unknown.
Context {G : Type} `{Libraries G} `{Patterns}.

(** X19. An overridden code that the countries data do not know is
    not skipped: the loop over the countries raises. *)
Theorem unknown_code_raises (w : world G) cfg store countries codes code
    levels do_not_process :
  In code codes ->
  assoc (str_upper code) countries = None ->
  exists e,
    update_all w cfg store
      (map snd (override_countries countries codes)) levels do_not_process =
    Raise e.
Proof.
  intros Hin Hnone.
  unfold override_countries.
  destruct (override_fold countries codes []) as [Hkeys Hvals].
  specialize (Hvals (List.Forall_nil _)).
  assert (Hk : In (str_upper code)
                 (map fst
                    (fold_left
                       (fun d c =>
                          dict_set (str_upper c)
                            (assoc (str_upper c) countries) d) codes []))).
  { rewrite Hkeys.
    apply (each_once_fold (map str_upper codes) [] (NoDup_nil_2 (A := string))).
    right. apply in_map. exact Hin. }
  apply in_map_iff in Hk as ([k v] & Hfst & Hp). simpl in Hfst. subst k.
  rewrite List.Forall_forall in Hvals. specialize (Hvals _ Hp).
  simpl in Hvals. rewrite Hnone in Hvals. subst v.
  unfold update_all. apply (foldM_stops _ None).
  - apply in_map_iff. exists (str_upper code, None). auto.
  - intros s. exists TypeError. reflexivity.
Qed.

End Unknown.

(** ** The options of the command line *)

Lemma split_on_pieces sep w : split_on sep w <> [].
Proof.
  destruct w as [|c w]; simpl; [discriminate|].
  destruct (Ascii.eqb c sep); [discriminate|].
  destruct (split_on sep w); discriminate.
Qed.

Lemma split_on_free sep w :
  Forall (fun piece => ~ In sep piece) (split_on sep w).
Proof.
  induction w as [|c w IH]; simpl.
  - constructor; [intros []|constructor].
  - destruct (Ascii.eqb_spec c sep) as [->|Hne].
    + constructor; [intros []|exact IH].
    + destruct (split_on sep w) as [|piece pieces].
      * constructor; [|constructor]. intros [E|[]]. congruence.
      * inversion IH; subst. constructor; [|assumption].
        intros [E|Hin]; [congruence|contradiction].
Qed.

Lemma join_split w :
  join_with "," (map string_of_list_ascii (split_on ","%char w)) =
  string_of_list_ascii w.
Proof.
  induction w as [|c w IH]; [reflexivity|].
  cbn [split_on]. pose proof (split_on_pieces ","%char w) as Hne.
  destruct (Ascii.eqb_spec c ","%char) as [->|Hc].
  - destruct (split_on ","%char w) as [|piece pieces]; [congruence|].
    cbn [map join_with] in *. rewrite IH. reflexivity.
  - destruct (split_on ","%char w) as [|piece pieces]; [congruence|].
    cbn [map join_with string_of_list_ascii] in *.
    destruct pieces as [|piece2 pieces].
    + cbn [map] in *. rewrite <- IH. reflexivity.
    + cbn [map] in *. rewrite <- IH. reflexivity.
Qed.

(** X20. An option of the command line that is given and not empty
    is split into at least one piece; the pieces hold no comma, and
    joined by commas they give the option back. An option that is
    empty or not given is left as it is. *)
Theorem options_round_trip (given : option string) :
  match given with
  | Some s =>
      if String.eqb s "" then arguments given = []
      else arguments given <> [] /\
           join_with "," (arguments given) = s /\
           Forall (fun piece => ~ In ","%char (chars piece)) (arguments given)
  | None => arguments given = []
  end.
Proof.
  destruct given as [s|]; [|reflexivity]. unfold arguments.
  destruct (String.eqb s ""); [reflexivity|]. split; [|split].
  - pose proof (split_on_pieces ","%char (chars s)).
    destruct (split_on ","%char (chars s)); [congruence|discriminate].
  - rewrite join_split. apply string_of_list_ascii_of_string.
  - apply Forall_map. pose proof (split_on_free ","%char (chars s)) as Hf.
    revert Hf. apply List.Forall_impl. intros piece Hp.
    unfold chars. rewrite list_ascii_of_string_of_list_ascii. exact Hp.
Qed.

(** * The properties on the sample data *)

(** C1 as stated fails on a layer with a text column labelled
    GEOMETRY: the column is still there after harmonisation. *)
Lemma schema_closure_counterexample :
  exists out,
    calculate_fields mappings districts_with_wkt "abc" "Abcland"
      (required_fields 1) "adm1" = Ok out /\
    In "GEOMETRY" (attribute_names out) /\
    attribute_names out <> required_fields 1.
Proof.
  exists (unwrap no_layer (harmonised districts_with_wkt)).
  split; [vm_compute; reflexivity|]. split.
  - vm_compute. repeat (first [left; reflexivity | right]).
  - vm_compute. discriminate.
Qed.

(** C1, on the sample districts *)
Lemma schema_closure_witness :
  attribute_names (unwrap no_layer (harmonised districts)) =
  required_fields 1 ++
  List.filter (fun c => geometry_like c && negb (String.eqb c "geometry"))
    (column_names districts).
Proof.
  assert (Hc : calculate_fields mappings districts "abc" "Abcland"
                 (required_fields 1) "adm1" =
               Ok (unwrap no_layer (harmonised districts))).
  { vm_compute. reflexivity. }
  exact (proj2 (schema_closure_with_geometry_guard mappings districts _
                  "abc" "Abcland" "adm1" 1 eq_refl Hc)).
Defined.

(** C2 amended, on the second of the sample districts, whose source
    pcode is 12040.5 *)
Lemma pcode_stringification_witness :
  exists r, In r (rows districts) /\
    forall l, 1 <= l <= 1 ->
      match pcode_source mappings districts l with
      | None =>
          get (nth 1 (rows (unwrap no_layer (harmonised districts))) ∅)
            (adm l "_PCODE") = CStr ""
      | Some src =>
          (In src (required_fields 1) -> src = adm l "_PCODE") ->
          exists t, column_dtype src districts = Some t /\
            truncated_text r src t
              (get (nth 1 (rows (unwrap no_layer (harmonised districts))) ∅)
                 (adm l "_PCODE"))
      end.
Proof.
  apply (pcode_stringification mappings districts
           (unwrap no_layer (harmonised districts))
           "abc" "Abcland" "adm1" 1).
  - reflexivity.
  - vm_compute. reflexivity.
  - vm_compute. right. left. reflexivity.
Defined.

(** C2 as stated fails beyond the 64-bit integers: the float pcode
    10^19 is a whole number, and the harmonised pcode is the numeral of
    the least 64-bit integer, which is what the cast yields here. *)
Lemma pcode_stringification_counterexample :
  exists out r r',
    harmonised districts_beyond = Ok out /\
    rows districts_beyond = [r] /\ rows out = [r'] /\
    pcode_source mappings districts_beyond 1 = Some "adm1_code" /\
    column_dtype "adm1_code" districts_beyond = Some DFloat64 /\
    get r "adm1_code" = CNum (inject_Z (10 ^ 19)) /\
    rounds_toward_zero (inject_Z (10 ^ 19)) (10 ^ 19) /\
    get r' "ADM1_PCODE" = CStr "-9223372036854775808" /\
    ~ decimal (10 ^ 19) "-9223372036854775808".
Proof.
  exists (unwrap no_layer (harmonised districts_beyond)),
    (hd ∅ (rows districts_beyond)),
    (hd ∅ (rows (unwrap no_layer (harmonised districts_beyond)))).
  repeat match goal with |- _ /\ _ => split end;
    try (vm_compute; reflexivity).
  - unfold rounds_toward_zero, Qle, Qlt, inject_Z. cbn [Qnum Qden]. lia.
  - intros Hd. apply decimal_unique in Hd. vm_compute in Hd. discriminate.
Qed.

(** 12034.0 is written "12034" and 12040.5 is written "12040"; -3.5 is
    written "-3". *)
Example stringified_pcodes :
  map (fun r => get r "ADM1_PCODE")
    (rows (unwrap no_layer (harmonised districts))) =
  [CStr "12034"; CStr "12040"] /\
  map (fun r => get r "ADM1_PCODE")
    (rows (unwrap no_layer (harmonised districts_below))) =
  [CStr "-3"].
Proof. split; vm_compute; reflexivity. Qed.

(** The words of the specification on sample values. *)
Example truncation_samples :
  rounds_toward_zero (24081 # 2) 12040 /\
  ~ rounds_toward_zero (24081 # 2) 12041 /\
  rounds_toward_zero (- 7 # 2) (- 3) /\
  ~ rounds_toward_zero (- 7 # 2) (- 4) /\
  decimal 12040 "12040" /\ decimal (- 3) "-3" /\ decimal 0 "0" /\
  ~ decimal 12040 "12040.0" /\ ~ decimal 12040 "012040" /\
  ~ decimal 0 "-0" /\ ~ decimal 0 "".
Proof.
  assert (R : forall q z, z = truncate q -> rounds_toward_zero q z).
  { intros q z ->. apply truncate_rounds. }
  assert (N : forall q z, z <> truncate q -> ~ rounds_toward_zero q z).
  { intros q z Hne Hr. apply Hne.
    apply (rounds_unique q); [exact Hr|apply truncate_rounds]. }
  assert (D : forall z s, s = str_of_Z z -> decimal z s).
  { intros z s ->. apply decimal_str_of_Z. }
  assert (M : forall z s, s <> str_of_Z z -> ~ decimal z s).
  { intros z s Hne Hd. apply Hne, decimal_unique, Hd. }
  repeat match goal with |- _ /\ _ => split end;
    first [apply R; reflexivity | apply D; reflexivity
          | apply N; vm_compute; discriminate
          | apply M; vm_compute; discriminate].
Qed.

(** A pcode missing from a numeric column makes the harmoniser raise. *)
Example missing_pcode_raises :
  harmonised districts_with_gap = Raise ValueError.
Proof. vm_compute. reflexivity. Qed.

(** C10, on an archive whose two boundary files are both simplified *)
Lemma all_simplified_exhaustion_witness :
  find_shapefile "ABC"
    (shp "abc_adm1_shp"
       (Archive ["/t/u/simplified/abc_admbnda_adm1.shp";
                 "/t/u/abc_admbnda_adm1_simplified.shp";
                 "/t/u/abc_roads.shp"])) "adm1" =
  Ok (NoFile CouldNotDistinguish) /\
  (r' ← find_shapefile "ABC"
          (shp "abc_adm1_shp"
             (Archive ["/t/u/simplified/abc_admbnda_adm1.shp";
                       "/t/u/abc_admbnda_adm1_simplified.shp";
                       "/t/u/abc_roads.shp"])) "adm1";
   Ok (returned r')) = Ok None.
Proof.
  apply (all_simplified_exhaustion "ABC" _
           ["/t/u/simplified/abc_admbnda_adm1.shp";
            "/t/u/abc_admbnda_adm1_simplified.shp";
            "/t/u/abc_roads.shp"] "adm1" "1"%char).
  - reflexivity.
  - reflexivity.
  - repeat constructor.
  - vm_compute. lia.
  - vm_compute. repeat constructor.
Defined.



(** In the sample merge no column of whole numbers is lost, and the
    record of BBB is the one that was there. *)
Example sample_merge_keeps_the_others :
  integers_stay adm1_polygons aaa_layer /\
  List.filter (fun r => negb (of_country "AAA" r))
    (rows (default no_layer (merged_once !! "adm1_polygon"))) =
  rows adm1_polygons.
Proof.
  split; [|vm_compute; reflexivity].
  intros c Hc. unfold column_dtype in *. cbn in Hc.
  repeat match type of Hc with
         | (if ?b then _ else _) = _ => destruct b; try discriminate
         end.
Qed.





(** Level adm0 has no pcode field among its canonical fields: the
    count of its null values raises once the layer is harmonised. *)
Example level_zero_raises :
  process_level atlas configuration bbb
    [shp "bbb_adm0_shp" (Archive ["/tmp/9f/bbb_admbnda_adm1.shp"])]
    admin0 "adm0" loaded = Raise KeyError.
Proof. vm_compute. reflexivity. Qed.


#[local] Set Warnings "-inexact-float".
(** C9, at depth 2 *)
Lemma simplification_tolerance_witness :
  tolerance 2 = (0.0075 / 2)%float.
Proof.
  apply (proj1 (proj2 (simplification_tolerance (G := nat) "adm2" 2 eq_refl))).
  lia.
Defined.
#[local] Set Warnings "inexact-float".

(** ** The further properties on the sample data *)

(** X2, on the sample districts *)
Lemma country_columns_witness :
  Forall (fun r' => get r' "alpha_3" = CStr (str_upper "abc") /\
                    get r' "ADM0_REF" = CStr "Abcland")
    (rows (unwrap no_layer (harmonised districts))).
Proof.
  apply (country_columns mappings districts _ "abc" "Abcland" "adm1" 1).
  - reflexivity.
  - vm_compute. reflexivity.
Defined.

(** X3, on the second of the sample districts *)
Lemma one_source_record_witness :
  exists r, In r (rows districts) /\
    forall l, 1 <= l <= 1 ->
      match name_source mappings districts l with
      | None =>
          get (nth 1 (rows (unwrap no_layer (harmonised districts))) ∅)
            (adm l "_REF") = CStr ""
      | Some src =>
          ~ In src (required_fields (l - 1)) ->
          get (nth 1 (rows (unwrap no_layer (harmonised districts))) ∅)
            (adm l "_REF") = get r src
      end /\
      match pcode_source mappings districts l with
      | None =>
          get (nth 1 (rows (unwrap no_layer (harmonised districts))) ∅)
            (adm l "_PCODE") = CStr ""
      | Some src =>
          ~ In src (required_fields (l - 1)) -> src <> adm l "_REF" ->
          exists t, column_dtype src districts = Some t /\
            truncated_text r src t
              (get (nth 1 (rows (unwrap no_layer (harmonised districts))) ∅)
                 (adm l "_PCODE"))
      end.
Proof.
  apply (one_source_record mappings districts
           (unwrap no_layer (harmonised districts))
           "abc" "Abcland" "adm1" 1).
  - reflexivity.
  - vm_compute. reflexivity.
  - vm_compute. right. left. reflexivity.
Defined.

(** X4, on the districts with a pcode missing *)
Lemma missing_number_raises_witness :
  exists e,
    calculate_fields mappings districts_with_gap "abc" "Abcland"
      (required_fields 1) "adm1" = Raise e.
Proof.
  apply (missing_number_raises mappings districts_with_gap "abc" "Abcland"
           "adm1" 1 1 "adm1_code" DFloat64
           (record [("adm1_code", CNaN); ("ADM1_EN", CStr "Lakes");
                    ("Shape_Area", CNum (1 # 2)); ("geometry", CGeom 3%nat)])).
  - reflexivity.
  - lia.
  - vm_compute. reflexivity.
  - simpl. intros [E|[E|[]]]; discriminate E.
  - intros E. vm_compute in E. discriminate E.
  - reflexivity.
  - reflexivity.
  - vm_compute. right. right. left. reflexivity.
  - vm_compute. reflexivity.
Defined.

(** X5, on the sample districts *)
Lemma one_record_per_key_witness :
  Forall (fun r' => Forall (fun c => is_null (get r' c) = false)
                      (required_fields 1))
    (rows (unwrap no_layer (harmonised districts))) /\
  ForallOrdPairs
    (fun r1 r2 => tuple_eqb (by_key (required_fields 1) r1)
                    (by_key (required_fields 1) r2) = false)
    (rows (unwrap no_layer (harmonised districts))).
Proof.
  apply (one_record_per_key mappings districts _ "abc" "Abcland" "adm1" 1).
  - reflexivity.
  - vm_compute. reflexivity.
Defined.

(** X8, on the three sample files and their reverse *)
Lemma selection_ignores_order_witness :
  find_shapefile "ETH" (shp "eth_adm2_shp" (Archive three_files)) "adm2" =
  find_shapefile "ETH" (shp "eth_adm2_shp" (Archive (rev three_files)))
    "adm2".
Proof.
  apply (selection_ignores_order "ETH" _ _ "adm2" three_files
           (rev three_files)).
  - reflexivity.
  - reflexivity.
  - apply Permutation_rev.
Defined.

(** X9, on two resources swapped *)
Lemma resources_order_free_witness :
  process_level atlas configuration bbb
    [bbb_archive; shp "bbb_adm2_shp" NotAZip] admin0 "adm1" loaded =
  process_level atlas configuration bbb
    [shp "bbb_adm2_shp" NotAZip; bbb_archive] admin0 "adm1" loaded.
Proof.
  apply (resources_order_free atlas configuration bbb).
  apply perm_swap.
Defined.


(** X11, for AAA and BBB on the sample partition *)
Lemma merges_commute_witness :
  (exists p q,
      merge (merge global_set aaa_layer "AAA") bbb_layer "BBB"
        !! partition_key "adm1" "polygon" = Some p /\
      merge (merge global_set bbb_layer "BBB") aaa_layer "AAA"
        !! partition_key "adm1" "polygon" = Some q /\
      Permutation (rows p) (rows q)) /\
  (forall k, k <> partition_key "adm1" "polygon" ->
             merge (merge global_set aaa_layer "AAA") bbb_layer "BBB" !! k =
             merge (merge global_set bbb_layer "BBB") aaa_layer "AAA" !! k).
Proof.
  apply (merges_commute global_set (merge global_set aaa_layer "AAA") _
           (merge global_set bbb_layer "BBB") _
           aaa_layer bbb_layer "AAA" "BBB" "adm1" "polygon").
  - discriminate.
  - reflexivity.
  - repeat constructor.
  - repeat constructor.
  - vm_compute. reflexivity.
  - vm_compute. reflexivity.
  - vm_compute. reflexivity.
  - vm_compute. reflexivity.
Defined.

(** Where the layers differ in the dtype of a column, the order shows:
    a text column keeps the whole numbers as they are, a float column
    casts them, and the cast is not undone. *)
Example merge_order_matters :
  map (fun r => get r "POP")
    (rows (default no_layer
             (merge (merge counted_set aaa_noted "AAA") ccc_measured "CCC"
                !! "adm1_polygon"))) =
  [CStr "n/a"; CNum (inject_Z (2 ^ 53 + 1)); CNum (3 # 2)] /\
  map (fun r => get r "POP")
    (rows (default no_layer
             (merge (merge counted_set ccc_measured "CCC") aaa_noted "AAA"
                !! "adm1_polygon"))) =
  [CStr "n/a"; CNum (inject_Z (2 ^ 53)); CNum (3 # 2)].
Proof. split; vm_compute; reflexivity. Qed.

(** X12, on the run over the atlas *)
Lemma run_keeps_partitions_witness :
  (forall k, is_Some (processed !! k) <-> is_Some (loaded !! k)) /\
  (forall k,
      (forall level, In level ["adm1"] ->
         k <> partition_key level "polygon" /\
         k <> partition_key level "point") ->
      processed !! k = loaded !! k).
Proof.
  apply (run_keeps_partitions atlas configuration loaded processed
           [Some bbb] ["adm1"] []).
  vm_compute. reflexivity.
Defined.

(** After the run the partition of adm1 holds the two districts of BBB in
    place of its former record; the admin-0 layer is as it was loaded. *)
Example run_on_the_atlas :
  map (fun r => (get r "alpha_3", get r "ADM1_PCODE", get r "ADM1_REF"))
    (rows (default no_layer (processed !! "adm1_polygon"))) =
  [(CStr "BBB", CStr "12034", CStr "North");
   (CStr "BBB", CStr "12040", CStr "South")] /\
  processed !! "adm0_polygon" = Some admin0.
Proof. split; vm_compute; reflexivity. Qed.

(** The resources of adm1 are loaded, that of adm2 is not, and neither
    is the resource that the configuration does not name. *)
Example levels_loaded :
  map (fun key => bool_decide (is_Some (loaded !! key)))
    ["adm0_polygon"; "water"; "adm1_polygon"; "adm1_point"; "adm2_polygon"] =
  [true; true; true; true; false] /\
  announced_level "polbnda_adm2_1m.geojson" = Some "adm2" /\
  announced_level "wrl_polbnda_int.geojson" = None /\
  announced_level "POLBNDA_ADM2.geojson" = None.
Proof. repeat split; vm_compute; reflexivity. Qed.

(** X15, on the atlas, for level adm1 *)
Lemma download_selects_witness :
  exists resources,
    read_from_hdx atlas "un-boundaries" = Some resources /\
    (forall key lyr, loaded !! key = Some lyr ->
       exists r, In r resources /\
         assoc (res_name r) un_names = Some key /\
         level_wanted ["adm1"] (res_name r) = true /\
         (path ← download hdx r; read_file atlas path) = Ok lyr) /\
    (forall r key, In r resources ->
       assoc (res_name r) un_names = Some key ->
       level_wanted ["adm1"] (res_name r) = true ->
       is_Some (loaded !! key) /\
       exists lyr, (path ← download hdx r; read_file atlas path) = Ok lyr).
Proof.
  apply (download_selects atlas hdx "un-boundaries" un_names ["adm1"] loaded).
  vm_compute. reflexivity.
Defined.

(** X17, on the atlas *)
Lemma run_with_levels_raises_witness :
  exists e, main atlas hdx settings "/tmp" [("BBB", bbb)] [] ["adm1"] = Raise e.
Proof.
  apply (run_with_levels_raises atlas hdx settings "/tmp" [("BBB", bbb)] []
           ["adm1"]).
  left. discriminate.
Defined.

(** The run over the atlas gets as far as the upload and ends there. *)
Example run_ends_at_the_upload :
  main atlas hdx settings "/tmp" [("BBB", bbb)] [] [] = Raise IndexError /\
  (store ← download_boundary_inputs atlas hdx "un-boundaries" un_names
             ["adm1"];
   update_all atlas configuration store [Some bbb] ["adm1"] []) =
  Ok processed.
Proof. split; vm_compute; reflexivity. Qed.

(** The same run from the command line, the country given twice *)
Example run_from_the_command_line :
  arguments (Some "bbb,BBB") = ["bbb"; "BBB"] /\
  command_line atlas hdx settings "/tmp" [("AAA", aaa); ("BBB", bbb)]
    (Some "bbb,BBB") (Some "adm1") = Raise IndexError.
Proof. split; vm_compute; reflexivity. Qed.

(** A code given twice, in two cases, is listed once; one that is not
    known has no entry to go with it. *)
Example override_sample :
  override_countries [("AAA", aaa); ("BBB", bbb)] ["bbb"; "zzz"; "BBB"] =
  [("BBB", Some bbb); ("ZZZ", None)].
Proof. reflexivity. Qed.

(** X19, with the code ZZZ *)
Lemma unknown_code_raises_witness :
  exists e,
    update_all atlas configuration loaded
      (map snd (override_countries [("AAA", aaa); ("BBB", bbb)]
                  ["bbb"; "zzz"]))
      ["adm1"] [] = Raise e.
Proof.
  apply (unknown_code_raises atlas configuration loaded
           [("AAA", aaa); ("BBB", bbb)] ["bbb"; "zzz"] "zzz").
  - right. left. reflexivity.
  - reflexivity.
Defined.
